(** * Knowledge-graph assembly and view selection (src/adi.py, src/visualize.py)

    A shallow embedding of the two Streamlit entry points: the text
    normalizer [_clean_text], the graph-building loop of [load_graph_data]
    (missions, keywords, organisms) and the module-level code that derives
    [sub_G] and [final_G] from [full_G].

    Python strings are sequences of Unicode code points, so a character is an
    [N] and a string a [list N].  The operations of [str], [re] and
    [networkx.Graph] that the program calls are modelled first; the program
    itself follows, one module per source file. *)

From Stdlib Require Import List NArith ZArith Bool String Ascii Lia.
Import ListNotations.

Set Implicit Arguments.

(** ** Python strings *)

Definition char := N.
Definition str := list char.

(** A Rocq string literal read as a Python string of ASCII characters. *)
Definition u (s : string) : str := map N_of_ascii (list_ascii_of_string s).

Module Py.

Local Open Scope N_scope.

(** [a == b] on strings. *)
Fixpoint str_eqb (a b : str) : bool :=
  match a, b with
  | [], [] => true
  | x :: a', y :: b' => (x =? y) && str_eqb a' b'
  | _, _ => false
  end.

(** [c.isspace()], which is also what [\s] tests in a [str] pattern: the
    complete list of code points CPython treats as whitespace. *)
Definition isspace (c : char) : bool :=
  ((9 <=? c) && (c <=? 13)) || ((28 <=? c) && (c <=? 32))
  || (c =? 133) || (c =? 160) || (c =? 5760)
  || ((8192 <=? c) && (c <=? 8202))
  || (c =? 8232) || (c =? 8233) || (c =? 8239) || (c =? 8287) || (c =? 12288).

Definition is_ascii (c : char) : bool := c <? 128.
Definition ascii_isupper (c : char) : bool := (65 <=? c) && (c <=? 90).
Definition ascii_islower (c : char) : bool := (97 <=? c) && (c <=? 122).
Definition ascii_isalpha (c : char) : bool := ascii_isupper c || ascii_islower c.
Definition ascii_isdigit (c : char) : bool := (48 <=? c) && (c <=? 57).
Definition ascii_lower (c : char) : char := if ascii_isupper c then c + 32 else c.
Definition ascii_upper (c : char) : char := if ascii_islower c then c - 32 else c.

(** The Unicode character database outside Basic Latin.  The program's
    patterns and tables are ASCII, so everything it does on ASCII text is
    computed here; what [str.lower], [str.title], [\w] and [\d] do on the
    other code points is left to the database in use.  [db_lower] receives the
    text before (reversed) and after the character, since the full lower-case
    mapping of a capital sigma depends on its context. *)
Class unicode_db := {
  db_isalnum : char -> bool;
  db_isdecimal : char -> bool;
  db_iscased : char -> bool;
  db_lower : str -> char -> str -> str;
  db_title : char -> str
}.

(** The database that knows Basic Latin only: every other code point is an
    uncased symbol.  It is used to run the program on concrete ASCII input. *)
Definition basic_latin : unicode_db := {|
  db_isalnum := fun _ => false;
  db_isdecimal := fun _ => false;
  db_iscased := fun _ => false;
  db_lower := fun _ c _ => [c];
  db_title := fun c => [c]
|}.

(** The four code points outside Basic Latin that [re.IGNORECASE] matches
    against an ASCII letter: U+0130 and U+0131 against [i], U+017F against
    [s], U+212A against [k].  Their properties are fixed here as CPython has
    them. *)
Definition I_DOT : char := 304.
Definition DOTLESS_I : char := 305.
Definition LONG_S : char := 383.
Definition KELVIN : char := 8490.

Definition is_case_variant (c : char) : bool :=
  (c =? I_DOT) || (c =? DOTLESS_I) || (c =? LONG_S) || (c =? KELVIN).

Section Unicode.
Context {U : unicode_db}.

(** [\w] in a [str] pattern: alphanumeric or underscore. *)
Definition is_word (c : char) : bool :=
  if is_ascii c then ascii_isalpha c || ascii_isdigit c || (c =? 95)
  else if is_case_variant c then true
  else db_isalnum c.

(** [\d] in a [str] pattern: a decimal digit. *)
Definition is_digit (c : char) : bool :=
  if is_ascii c then ascii_isdigit c
  else if is_case_variant c then false
  else db_isdecimal c.

Definition is_cased (c : char) : bool :=
  if is_ascii c then ascii_isalpha c
  else if is_case_variant c then true
  else db_iscased c.

(** Full lower-case mapping of one character of a string. *)
Definition lower_char (before : str) (c : char) (after : str) : str :=
  if is_ascii c then [ascii_lower c]
  else if c =? I_DOT then [105; 775]
  else if c =? DOTLESS_I then [DOTLESS_I]
  else if c =? LONG_S then [LONG_S]
  else if c =? KELVIN then [107]
  else db_lower before c after.

Definition title_char (c : char) : str :=
  if is_ascii c then [ascii_upper c]
  else if c =? I_DOT then [I_DOT]
  else if c =? DOTLESS_I then [73]
  else if c =? LONG_S then [83]
  else if c =? KELVIN then [KELVIN]
  else db_title c.

Fixpoint lower_from (before s : str) : str :=
  match s with
  | [] => []
  | c :: s' => lower_char before c s' ++ lower_from (c :: before) s'
  end.

(** [s.lower()] *)
Definition lower (s : str) : str := lower_from [] s.

Fixpoint title_from (previous_is_cased : bool) (before s : str) : str :=
  match s with
  | [] => []
  | c :: s' =>
      (if previous_is_cased then lower_char before c s' else title_char c)
      ++ title_from (is_cased c) (c :: before) s'
  end.

(** [s.title()] *)
Definition title (s : str) : str := title_from false [] s.

End Unicode.

(** [s.startswith(p)] *)
Fixpoint startswith (s p : str) {struct p} : bool :=
  match p, s with
  | [], _ => true
  | _ :: _, [] => false
  | a :: p', b :: s' => (a =? b) && startswith s' p'
  end.

(** [s.endswith(p)] *)
Definition endswith (s p : str) : bool := startswith (rev s) (rev p).

(** [p in s] for strings: [p] occurs in [s] as a contiguous substring. *)
Fixpoint contains (p s : str) : bool :=
  startswith s p || match s with [] => false | _ :: s' => contains p s' end.

Fixpoint lstrip (s : str) : str :=
  match s with
  | c :: s' => if isspace c then lstrip s' else s
  | [] => []
  end.

Definition rstrip (s : str) : str := rev (lstrip (rev s)).

(** [s.strip()] *)
Definition strip (s : str) : str := rstrip (lstrip s).

(** [s[1:-1]] *)
Definition slice_1_m1 (s : str) : str := removelast (tl s).

(** [l[:k]] for an integer [k]: a negative bound counts from the end. *)
Definition slice_to {A} (l : list A) (k : Z) : list A :=
  if (k <? 0)%Z then firstn (Z.to_nat (Z.of_nat (List.length l) + k)) l
  else firstn (Z.to_nat k) l.

(** [set(l)] as the list of its distinct elements, in order of first
    occurrence.  (The iteration order of a Python set is unspecified; nothing
    proved below about node and edge sets depends on it.) *)
Fixpoint set_of (l : list str) : list str :=
  match l with
  | [] => []
  | x :: l' => x :: filter (fun y => negb (str_eqb x y)) (set_of l')
  end.

(** [d.get(k)] on a dict kept as an association list in insertion order. *)
Fixpoint dict_get {V} (d : list (str * V)) (k : str) : option V :=
  match d with
  | [] => None
  | (k', v) :: d' => if str_eqb k' k then Some v else dict_get d' k
  end.

Definition dict_get_default {V} (d : list (str * V)) (k : str) (default : V) : V :=
  match dict_get d k with Some v => v | None => default end.

(** A value read from JSON (or from a document of the store) as far as the
    program looks at it: [None], a string, or any other object, which the
    program only ever turns into text with [str()]. *)
Inductive pyval :=
| PyNone
| PyStr (s : str)
| PyObj (text : str).

(** [str(v)] *)
Definition py_str (v : pyval) : str :=
  match v with
  | PyNone => u "None"
  | PyStr s => s
  | PyObj text => text
  end.

(** A value of the top-level JSON mapping: an object with its members, or
    something that is not a dict. *)
Inductive json_doc :=
| JObject (members : list (str * pyval))
| JOther.

(** A document as the graph-building loop receives it: a dict whose values are
    strings, or something that is not a dict. *)
Inductive doc :=
| Dict (fields : list (str * str))
| NotDict.

End Py.

(** ** The [re] module, for the patterns of the program

    Patterns are kept as syntax trees.  Every literal of the program's
    patterns is an ASCII character and every repetition is over a single
    character item, so [Star] takes a character item; [x+] is [x] followed by
    [x*] and [x?] is the alternation of [x] with the empty pattern, tried in
    that order.  Matching is CPython's backtracking search: alternatives in
    order, repetitions greedy. *)

Module Re.
Import Py.
Local Open Scope N_scope.

Inductive item :=
| Lit (c : ascii)            (* an ordinary character *)
| Space                      (* \s *)
| Digit                      (* \d *)
| OneOf (l : list ascii).    (* [...] *)

Inductive regex :=
| Eps
| Chr (i : item)
| Seq (r1 r2 : regex)
| Alt (r1 r2 : regex)
| Star (i : item)
| Grp (r : regex)            (* ( ... ), the only group of its pattern *)
| Bol                        (* ^ *)
| WordB.                     (* \b *)

Definition Plus (i : item) : regex := Seq (Chr i) (Star i).
Definition Opt (i : item) : regex := Alt (Chr i) Eps.

(** A literal word, character by character. *)
Fixpoint Str (s : string) : regex :=
  match s with
  | EmptyString => Eps
  | String c s' => Seq (Chr (Lit c)) (Str s')
  end.

(** The code points outside Basic Latin that [IGNORECASE] accepts for an
    ASCII letter, given in lower case. *)
Definition case_variants (p : char) : list char :=
  if p =? 105 then [I_DOT; DOTLESS_I]
  else if p =? 115 then [LONG_S]
  else if p =? 107 then [KELVIN]
  else [].

(** Does the character [x] of the text match the literal [p]? *)
Definition lit_match (ignorecase : bool) (p : ascii) (x : char) : bool :=
  let p := N_of_ascii p in
  (x =? p)
  || (ignorecase
      && ((is_ascii x && (ascii_lower x =? ascii_lower p))
          || existsb (N.eqb x) (case_variants (ascii_lower p)))).

Section Matching.
Context {U : unicode_db}.
Variable ignorecase : bool.

Definition item_match (i : item) (x : char) : bool :=
  match i with
  | Lit p => lit_match ignorecase p x
  | Space => isspace x
  | Digit => is_digit x
  | OneOf l => existsb (fun p => lit_match ignorecase p x) l
  end.

Definition word_at (s : str) : bool :=
  match s with x :: _ => is_word x | [] => false end.

Section Result.
Variable R : Type.

(** Greedy repetition of one item: take the longest run first, give
    characters back one at a time while the rest of the pattern fails. *)
Fixpoint star_m (i : item) (pre rest : str) (k : str -> str -> option R)
  : option R :=
  match rest with
  | x :: rest' =>
      if item_match i x then
        match star_m i (x :: pre) rest' k with
        | Some a => Some a
        | None => k pre rest
        end
      else k pre rest
  | [] => k pre rest
  end.

(** [rmatch r pre rest cap k]: match [r] at the position that has the text
    [pre] (reversed) behind it and [rest] ahead, [cap] being group 1 so far,
    and continue with [k]. *)
Fixpoint rmatch (r : regex) (pre rest : str) (cap : option str)
    (k : str -> str -> option str -> option R) : option R :=
  match r with
  | Eps => k pre rest cap
  | Chr i =>
      match rest with
      | x :: rest' => if item_match i x then k (x :: pre) rest' cap else None
      | [] => None
      end
  | Seq r1 r2 =>
      rmatch r1 pre rest cap (fun pre' rest' cap' => rmatch r2 pre' rest' cap' k)
  | Alt r1 r2 =>
      match rmatch r1 pre rest cap k with
      | Some a => Some a
      | None => rmatch r2 pre rest cap k
      end
  | Star i => star_m i pre rest (fun pre' rest' => k pre' rest' cap)
  | Grp r1 =>
      rmatch r1 pre rest cap (fun pre' rest' _ =>
        k pre' rest' (Some (firstn (List.length rest - List.length rest') rest)))
  | Bol => match pre with [] => k pre rest cap | _ :: _ => None end
  | WordB => if xorb (word_at pre) (word_at rest) then k pre rest cap else None
  end.

End Result.

(** A match at the current position: its length and its group 1. *)
Definition match_at (r : regex) (pre rest : str) : option (nat * option str) :=
  rmatch r pre rest None
    (fun _ rest' cap => Some ((List.length rest - List.length rest')%nat, cap)).

(** What [findall] reports for a match of a pattern: group 1 when the
    pattern has a group, the whole match otherwise. *)
Definition reported (rest : str) (m : nat * option str) : str :=
  match snd m with
  | Some g => g
  | None => firstn (fst m) rest
  end.

(** The scan of [findall]: [skip] counts the characters still covered by the
    last match.  A match is looked for at every position not covered, from
    left to right.  (None of the program's patterns matches the empty
    string, so what CPython does after an empty match does not arise.) *)
Fixpoint findall_from (r : regex) (pre rest : str) (skip : nat) : list str :=
  match skip with
  | S n =>
      match rest with
      | x :: rest' => findall_from r (x :: pre) rest' n
      | [] => []
      end
  | O =>
      match match_at r pre rest with
      | Some m =>
          reported rest m ::
          match rest with
          | x :: rest' => findall_from r (x :: pre) rest' (fst m - 1)
          | [] => []
          end
      | None =>
          match rest with
          | x :: rest' => findall_from r (x :: pre) rest' 0
          | [] => []
          end
      end
  end.

(** [pattern.findall(text)] *)
Definition findall (r : regex) (text : str) : list str := findall_from r [] text 0.

(** The scan of [sub]: unmatched characters are copied, every match is
    replaced by [repl]. *)
Fixpoint sub_from (r : regex) (repl pre rest : str) (skip : nat) : str :=
  match skip with
  | S n =>
      match rest with
      | x :: rest' => sub_from r repl (x :: pre) rest' n
      | [] => []
      end
  | O =>
      match match_at r pre rest with
      | Some m =>
          repl ++
          match rest with
          | x :: rest' =>
              (if Nat.eqb (fst m) 0 then [x] else [])
              ++ sub_from r repl (x :: pre) rest' (fst m - 1)
          | [] => []
          end
      | None =>
          match rest with
          | x :: rest' => x :: sub_from r repl (x :: pre) rest' 0
          | [] => []
          end
      end
  end.

(** [re.sub(pattern, repl, text)] *)
Definition sub (r : regex) (repl text : str) : str := sub_from r repl [] text 0.

End Matching.

End Re.

(** ** [networkx.Graph]

    An undirected graph without parallel edges.  [nodes] is the node
    dictionary in insertion order, which is the iteration order of
    [G.nodes(data=True)]; [edges] holds every edge once, as the pair it was
    first added with.  The attribute dictionary of a node is a record of the
    four attributes the program writes, each absent ([None]) until set. *)

Module Nx.
Import Py.

Inductive node_type := Publication | Mission | Keyword | Organism | Location.

Definition node_type_eqb (a b : node_type) : bool :=
  match a, b with
  | Publication, Publication | Mission, Mission | Keyword, Keyword
  | Organism, Organism | Location, Location => true
  | _, _ => false
  end.

Record attrs := {
  a_type : option node_type;
  a_color : option str;
  a_size : option Z;
  a_label : option str
}.

Definition no_attrs : attrs :=
  {| a_type := None; a_color := None; a_size := None; a_label := None |}.

Definition or_old {A} (new old : option A) : option A :=
  match new with Some _ => new | None => old end.

(** [old.update(new)] *)
Definition update (old new : attrs) : attrs :=
  {| a_type := or_old (a_type new) (a_type old);
     a_color := or_old (a_color new) (a_color old);
     a_size := or_old (a_size new) (a_size old);
     a_label := or_old (a_label new) (a_label old) |}.

Record graph := {
  nodes : list (str * attrs);
  edges : list (str * str)
}.

(** [nx.Graph()] *)
Definition empty : graph := {| nodes := []; edges := [] |}.

Definition mem (n : str) (l : list str) : bool := existsb (str_eqb n) l.

(** [n in G] *)
Definition has_node (G : graph) (n : str) : bool := mem n (map fst (nodes G)).

Fixpoint update_node (l : list (str * attrs)) (n : str) (a : attrs)
  : list (str * attrs) :=
  match l with
  | [] => []
  | (k, old) :: l' =>
      if str_eqb k n then (k, update old a) :: l'
      else (k, old) :: update_node l' n a
  end.

(** [G.add_node(n, **a)]: a new node is appended; for a node already there
    the attributes given are written over the old ones. *)
Definition add_node (G : graph) (n : str) (a : attrs) : graph :=
  if has_node G n
  then {| nodes := update_node (nodes G) n a; edges := edges G |}
  else {| nodes := nodes G ++ [(n, a)]; edges := edges G |}.

Definition joins (u v : str) (e : str * str) : bool :=
  (str_eqb (fst e) u && str_eqb (snd e) v)
  || (str_eqb (fst e) v && str_eqb (snd e) u).

(** [G.has_edge(u, v)] *)
Definition has_edge (G : graph) (u v : str) : bool := existsb (joins u v) (edges G).

Definition ensure_node (G : graph) (n : str) : graph :=
  if has_node G n then G else add_node G n no_attrs.

(** [G.add_edge(u, v)]: missing end points are created without attributes;
    an edge already there is left alone. *)
Definition add_edge (G : graph) (u v : str) : graph :=
  let G := ensure_node (ensure_node G u) v in
  if has_edge G u v then G
  else {| nodes := nodes G; edges := edges G ++ [(u, v)] |}.

(** [G.neighbors(n)] *)
Definition neighbors (G : graph) (n : str) : list str :=
  flat_map (fun e =>
              if str_eqb (fst e) n then [snd e]
              else if str_eqb (snd e) n then [fst e]
              else []) (edges G).

(** [G.degree(n)]: a self-loop counts twice. *)
Definition degree (G : graph) (n : str) : nat :=
  List.length (neighbors G n) + (if mem n (neighbors G n) then 1 else 0).

Definition number_of_nodes (G : graph) : nat := List.length (nodes G).
Definition number_of_edges (G : graph) : nat := List.length (edges G).

(** [G.subgraph(keep)]: the subgraph induced on the nodes of [G] that are in
    [keep], listed in the order of [G].  (networkx lists a view in the order
    of the graph unless [keep] has fewer than half as many nodes as the
    graph; the statements below on the order of Publication nodes are
    relative to the order of the projected graph.) *)
Definition subgraph (G : graph) (keep : list str) : graph :=
  {| nodes := filter (fun p => mem (fst p) keep) (nodes G);
     edges := filter (fun e => mem (fst e) keep && mem (snd e) keep) (edges G) |}.

(** The keys of the nodes of one type, in iteration order:
    [[n for n, d in G.nodes(data=True) if d.get('type') == t]]. *)
Definition has_type (t : node_type) (d : attrs) : bool :=
  match a_type d with Some t' => node_type_eqb t' t | None => false end.

Definition nodes_of_type (G : graph) (t : node_type) : list str :=
  map fst (filter (fun p => has_type t (snd p)) (nodes G)).

End Nx.

(** ** src/adi.py *)

Module Adi.
Import Py Re Nx.

Definition DQUOTE : str := [34%N].
Definition SQUOTE : str := [39%N].

(** [r'^\s*(Abstract|Introduction)\s*[:\n\r\-]*\s*'] *)
Definition label_pattern : regex :=
  Seq Bol
 (Seq (Star Space)
 (Seq (Grp (Alt (Str "Abstract") (Str "Introduction")))
 (Seq (Star Space)
 (Seq (Star (OneOf [":"; "010"; "013"; "-"]%char))
      (Star Space))))).

(** [r'\s+'] *)
Definition whitespace_pattern : regex := Plus Space.

Section Program.
Context {U : unicode_db}.

Definition _clean_text (s : pyval) : str :=
  match s with
  | PyNone => []
  | _ =>
      let text := py_str s in
      let text := sub true label_pattern [] text in
      let text :=
        if (startswith text DQUOTE && endswith text DQUOTE)
           || (startswith text SQUOTE && endswith text SQUOTE)
        then slice_1_m1 text else text in
      strip (sub false whitespace_pattern (u " ") text)
  end.

(** The JSON branch of [load_graph_data]: the members of the file's top-level
    object, in order, with every dict cleaned field by field and everything
    else dropped.  (The MongoDB branch cleans the same four fields the same
    way.) *)
Definition clean_fields (d : list (str * pyval)) : list (str * str) :=
  [ (u "Title", _clean_text (dict_get_default d (u "Title") (PyStr [])));
    (u "Abstract", _clean_text (dict_get_default d (u "Abstract") (PyStr [])));
    (u "Introduction", _clean_text (dict_get_default d (u "Introduction") (PyStr [])));
    (u "Link", _clean_text (dict_get_default d (u "Link") (PyStr []))) ].

Definition clean_data (data : list (str * json_doc)) : list (str * doc) :=
  flat_map (fun kd =>
              match snd kd with
              | JObject d => [(fst kd, Dict (clean_fields d))]
              | JOther => []
              end) data.

Definition type_colors (t : node_type) : str :=
  match t with
  | Publication => u "#ff6f61"
  | Mission => u "#9e9ac8"
  | Keyword => u "#74c476"
  | Organism => u "#6baed6"
  | Location => u "#fdae6b"
  end.

Definition node_attrs (t : node_type) (size : Z) (label : str) : attrs :=
  {| a_type := Some t; a_color := Some (type_colors t);
     a_size := Some size; a_label := Some label |}.

(** [\b(Bion-M\s?\d+|STS-\d+|ISS|International Space Station|Space Shuttle|Spacelab-?\d*|NeuroLab)\b] *)
Definition mission_pattern : regex :=
  Seq WordB
 (Seq (Grp
   (Alt (Seq (Str "Bion-M") (Seq (Opt Space) (Plus Digit)))
   (Alt (Seq (Str "STS-") (Plus Digit))
   (Alt (Str "ISS")
   (Alt (Str "International Space Station")
   (Alt (Str "Space Shuttle")
   (Alt (Seq (Str "Spacelab") (Seq (Opt (Lit "-")) (Star Digit)))
        (Str "NeuroLab"))))))))
  WordB).

Definition keywords : list (str * str) :=
  [ (u "microgravity", u "Microgravity");
    (u "bone", u "Bone");
    (u "muscle", u "Muscle");
    (u "cardiovascular", u "Cardiovascular");
    (u "radiation", u "Radiation");
    (u "oxidative stress", u "Oxidative Stress");
    (u "cell cycle", u "Cell Cycle");
    (u "stem cell", u "Stem Cells");
    (u "osteoblast", u "Osteoblasts");
    (u "spaceflight", u "Spaceflight");
    (u "immune", u "Immune System");
    (u "gene expression", u "Gene Expression") ].

(** [\b(mice|mouse|Mus musculus|rats|human|Homo sapiens|C57BL/6J?)\b] *)
Definition organism_pattern : regex :=
  Seq WordB
 (Seq (Grp
   (Alt (Str "mice")
   (Alt (Str "mouse")
   (Alt (Str "Mus musculus")
   (Alt (Str "rats")
   (Alt (Str "human")
   (Alt (Str "Homo sapiens")
        (Seq (Str "C57BL/6") (Opt (Lit "J"))))))))))
  WordB).

Definition organism_mapping : list (str * str) :=
  [ (u "mice", u "Mice"); (u "mouse", u "Mice"); (u "mus musculus", u "Mice");
    (u "rats", u "Rats"); (u "human", u "Humans"); (u "homo sapiens", u "Humans");
    (u "c57bl/6j", u "Mice"); (u "c57bl/6", u "Mice") ].

(** The three extraction steps of the loop body, each adding to [G] the nodes
    and edges of the publication [pub_id]. *)

Definition add_mission (pub_id : str) (G : graph) (mission : str) : graph :=
  let mission_clean := strip mission in
  let G := add_node G mission_clean (node_attrs Mission 14 mission_clean) in
  add_edge G pub_id mission_clean.

Definition missions (intro : str) : list str :=
  set_of (findall true mission_pattern intro).

Definition add_keyword (pub_id combined_text : str) (G : graph) (kw : str * str)
  : graph :=
  let (keyword_search, keyword_label) := kw in
  if contains keyword_search combined_text then
    let G := add_node G keyword_label (node_attrs Keyword 10 keyword_label) in
    add_edge G pub_id keyword_label
  else G.

Definition organisms (text : str) : list str :=
  set_of (findall true organism_pattern text).

Definition org_label (org : str) : str :=
  dict_get_default organism_mapping (lower org) (title org).

Definition add_organism (pub_id : str) (G : graph) (org : str) : graph :=
  let org_label := org_label org in
  let G := add_node G org_label (node_attrs Organism 12 org_label) in
  add_edge G pub_id org_label.

(** One turn of [for doc_id, doc in data.items()]. *)
Definition add_document (G : graph) (item : str * doc) : graph :=
  let (doc_id, doc) := item in
  match doc with
  | NotDict => G
  | Dict d =>
      let title := dict_get_default d (u "Title") [] in
      if (List.length title =? 0)%nat || (List.length title <? 5)%nat then G
      else
        let pub_id := u "pub_" ++ doc_id in
        let G := add_node G pub_id (node_attrs Publication 18 (firstn 100 title)) in
        let intro := dict_get_default d (u "Introduction") [] in
        let G :=
          match intro with
          | [] => G
          | _ :: _ => fold_left (add_mission pub_id) (missions intro) G
          end in
        let abstract := dict_get_default d (u "Abstract") [] in
        let combined_text := lower (title ++ u " " ++ abstract) in
        let G := fold_left (add_keyword pub_id combined_text) keywords G in
        fold_left (add_organism pub_id) (organisms (intro ++ u " " ++ abstract)) G
  end.

(** The graph-building loop (lines 99-166). *)
Definition build_graph (data : list (str * doc)) : graph :=
  fold_left add_document data empty.

(** [load_graph_data()] when the records come from the JSON file whose
    top-level members are [json]. *)
Definition load_graph_data (json : list (str * json_doc)) : graph * str :=
  (build_graph (clean_data json), u "json").

End Program.

(** The module-level code that derives the displayed graph from [full_G],
    the selected types and the slider value. *)
Section View.
Variable full_G : graph.
Variable selected_types : list node_type.
Variable max_pubs : Z.

Definition type_selected (d : attrs) : bool :=
  match a_type d with
  | Some t => existsb (node_type_eqb t) selected_types
  | None => false
  end.

Definition pub_nodes_all : list str := nodes_of_type full_G Publication.

Definition nodes_to_consider : list str :=
  pub_nodes_all ++ flat_map (neighbors full_G) pub_nodes_all.

Definition sub_G : graph := subgraph full_G nodes_to_consider.

Definition pubs_in_sub : list str := nodes_of_type sub_G Publication.

Definition pubs_to_show : list str :=
  if existsb (node_type_eqb Publication) selected_types
  then slice_to pubs_in_sub max_pubs else [].

Definition keep_node (p : str * attrs) : bool :=
  let (n, d) := p in
  if negb (type_selected d) then false
  else if has_type Publication d then mem n pubs_to_show
  else true.

Definition final_nodes_to_keep : list str := map fst (filter keep_node (nodes sub_G)).

Definition final_G : graph := subgraph sub_G final_nodes_to_keep.

End View.

End Adi.

(** ** src/visualize.py

    The earlier entry point: the same loop, run on the JSON mapping as it was
    read.  It is modelled on documents whose fields are strings. *)

Module Visualize.
Import Py Re Nx.

Definition type_colors (t : node_type) : str :=
  match t with
  | Publication => u "#ff6f61"
  | Mission => u "#9e9ac8"
  | Keyword => u "#74c476"
  | Organism => u "#6baed6"
  | Location => u "#fdae6b"
  end.

Definition node_attrs (t : node_type) (size : Z) (label : str) : attrs :=
  {| a_type := Some t; a_color := Some (type_colors t);
     a_size := Some size; a_label := Some label |}.

Definition mission_pattern : regex :=
  Seq WordB
 (Seq (Grp
   (Alt (Seq (Str "Bion-M") (Seq (Opt Space) (Plus Digit)))
   (Alt (Seq (Str "STS-") (Plus Digit))
   (Alt (Str "ISS")
   (Alt (Str "International Space Station")
   (Alt (Str "Space Shuttle")
   (Alt (Seq (Str "Spacelab") (Seq (Opt (Lit "-")) (Star Digit)))
        (Str "NeuroLab"))))))))
  WordB).

Definition keywords : list (str * str) :=
  [ (u "microgravity", u "Microgravity");
    (u "bone", u "Bone");
    (u "muscle", u "Muscle");
    (u "cardiovascular", u "Cardiovascular");
    (u "radiation", u "Radiation");
    (u "oxidative stress", u "Oxidative Stress");
    (u "cell cycle", u "Cell Cycle");
    (u "stem cell", u "Stem Cells");
    (u "osteoblast", u "Osteoblasts");
    (u "spaceflight", u "Spaceflight");
    (u "immune", u "Immune System");
    (u "gene expression", u "Gene Expression") ].

Definition organism_pattern : regex :=
  Seq WordB
 (Seq (Grp
   (Alt (Str "mice")
   (Alt (Str "mouse")
   (Alt (Str "Mus musculus")
   (Alt (Str "rats")
   (Alt (Str "human")
   (Alt (Str "Homo sapiens")
        (Seq (Str "C57BL/6") (Opt (Lit "J"))))))))))
  WordB).

Definition organism_mapping : list (str * str) :=
  [ (u "mice", u "Mice"); (u "mouse", u "Mice"); (u "mus musculus", u "Mice");
    (u "rats", u "Rats"); (u "human", u "Humans"); (u "homo sapiens", u "Humans");
    (u "c57bl/6j", u "Mice"); (u "c57bl/6", u "Mice") ].

Section Program.
Context {U : unicode_db}.

(** One turn of [for doc_id, doc in data.items()] (lines 30-93). *)
Definition add_document (G : graph) (item : str * doc) : graph :=
  let (doc_id, doc) := item in
  match doc with
  | NotDict => G
  | Dict d =>
      let title := dict_get_default d (u "Title") [] in
      if (List.length title =? 0)%nat || (List.length title <? 5)%nat then G
      else
        let pub_id := u "pub_" ++ doc_id in
        let G := add_node G pub_id (node_attrs Publication 18 (firstn 100 title)) in
        let intro := dict_get_default d (u "Introduction") [] in
        let G :=
          match intro with
          | [] => G
          | _ :: _ =>
              fold_left
                (fun G mission =>
                   let mission_clean := strip mission in
                   let G := add_node G mission_clean
                                     (node_attrs Mission 14 mission_clean) in
                   add_edge G pub_id mission_clean)
                (set_of (findall true mission_pattern intro)) G
          end in
        let abstract := dict_get_default d (u "Abstract") [] in
        let combined_text := lower (title ++ u " " ++ abstract) in
        let G :=
          fold_left
            (fun G (kw : str * str) =>
               let (keyword_search, keyword_label) := kw in
               if contains keyword_search combined_text then
                 let G := add_node G keyword_label
                                   (node_attrs Keyword 10 keyword_label) in
                 add_edge G pub_id keyword_label
               else G)
            keywords G in
        let organisms :=
          set_of (findall true organism_pattern (intro ++ u " " ++ abstract)) in
        fold_left
          (fun G org =>
             let org_label :=
               dict_get_default organism_mapping (lower org) (Py.title org) in
             let G := add_node G org_label (node_attrs Organism 12 org_label) in
             add_edge G pub_id org_label)
          organisms G
  end.

(** The graph-building loop (lines 23-95). *)
Definition build_graph (data : list (str * doc)) : graph :=
  fold_left add_document data empty.

End Program.

End Visualize.

(** ** src/adi.py: where the records come from, and the sidebar controls *)

Module AdiPage.
Import Py Re Nx.

(** [d[k] = v] on a dict kept as an association list: the value of a key
    already there is replaced in place, a new key goes to the end. *)
Fixpoint dict_set {V} (d : list (str * V)) (k : str) (v : V) : list (str * V) :=
  match d with
  | [] => [(k, v)]
  | (k', v') :: d' =>
      if str_eqb k' k then (k', v) :: d' else (k', v') :: dict_set d' k v
  end.

(** What [json.load] returns for the fallback file: an object with its
    members, or a value that is not an object (a list, a string, a number,
    [true], [false], [null]) and so has no [items]. *)
Inductive json_top :=
| TopObject (members : list (str * json_doc))
| TopOther.

(** What opening and parsing the fallback file comes to: [open] raises
    [FileNotFoundError]; [open] or [json.load] raises another exception
    (such as [PermissionError], [UnicodeDecodeError] or
    [json.JSONDecodeError]), given by its name; or [json.load] returns a
    value. *)
Inductive fallback :=
| FileNotFound
| Fails (exception : str)
| Parsed (data : json_top).

(** What [load_graph_data()] comes to: the pair of graph and source name;
    when the fallback file is not found, a graph alone; or an exception that
    it does not catch. *)
Inductive loaded :=
| Loaded (G : graph) (data_source : str)
| Bare (G : graph)
| Raised (exception : str).

(** What [full_G, DATA_SOURCE = ...] makes of it.  A pair is taken apart; a
    graph is iterated, which yields its node keys, and that works only when
    there are exactly two of them; an exception goes on. *)
Inductive unpacked :=
| Unpacked (full_G : graph) (DATA_SOURCE : str)
| UnpackedKeys (full_G DATA_SOURCE : str)
| ValueError
| Raises (exception : str).

Definition unpack (r : loaded) : unpacked :=
  match r with
  | Loaded G data_source => Unpacked G data_source
  | Bare G =>
      match map fst (nodes G) with
      | [a; b] => UnpackedKeys a b
      | _ => ValueError
      end
  | Raised exception => Raises exception
  end.

Section Source.
Context {U : unicode_db}.

(** [str(doc.get("_id"))] *)
Definition mongo_key (doc : list (str * pyval)) : str :=
  py_str (dict_get_default doc (u "_id") PyNone).

(** The MongoDB branch (lines 49-73): every document of the cursor is
    stored, cleaned, under the text of its [_id]. *)
Definition mongo_data (cursor : list (list (str * pyval))) : list (str * doc) :=
  fold_left
    (fun data doc => dict_set data (mongo_key doc) (Dict (Adi.clean_fields doc)))
    cursor [].

(** [load_graph_data()] (lines 41-166).  [mongo] is what the cursor yields,
    [None] when the helper is missing or the query raises (every exception
    of that branch is caught); [file] is what opening and parsing the
    fallback file comes to.  Of the exceptions of the fallback branch only
    [FileNotFoundError] is caught; a value that is not an object fails at
    [data.items()] with [AttributeError]. *)
Definition load_graph_data (mongo : option (list (list (str * pyval))))
    (file : fallback) : loaded :=
  let data := match mongo with Some cursor => mongo_data cursor | None => [] end in
  match data with
  | _ :: _ => Loaded (Adi.build_graph data) (u "mongo")
  | [] =>
      match file with
      | Parsed (TopObject json) =>
          Loaded (Adi.build_graph (Adi.clean_data json)) (u "json")
      | Parsed TopOther => Raised (u "AttributeError")
      | Fails exception => Raised exception
      | FileNotFound => Bare empty
      end
  end.

End Source.

(** The sidebar controls (lines 181-195). *)

Definition type_name (t : node_type) : str :=
  match t with
  | Publication => u "Publication"
  | Mission => u "Mission"
  | Keyword => u "Keyword"
  | Organism => u "Organism"
  | Location => u "Location"
  end.

Definition total_publications (full_G : graph) : Z :=
  Z.of_nat (List.length (nodes_of_type full_G Publication)).

Definition slider_min (full_G : graph) : Z :=
  if (1 <=? total_publications full_G)%Z then 1%Z else 0%Z.

Definition slider_max (full_G : graph) : Z :=
  if (1 <=? total_publications full_G)%Z then total_publications full_G else 1%Z.

Definition default_val (full_G : graph) : Z :=
  if (50 <=? total_publications full_G)%Z then 50%Z else slider_max full_G.

Definition type_present (full_G : graph) (t : node_type) : bool :=
  existsb (fun p => has_type t (snd p)) (nodes full_G).

(** [sorted(list(set(nx.get_node_attributes(full_G, 'type').values())))]:
    the types that occur, by name in ascending order. *)
Definition all_node_types (full_G : graph) : list node_type :=
  filter (type_present full_G) [Keyword; Location; Mission; Organism; Publication].

Definition desired_defaults : list node_type :=
  [Publication; Mission; Keyword; Organism].

Definition actual_defaults (full_G : graph) : list node_type :=
  filter (fun t => existsb (node_type_eqb t) (all_node_types full_G)) desired_defaults.

(** [a < b] on strings: by code point, a proper prefix first. *)
Fixpoint str_ltb (a b : str) : bool :=
  match a, b with
  | _, [] => false
  | [], _ :: _ => true
  | x :: a', y :: b' => (x <? y)%N || ((x =? y)%N && str_ltb a' b')
  end.

(** [st.sidebar.slider(label, min_value, max_value, value)] when the page is
    drawn with the widget at [value]: it returns [value].  Streamlit raises
    [StreamlitAPIException] unless [min_value < max_value] and
    [min_value <= value <= max_value]; the page then stops at this line. *)
Definition slider (min_value max_value value : Z) : option Z :=
  if ((min_value <? max_value) && (min_value <=? value) && (value <=? max_value))%Z
  then Some value else None.

(** The graph displayed when the page is first drawn, both controls at
    their defaults (lines 181-217); [None] when the slider call fails. *)
Definition default_page (full_G : graph) : option graph :=
  match slider (slider_min full_G) (slider_max full_G) (default_val full_G) with
  | Some max_pubs => Some (Adi.final_G full_G (actual_defaults full_G) max_pubs)
  | None => None
  end.

End AdiPage.

(** * Notions used in the statements *)

Import Py Re Nx.

Section Notions.
Context {U : unicode_db}.

(** What every extraction step of the loop does with a label: the node, then
    the edge from the publication. *)
Definition add_entity (attr : str -> attrs) (pub_id : str) (G : graph) (label : str)
  : graph :=
  add_edge (add_node G label (attr label)) pub_id label.

(** What a pattern can match, without the order in which the search tries
    things: [matches ic r pre rest cap pre' rest' cap'] says that [r] can take
    the position [(pre, rest)] with group [cap] to [(pre', rest')] with group
    [cap'].  Whatever the search finds is such a match. *)
Inductive matches (ic : bool) :
  regex -> str -> str -> option str -> str -> str -> option str -> Prop :=
| m_eps pre rest cap : matches ic Eps pre rest cap pre rest cap
| m_chr i x pre rest cap :
    item_match ic i x = true ->
    matches ic (Chr i) pre (x :: rest) cap (x :: pre) rest cap
| m_seq r1 r2 pre rest cap pre1 rest1 cap1 pre2 rest2 cap2 :
    matches ic r1 pre rest cap pre1 rest1 cap1 ->
    matches ic r2 pre1 rest1 cap1 pre2 rest2 cap2 ->
    matches ic (Seq r1 r2) pre rest cap pre2 rest2 cap2
| m_alt_l r1 r2 pre rest cap pre' rest' cap' :
    matches ic r1 pre rest cap pre' rest' cap' ->
    matches ic (Alt r1 r2) pre rest cap pre' rest' cap'
| m_alt_r r1 r2 pre rest cap pre' rest' cap' :
    matches ic r2 pre rest cap pre' rest' cap' ->
    matches ic (Alt r1 r2) pre rest cap pre' rest' cap'
| m_star_stop i pre rest cap : matches ic (Star i) pre rest cap pre rest cap
| m_star_step i x pre rest cap pre' rest' cap' :
    item_match ic i x = true ->
    matches ic (Star i) (x :: pre) rest cap pre' rest' cap' ->
    matches ic (Star i) pre (x :: rest) cap pre' rest' cap'
| m_grp r pre rest cap pre' rest' cap' :
    matches ic r pre rest cap pre' rest' cap' ->
    matches ic (Grp r) pre rest cap pre' rest'
            (Some (firstn (List.length rest - List.length rest') rest))
| m_bol rest cap : matches ic Bol [] rest cap [] rest cap
| m_wordb pre rest cap :
    xorb (word_at pre) (word_at rest) = true ->
    matches ic WordB pre rest cap pre rest cap.

(** The length of the run of whitespace at the front of a text. *)
Fixpoint run (s : str) : nat :=
  match s with
  | c :: s' => if isspace c then S (run s') else 0
  | [] => 0
  end.

(** No two whitespace characters next to each other. *)
Fixpoint single_spaced (s : str) : Prop :=
  match s with
  | c1 :: t =>
      match t with
      | c2 :: _ => ~ (isspace c1 = true /\ isspace c2 = true)
      | [] => True
      end /\ single_spaced t
  | [] => True
  end.

Definition no_leading_space (s : str) : Prop :=
  match s with c :: _ => isspace c = false | [] => True end.

(** A document passes the title test of the loop. *)
Definition accepted (d : list (str * str)) : bool :=
  let title := dict_get_default d (u "Title") [] in
  negb ((List.length title =? 0)%nat || (List.length title <? 5)%nat).

Definition pub_key (doc_id : str) : str := u "pub_" ++ doc_id.

Definition pub_attrs (d : list (str * str)) : attrs :=
  Adi.node_attrs Publication 18 (firstn 100 (dict_get_default d (u "Title") [])).

(** The labels for which the keyword loop adds a node, in lexicon order. *)
Definition keyword_hits (combined_text : str) : list str :=
  map snd (filter (fun kw => contains (fst kw) combined_text) Adi.keywords).

(** The Mission labels of an Introduction. *)
Definition mission_labels (intro : str) : list str :=
  map strip (Adi.missions intro).

(** Everything a document adds besides its Publication node: type, size and
    label of each entity, in the order the loop adds them. *)
Definition doc_items (d : list (str * str)) : list (node_type * Z * str) :=
  let title := dict_get_default d (u "Title") [] in
  let intro := dict_get_default d (u "Introduction") [] in
  let abstract := dict_get_default d (u "Abstract") [] in
  map (fun l => (Mission, 14%Z, l)) (mission_labels intro)
  ++ map (fun l => (Keyword, 10%Z, l))
         (keyword_hits (lower (title ++ u " " ++ abstract)))
  ++ map (fun l => (Organism, 12%Z, l))
         (map Adi.org_label (Adi.organisms (intro ++ u " " ++ abstract))).

Definition item_label (it : node_type * Z * str) : str := snd it.

Definition item_attrs (it : node_type * Z * str) : attrs :=
  Adi.node_attrs (fst (fst it)) (snd (fst it)) (snd it).

Definition add_item (pub_id : str) (G : graph) (it : node_type * Z * str) : graph :=
  add_entity (fun l => Adi.node_attrs (fst (fst it)) (snd (fst it)) l) pub_id G (snd it).

(** [s] contains [p] as a contiguous piece. *)
Definition substring (p s : str) : Prop := exists a b, s = a ++ p ++ b.

(** The record of the end-to-end scenario. *)
Definition scenario_record : list (str * pyval) :=
  [ (u "Title", PyStr (u "Effects of Microgravity on Mouse Bone in ISS Missions"));
    (u "Abstract", PyStr (u "microgravity bone"));
    (u "Introduction", PyStr (u "Aboard the ISS, mice were studied.")) ].

(** A record the assembler skips: not a dict, or a dict whose cleaned Title
    has fewer than five characters (the empty Title included). *)
Definition rejected (d : json_doc) : Prop :=
  match d with
  | JOther => True
  | JObject m =>
      (List.length (Adi._clean_text (dict_get_default m (u "Title") (PyStr []))) < 5)%nat
  end.

(** The record with Title "Hi" whose Abstract has keyword matches. *)
Definition hi_record : json_doc :=
  JObject [ (u "Title", PyStr (u "Hi"));
            (u "Abstract", PyStr (u "microgravity bone muscle"));
            (u "Introduction", PyStr (u "Mice aboard the ISS.")) ].

Definition intro_of (d : list (str * str)) : str :=
  dict_get_default d (u "Introduction") [].

Definition abstract_of (d : list (str * str)) : str :=
  dict_get_default d (u "Abstract") [].

(** The text the organism pattern is run on. *)
Definition organism_text (d : list (str * str)) : str :=
  intro_of d ++ u " " ++ abstract_of d.

(** Two documents that both mention the ISS in their Introduction. *)
Definition two_iss_documents : list (str * json_doc) :=
  [ (u "doc1", JObject [ (u "Title", PyStr (u "First paper"));
                         (u "Introduction", PyStr (u "Flown on the ISS in 2012.")) ]);
    (u "doc2", JObject [ (u "Title", PyStr (u "Second paper"));
                         (u "Introduction", PyStr (u "Samples returned from the ISS.")) ]) ].

(** Every node that is not a Publication node is labelled with its key. *)
Definition entity_keyed (G : graph) : Prop :=
  forall k a, In (k, a) (nodes G) -> a_type a <> Some Publication -> a_label a = Some k.

(** A document whose Introduction writes one mission in two ways. *)
Definition bion_document : list (str * json_doc) :=
  [ (u "doc", JObject [ (u "Title", PyStr (u "Biosatellite mission report"));
                        (u "Introduction",
                         PyStr (u "Mice flew on Bion-M1 and Bion-M 1.")) ]) ].

(** A document about immunity. *)
Definition immunity_document : list (str * json_doc) :=
  [ (u "doc", JObject [ (u "Title", PyStr (u "Immunity in orbit"));
                        (u "Abstract", PyStr (u "Changes of immunity after flight.")) ]) ].

(** The words of the organism pattern, the optional [J] spelled out. *)
Definition organism_words : list string :=
  [ "mice"; "mouse"; "Mus musculus"; "rats"; "human"; "Homo sapiens";
    "C57BL/6J"; "C57BL/6" ]%string.

(** [w] is the word [s] up to what [IGNORECASE] allows, character by
    character. *)
Definition spells (s : string) (w : str) : Prop :=
  Forall2 (fun p x => lit_match true p x = true) (list_ascii_of_string s) w.

(** No character of the text is one of the four non-ASCII case variants of
    an ASCII letter.  Every ASCII text is such a text. *)
Definition plain (text : str) : Prop :=
  Forall (fun c => is_case_variant c = false) text.

Definition organism_labels : list str := [u "Mice"; u "Rats"; u "Humans"].

(** The code points outside Basic Latin that [IGNORECASE] accepts for the
    letters [i] and [s]. *)
Definition i_or_s_variant (c : char) : bool :=
  ((c =? I_DOT) || (c =? DOTLESS_I) || (c =? LONG_S))%N.

(** A token that has none of them. *)
Definition usual_token (org : str) : bool :=
  forallb (fun c => negb (i_or_s_variant c)) org.

(** The alternatives of the organism pattern, inside its group. *)
Definition organism_body : regex :=
  Alt (Str "mice")
 (Alt (Str "mouse")
 (Alt (Str "Mus musculus")
 (Alt (Str "rats")
 (Alt (Str "human")
 (Alt (Str "Homo sapiens")
      (Seq (Str "C57BL/6") (Opt (Lit "J"))))))))%string.

(** The alternatives of the mission pattern, inside its group. *)
Definition mission_body : regex :=
  Alt (Seq (Str "Bion-M") (Seq (Opt Space) (Plus Digit)))
 (Alt (Seq (Str "STS-") (Plus Digit))
 (Alt (Str "ISS")
 (Alt (Str "International Space Station")
 (Alt (Str "Space Shuttle")
 (Alt (Seq (Str "Spacelab") (Seq (Opt (Lit "-")) (Star Digit)))
      (Str "NeuroLab"))))))%string.

(** The key of a Publication node starts with the letter p; no entity label
    does. *)
Definition starts_with_p (l : str) : bool :=
  match l with c :: _ => (c =? 112)%N | [] => false end.

(** The first character of a mission match: one of B, S, I, N in either
    case, or a case variant of one of them. *)
Definition mission_initial (x : char) : Prop :=
  In x [66; 98; 83; 115; 73; 105; 78; 110; I_DOT; DOTLESS_I; LONG_S; KELVIN]%N.

(** "mice" written with a dotless i (U+0131), and a document that uses it. *)
Definition dotless_mice : str := [109; 305; 99; 101]%N.

Definition dotless_document : list (str * json_doc) :=
  [ (u "doc",
     JObject [ (u "Title", PyStr (u "Rodent study in orbit"));
               (u "Introduction",
                PyStr (u "We flew " ++ dotless_mice ++ u " on the station.")) ]) ].

End Notions.

(** What the displayed graph is, for a graph, a selection and a cap: the
    projected graph has the Publication nodes of the graph; when
    "Publication" is selected the Publication nodes displayed are the first
    [min(max_pubs, number of Publication nodes)] Publication nodes of the
    projected graph, in its order; a node of the projected graph that is not
    a Publication node is displayed exactly when its type is selected; every
    displayed node is a node of the projected graph with a selected type; and
    when "Publication" is not selected no Publication node is displayed. *)
Definition view_spec (full_G : graph) (selected_types : list node_type)
    (max_pubs : Z) : Prop :=
  nodes_of_type (Adi.sub_G full_G) Publication = nodes_of_type full_G Publication
  /\ (existsb (node_type_eqb Publication) selected_types = true ->
      nodes_of_type (Adi.final_G full_G selected_types max_pubs) Publication
      = firstn (Nat.min (Z.to_nat max_pubs)
                        (List.length (nodes_of_type (Adi.sub_G full_G) Publication)))
               (nodes_of_type (Adi.sub_G full_G) Publication))
  /\ (forall n d, In (n, d) (nodes (Adi.sub_G full_G)) ->
        has_type Publication d = false ->
        (In (n, d) (nodes (Adi.final_G full_G selected_types max_pubs))
         <-> Adi.type_selected selected_types d = true))
  /\ (forall n d, In (n, d) (nodes (Adi.final_G full_G selected_types max_pubs)) ->
        In (n, d) (nodes (Adi.sub_G full_G))
        /\ Adi.type_selected selected_types d = true)
  /\ (existsb (node_type_eqb Publication) selected_types = false ->
      nodes_of_type (Adi.final_G full_G selected_types max_pubs) Publication = []).

(** Three documents and the graph assembled from them: publication [a]
    mentions bone, [b] muscle, [c] radiation and bone. *)
Definition three_documents : list (str * doc) :=
  [ (u "a", Dict [ (u "Title", u "Bone loss in orbit") ]);
    (u "b", Dict [ (u "Title", u "Muscle atrophy study") ]);
    (u "c", Dict [ (u "Title", u "Radiation and bone") ]) ].

Definition three_documents_graph : graph :=
  Adi.build_graph (U := basic_latin) three_documents.

(** Two versions of one stored document, two stored documents, and a
    mapping whose only record has too short a title. *)
Definition two_versions : list (list (str * pyval)) :=
  [ [ (u "_id", PyStr (u "7")); (u "Title", PyStr (u "Bone loss in orbit")) ];
    [ (u "_id", PyStr (u "7")); (u "Title", PyStr (u "Muscle atrophy study")) ] ].

Definition two_records : list (list (str * pyval)) :=
  [ [ (u "_id", PyStr (u "7")); (u "Title", PyStr (u "Bone loss in orbit")) ];
    [ (u "_id", PyObj (u "8")); (u "Title", PyStr (u "Muscle atrophy study")) ] ].


(** A labelled, quoted text with a tab inside. *)
Definition quoted_label_text : str := u "Abstract: 'a" ++ [9%N] ++ u "b'".

(** ** Notions used for the further properties *)

Section MoreNotions.
Context {U : unicode_db}.

(** The ids of the documents that pass the title test, in input order. *)
Definition accepted_ids (data : list (str * doc)) : list str :=
  flat_map (fun item =>
              match snd item with
              | Dict d => if accepted d then [fst item] else []
              | NotDict => []
              end) data.

(** The labels a document yields. *)
Definition doc_labels (d : list (str * str)) : list str :=
  map item_label (doc_items d).

Definition nonspace (c : char) : bool := negb (isspace c).

(** Publication nodes, and only they, have keys that start with p. *)
Definition typed_by_key (G : graph) : Prop :=
  forall k a, In (k, a) (nodes G) -> has_type Publication a = starts_with_p k.

(** The names of a list of types are in strictly ascending order. *)
Fixpoint sorted_names (l : list node_type) : bool :=
  match l with
  | t1 :: r =>
      match r with
      | t2 :: _ => AdiPage.str_ltb (AdiPage.type_name t1) (AdiPage.type_name t2)
      | [] => true
      end && sorted_names r
  | [] => true
  end.

(** What the MongoDB branch stores for one document of the cursor. *)
Definition mongo_entry (record : list (str * pyval)) : str * doc :=
  (AdiPage.mongo_key record, Dict (Adi.clean_fields record)).

(** At most one edge joins any two nodes. *)
Definition simple (G : graph) : Prop :=
  forall a b, (List.length (filter (joins a b) (edges G)) <= 1)%nat.

(** The ids of the accepted documents that yield the label [l], in input
    order. *)
Definition mentioning (l : str) (data : list (str * doc)) : list str :=
  flat_map (fun item =>
              match snd item with
              | Dict d => if accepted d && mem l (doc_labels d) then [fst item] else []
              | NotDict => []
              end) data.

End MoreNotions.


(** * Properties *)

(** ** Strings and dictionaries *)

Lemma str_eqb_eq (a b : str) : str_eqb a b = true <-> a = b.
Proof.
  revert b. induction a as [|x a IH]; intros [|y b]; simpl; split; try congruence.
  - intros H. apply andb_true_iff in H as [Hx Hab].
    apply N.eqb_eq in Hx. apply IH in Hab. congruence.
  - intros H. inversion H; subst. rewrite N.eqb_refl. simpl. now apply IH.
Qed.

Lemma str_eqb_refl (a : str) : str_eqb a a = true.
Proof. now apply str_eqb_eq. Qed.

Lemma str_eqb_neq (a b : str) : str_eqb a b = false <-> a <> b.
Proof.
  split.
  - intros H E. apply str_eqb_eq in E. congruence.
  - intros H. destruct (str_eqb a b) eqn:E; [|reflexivity].
    apply str_eqb_eq in E. contradiction.
Qed.

Lemma mem_In (n : str) (l : list str) : mem n l = true <-> In n l.
Proof.
  unfold mem. rewrite existsb_exists. split.
  - intros (x & Hx & E). apply str_eqb_eq in E. now subst.
  - intros H. exists n. split; [assumption|apply str_eqb_refl].
Qed.

Lemma mem_false (n : str) (l : list str) : mem n l = false <-> ~ In n l.
Proof.
  rewrite <- mem_In. destruct (mem n l); split; congruence.
Qed.

(** ** Graph operations *)

Lemma update_full (old : attrs) (t : node_type) (c : str) (z : Z) (l : str) :
  update old {| a_type := Some t; a_color := Some c; a_size := Some z; a_label := Some l |}
  = {| a_type := Some t; a_color := Some c; a_size := Some z; a_label := Some l |}.
Proof. reflexivity. Qed.

Lemma update_node_keys (l : list (str * attrs)) (n : str) (a : attrs) :
  map fst (update_node l n a) = map fst l.
Proof.
  induction l as [|[k old] l IH]; simpl; [reflexivity|].
  destruct (str_eqb k n); simpl; [reflexivity|now rewrite IH].
Qed.

Lemma update_node_In (l : list (str * attrs)) (n : str) (a : attrs) (k : str) (b : attrs) :
  In (k, b) (update_node l n a) ->
  In (k, b) l \/ (k = n /\ exists old, In (n, old) l /\ b = update old a).
Proof.
  induction l as [|[k' old] l IH]; simpl; [tauto|].
  destruct (str_eqb k' n) eqn:E; simpl.
  - apply str_eqb_eq in E. subst k'. intros [H|H]; [|tauto].
    inversion H; subst. right. split; [reflexivity|]. exists old. tauto.
  - intros [H|H]; [tauto|]. destruct (IH H) as [H'|(-> & old' & Ho & ->)]; [tauto|].
    right. split; [reflexivity|]. exists old'. tauto.
Qed.

Lemma add_node_keys (G : graph) (n : str) (a : attrs) :
  map fst (nodes (add_node G n a))
  = if has_node G n then map fst (nodes G) else map fst (nodes G) ++ [n].
Proof.
  unfold add_node. destruct (has_node G n); simpl.
  - apply update_node_keys.
  - now rewrite map_app.
Qed.

Lemma add_node_edges (G : graph) (n : str) (a : attrs) :
  edges (add_node G n a) = edges G.
Proof. unfold add_node. now destruct (has_node G n). Qed.

Lemma has_node_In (G : graph) (n : str) :
  has_node G n = true <-> In n (map fst (nodes G)).
Proof. apply mem_In. Qed.

Lemma has_node_add_node (G : graph) (n : str) (a : attrs) (m : str) :
  has_node (add_node G n a) m = has_node G m || str_eqb m n.
Proof.
  unfold has_node at 1. rewrite add_node_keys.
  destruct (has_node G n) eqn:E.
  - fold (has_node G m). destruct (str_eqb m n) eqn:Em.
    + apply str_eqb_eq in Em. subst. rewrite E. reflexivity.
    + now rewrite orb_false_r.
  - unfold mem. rewrite existsb_app. simpl. now rewrite orb_false_r.
Qed.

Lemma has_node_add_node_same (G : graph) (n : str) (a : attrs) :
  has_node (add_node G n a) n = true.
Proof. rewrite has_node_add_node, str_eqb_refl. apply orb_true_r. Qed.

Lemma ensure_node_present (G : graph) (n : str) :
  has_node G n = true -> ensure_node G n = G.
Proof. unfold ensure_node. now intros ->. Qed.

(** With both end points present, [add_edge] only touches the edge list. *)
Lemma add_edge_present (G : graph) (a b : str) :
  has_node G a = true -> has_node G b = true ->
  add_edge G a b
  = if has_edge G a b then G
    else {| nodes := nodes G; edges := edges G ++ [(a, b)] |}.
Proof.
  intros Ha Hb. unfold add_edge.
  rewrite (ensure_node_present G a Ha), (ensure_node_present G b Hb).
  reflexivity.
Qed.

Lemma add_entity_eq (attr : str -> attrs) (pub_id : str) (G : graph) (l : str) :
  has_node G pub_id = true ->
  add_entity attr pub_id G l
  = let G' := add_node G l (attr l) in
    if has_edge G pub_id l then G'
    else {| nodes := nodes G'; edges := edges G ++ [(pub_id, l)] |}.
Proof.
  intros Hp. unfold add_entity. rewrite add_edge_present.
  - unfold has_edge. rewrite add_node_edges. reflexivity.
  - rewrite has_node_add_node, Hp. reflexivity.
  - apply has_node_add_node_same.
Qed.

Lemma add_entity_has_node (attr : str -> attrs) (pub_id : str) (G : graph) (l m : str) :
  has_node G pub_id = true ->
  has_node (add_entity attr pub_id G l) m = has_node G m || str_eqb m l.
Proof.
  intros Hp. rewrite add_entity_eq by assumption. cbv zeta.
  destruct (has_edge G pub_id l).
  - apply has_node_add_node.
  - unfold has_node at 1. simpl. fold (has_node (add_node G l (attr l)) m).
    apply has_node_add_node.
Qed.

(** ** The loop body in terms of the entities it adds *)

Section LoopBody.
Context {U : unicode_db}.

Lemma missions_empty : Adi.missions [] = [].
Proof. reflexivity. Qed.

Lemma fold_add_mission (pub_id : str) (ms : list str) (G : graph) :
  fold_left (Adi.add_mission pub_id) ms G
  = fold_left (add_item pub_id) (map (fun l => (Mission, 14%Z, l)) (map strip ms)) G.
Proof.
  revert G. induction ms as [|m ms IH]; intros G; simpl; [reflexivity|].
  now rewrite IH.
Qed.

Lemma fold_add_keyword (pub_id text : str) (kws : list (str * str)) (G : graph) :
  fold_left (Adi.add_keyword pub_id text) kws G
  = fold_left (add_item pub_id)
      (map (fun l => (Keyword, 10%Z, l))
           (map snd (filter (fun kw => contains (fst kw) text) kws))) G.
Proof.
  revert G. induction kws as [|[ks kl] kws IH]; intros G; simpl; [reflexivity|].
  rewrite IH. destruct (contains ks text); reflexivity.
Qed.

Lemma fold_add_organism (pub_id : str) (os : list str) (G : graph) :
  fold_left (Adi.add_organism pub_id) os G
  = fold_left (add_item pub_id)
      (map (fun l => (Organism, 12%Z, l)) (map Adi.org_label os)) G.
Proof.
  revert G. induction os as [|o os IH]; intros G; simpl; [reflexivity|].
  now rewrite IH.
Qed.

Lemma add_document_items (G : graph) (doc_id : str) (d : list (str * str)) :
  Adi.add_document G (doc_id, Dict d)
  = if accepted d
    then fold_left (add_item (pub_key doc_id)) (doc_items d)
                   (add_node G (pub_key doc_id) (pub_attrs d))
    else G.
Proof.
  unfold Adi.add_document, accepted, doc_items, pub_attrs, pub_key, mission_labels,
    keyword_hits.
  destruct ((List.length (dict_get_default d (u "Title") []) =? 0)%nat
            || (List.length (dict_get_default d (u "Title") []) <? 5)%nat);
    [reflexivity|].
  cbv zeta. simpl negb. cbv iota.
  rewrite !fold_left_app.
  rewrite <- fold_add_organism, <- fold_add_keyword.
  destruct (dict_get_default d (u "Introduction") []) eqn:Ei.
  - rewrite missions_empty. reflexivity.
  - rewrite <- fold_add_mission. reflexivity.
Qed.

Lemma add_document_rejected (G : graph) (doc_id : str) (d : list (str * str)) :
  accepted d = false -> Adi.add_document G (doc_id, Dict d) = G.
Proof. intros H. now rewrite add_document_items, H. Qed.

End LoopBody.

(** ** A document whose entities are all new *)

Section FreshEntities.

Lemma has_edge_snoc (ns : list (str * attrs)) (es : list (str * str))
    (e : str * str) (a b : str) :
  has_edge {| nodes := ns; edges := es ++ [e] |} a b
  = existsb (joins a b) es || joins a b e.
Proof. unfold has_edge. simpl. rewrite existsb_app. simpl. now rewrite orb_false_r. Qed.

Lemma fold_add_item_fresh (pub_id : str) (items : list (node_type * Z * str)) :
  forall G : graph,
  has_node G pub_id = true ->
  (forall it, In it items -> has_node G (item_label it) = false) ->
  (forall it, In it items -> has_edge G pub_id (item_label it) = false) ->
  NoDup (map item_label items) ->
  fold_left (add_item pub_id) items G
  = {| nodes := nodes G ++ map (fun it => (item_label it, item_attrs it)) items;
       edges := edges G ++ map (fun it => (pub_id, item_label it)) items |}.
Proof.
  induction items as [|it items IH]; intros G Hp Hn He Hd.
  - simpl. rewrite !app_nil_r. now destruct G.
  - simpl fold_left. inversion Hd as [|? ? Hnotin Hd']; subst.
    assert (Hit : has_node G (item_label it) = false) by (apply Hn; now left).
    assert (Heit : has_edge G pub_id (item_label it) = false) by (apply He; now left).
    unfold add_item at 2. rewrite add_entity_eq by assumption. cbv zeta.
    fold (item_label it). rewrite Heit.
    unfold add_node. rewrite Hit. simpl nodes.
    set (G' := {| nodes := nodes G ++ [(item_label it, _)];
                  edges := edges G ++ [(pub_id, item_label it)] |}).
    rewrite (IH G').
    + subst G'. simpl. rewrite <- !app_assoc. reflexivity.
    + unfold has_node, G'. simpl. rewrite map_app. unfold mem. rewrite existsb_app.
      fold (mem pub_id (map fst (nodes G))). fold (has_node G pub_id). now rewrite Hp.
    + intros it' Hin. unfold has_node, G'. simpl. rewrite map_app. unfold mem.
      rewrite existsb_app. fold (mem (item_label it') (map fst (nodes G))).
      fold (has_node G (item_label it')). rewrite (Hn it') by now right.
      simpl. rewrite orb_false_r. apply str_eqb_neq. intros E. apply Hnotin.
      rewrite <- E. now apply in_map.
    + intros it' Hin. unfold G'. rewrite has_edge_snoc.
      fold (has_edge G pub_id (item_label it')).
      rewrite (He it') by now right. simpl. unfold joins. simpl.
      assert (E2 : str_eqb (item_label it) (item_label it') = false).
      { apply str_eqb_neq. intros E. apply Hnotin. rewrite E. now apply in_map. }
      assert (E3 : str_eqb pub_id (item_label it') = false).
      { apply str_eqb_neq. intros E.
        specialize (Hn it' (or_intror Hin)). rewrite <- E in Hn. congruence. }
      rewrite E2, E3. now rewrite andb_false_r.
    + assumption.
Qed.

End FreshEntities.

(** ** The end-to-end scenario *)

Section EndToEnd.
Context {U : unicode_db}.

Lemma scenario_items :
  doc_items
    [ (u "Title", u "Effects of Microgravity on Mouse Bone in ISS Missions");
      (u "Abstract", u "microgravity bone");
      (u "Introduction", u "Aboard the ISS, mice were studied.");
      (u "Link", []) ]
  = [ (Mission, 14%Z, u "ISS"); (Keyword, 10%Z, u "Microgravity");
      (Keyword, 10%Z, u "Bone"); (Organism, 12%Z, u "Mice") ].
Proof. vm_compute. reflexivity. Qed.

(** C1.  The record of the end-to-end scenario, under any document id, gives
    a graph of exactly five nodes (the Publication node, the Mission node
    "ISS", the Keyword nodes "Microgravity" and "Bone", the Organism node
    "Mice") and exactly four edges, each from the Publication node to one of
    the four entity nodes. *)
Theorem end_to_end_scenario (doc_id : str) :
  let G := fst (Adi.load_graph_data [(doc_id, JObject scenario_record)]) in
  nodes G
  = [ (pub_key doc_id,
       Adi.node_attrs Publication 18
         (u "Effects of Microgravity on Mouse Bone in ISS Missions"));
      (u "ISS", Adi.node_attrs Mission 14 (u "ISS"));
      (u "Microgravity", Adi.node_attrs Keyword 10 (u "Microgravity"));
      (u "Bone", Adi.node_attrs Keyword 10 (u "Bone"));
      (u "Mice", Adi.node_attrs Organism 12 (u "Mice")) ]
  /\ edges G
     = [ (pub_key doc_id, u "ISS"); (pub_key doc_id, u "Microgravity");
         (pub_key doc_id, u "Bone"); (pub_key doc_id, u "Mice") ]
  /\ number_of_nodes G = 5 /\ number_of_edges G = 4.
Proof.
  cbv zeta.
  change (fst (Adi.load_graph_data [(doc_id, JObject scenario_record)]))
    with (fold_left Adi.add_document
            (Adi.clean_data [(doc_id, JObject scenario_record)]) empty).
  assert (Hc : Adi.clean_data [(doc_id, JObject scenario_record)]
               = [(doc_id,
                   Dict [ (u "Title", u "Effects of Microgravity on Mouse Bone in ISS Missions");
                          (u "Abstract", u "microgravity bone");
                          (u "Introduction", u "Aboard the ISS, mice were studied.");
                          (u "Link", []) ])])
    by (vm_compute; reflexivity).
  rewrite Hc. cbn [fold_left]. rewrite add_document_items.
  assert (Ha : accepted
                 [ (u "Title", u "Effects of Microgravity on Mouse Bone in ISS Missions");
                   (u "Abstract", u "microgravity bone");
                   (u "Introduction", u "Aboard the ISS, mice were studied.");
                   (u "Link", []) ] = true) by reflexivity.
  rewrite Ha, scenario_items.
  rewrite fold_add_item_fresh.
  - repeat split; reflexivity.
  - apply has_node_add_node_same.
  - intros it Hin. rewrite has_node_add_node.
    simpl in Hin. unfold pub_key.
    repeat (destruct Hin as [<-|Hin]; [reflexivity|]). contradiction.
  - intros it Hin. reflexivity.
  - simpl. repeat constructor; simpl; intuition discriminate.
Qed.

End EndToEnd.

(** ** Rejected records *)

Section Rejection.
Context {U : unicode_db}.

Lemma clean_data_app (a b : list (str * json_doc)) :
  Adi.clean_data (a ++ b) = Adi.clean_data a ++ Adi.clean_data b.
Proof. apply flat_map_app. Qed.

Lemma accepted_clean_fields (m : list (str * pyval)) :
  accepted (Adi.clean_fields m)
  = negb (List.length (Adi._clean_text (dict_get_default m (u "Title") (PyStr []))) <? 5)%nat.
Proof.
  unfold accepted.
  change (dict_get_default (Adi.clean_fields m) (u "Title") [])
    with (Adi._clean_text (dict_get_default m (u "Title") (PyStr []))).
  destruct (Adi._clean_text (dict_get_default m (u "Title") (PyStr []))) as [|c t];
    reflexivity.
Qed.

Lemma rejected_step (G : graph) (doc_id : str) (d : json_doc) :
  rejected d ->
  fold_left Adi.add_document (Adi.clean_data [(doc_id, d)]) G = G.
Proof.
  destruct d as [m|]; intros H.
  - change (Adi.clean_data [(doc_id, JObject m)])
      with [(doc_id, Dict (Adi.clean_fields m))].
    cbn [fold_left]. rewrite add_document_rejected; [reflexivity|].
    rewrite accepted_clean_fields.
    apply negb_false_iff. apply Nat.ltb_lt. exact H.
  - reflexivity.
Qed.

(** C3.  The assembler is a total function of the mapping, and a rejected
    record (not a dict, or cleaned Title shorter than five characters) leaves
    no trace: the graph is the one built without it.  In particular the
    record with Title "Hi" alone gives the empty graph, whatever its Abstract
    and Introduction mention. *)
Theorem rejected_record_skipped
    (before after : list (str * json_doc)) (doc_id : str) (d : json_doc)
    (Hrej : rejected d) :
  Adi.load_graph_data (before ++ (doc_id, d) :: after)
  = Adi.load_graph_data (before ++ after)
  /\ fst (Adi.load_graph_data [(doc_id, hi_record)]) = empty.
Proof.
  split.
  - unfold Adi.load_graph_data, Adi.build_graph. f_equal.
    change ((doc_id, d) :: after) with ([(doc_id, d)] ++ after).
    rewrite !clean_data_app, !fold_left_app. f_equal.
    now apply rejected_step.
  - unfold Adi.load_graph_data, Adi.build_graph. cbn [fst].
    apply rejected_step. vm_compute. lia.
Qed.

End Rejection.

Lemma rejected_record_skipped_witness :
  rejected (U := basic_latin) hi_record
  /\ Adi.load_graph_data (U := basic_latin)
       ([(u "a", JOther)] ++ (u "b", hi_record) :: [])
     = Adi.load_graph_data (U := basic_latin) ([(u "a", JOther)] ++ []).
Proof.
  assert (H : rejected (U := basic_latin) hi_record) by (vm_compute; lia).
  split; [exact H|].
  exact (proj1 (rejected_record_skipped (U := basic_latin)
                  [(u "a", JOther)] [] (u "b") hi_record H)).
Defined.

(** ** The two entry points build the same graph *)

Section TwoLoops.
Context {U : unicode_db}.

Lemma add_document_agree (G : graph) (item : str * doc) :
  Adi.add_document G item = Visualize.add_document G item.
Proof. reflexivity. Qed.

(** C10.  On every mapping of document ids to records with string fields the
    loop of src/adi.py and the loop of src/visualize.py build the same
    graph: the same nodes with the same type, color, size and label, and the
    same edges. *)
Theorem loops_build_same_graph (data : list (str * doc)) :
  Adi.build_graph data = Visualize.build_graph data
  /\ nodes (Adi.build_graph data) = nodes (Visualize.build_graph data)
  /\ edges (Adi.build_graph data) = edges (Visualize.build_graph data).
Proof.
  assert (E : Adi.build_graph data = Visualize.build_graph data).
  { unfold Adi.build_graph, Visualize.build_graph.
    generalize empty. induction data as [|item data IH]; intros G; simpl.
    - reflexivity.
    - rewrite add_document_agree. apply IH. }
  rewrite E. repeat split.
Qed.

End TwoLoops.

(** ** Invariants of the assembled graph *)

Section Invariants.
Context {U : unicode_db}.

Lemma add_node_NoDup (G : graph) (n : str) (a : attrs) :
  NoDup (map fst (nodes G)) -> NoDup (map fst (nodes (add_node G n a))).
Proof.
  intros H. rewrite add_node_keys. destruct (has_node G n) eqn:E; [assumption|].
  apply NoDup_app.
  - assumption.
  - repeat constructor. simpl. tauto.
  - intros x Hx [<-|[]]. apply has_node_In in Hx. congruence.
Qed.

Lemma add_node_In (G : graph) (n : str) (t : node_type) (z : Z) (l : str)
    (k : str) (b : attrs) :
  In (k, b) (nodes (add_node G n (Adi.node_attrs t z l))) ->
  In (k, b) (nodes G) \/ (k = n /\ b = Adi.node_attrs t z l).
Proof.
  unfold add_node. destruct (has_node G n); simpl.
  - intros H. apply update_node_In in H as [H|(-> & old & _ & ->)]; [tauto|].
    right. split; reflexivity.
  - intros H. apply in_app_or in H as [H|[H|[]]]; [tauto|].
    inversion H; subst. right. split; reflexivity.
Qed.

Lemma add_item_nodes (pub_id : str) (G : graph) (it : node_type * Z * str) :
  has_node G pub_id = true ->
  nodes (add_item pub_id G it) = nodes (add_node G (item_label it) (item_attrs it)).
Proof.
  intros Hp. unfold add_item. rewrite add_entity_eq by assumption. cbv zeta.
  destruct (has_edge G pub_id (snd it)); reflexivity.
Qed.

Lemma add_item_has_node (pub_id : str) (G : graph) (it : node_type * Z * str) (m : str) :
  has_node G pub_id = true ->
  has_node (add_item pub_id G it) m = has_node G m || str_eqb m (item_label it).
Proof. intros Hp. unfold add_item. now apply add_entity_has_node. Qed.

Lemma add_item_edges (pub_id : str) (G : graph) (it : node_type * Z * str) :
  has_node G pub_id = true ->
  edges (add_item pub_id G it)
  = if has_edge G pub_id (item_label it) then edges G
    else edges G ++ [(pub_id, item_label it)].
Proof.
  intros Hp. unfold add_item. rewrite add_entity_eq by assumption. cbv zeta.
  unfold item_label. destruct (has_edge G pub_id (snd it)).
  - apply add_node_edges.
  - reflexivity.
Qed.

Lemma has_edge_self (a b : str) (es : list (str * str)) :
  existsb (joins a b) (es ++ [(a, b)]) = true.
Proof.
  rewrite existsb_app. simpl. unfold joins at 2. simpl.
  rewrite !str_eqb_refl. simpl. apply orb_true_r.
Qed.

Lemma add_item_has_edge (pub_id : str) (G : graph) (it : node_type * Z * str) :
  has_node G pub_id = true ->
  has_edge (add_item pub_id G it) pub_id (item_label it) = true.
Proof.
  intros Hp. unfold has_edge at 1. rewrite add_item_edges by assumption.
  destruct (has_edge G pub_id (item_label it)) eqn:E.
  - exact E.
  - apply has_edge_self.
Qed.

Lemma add_item_edge_mono (pub_id : str) (G : graph) (it : node_type * Z * str)
    (a b : str) :
  has_node G pub_id = true ->
  has_edge G a b = true -> has_edge (add_item pub_id G it) a b = true.
Proof.
  intros Hp H. unfold has_edge at 1. rewrite add_item_edges by assumption.
  destruct (has_edge G pub_id (item_label it)); [exact H|].
  rewrite existsb_app. unfold has_edge in H. rewrite H. reflexivity.
Qed.

Lemma fold_add_item_has_node (pub_id : str) (items : list (node_type * Z * str))
    (G : graph) (m : str) :
  has_node G pub_id = true ->
  has_node (fold_left (add_item pub_id) items G) m
  = has_node G m || mem m (map item_label items).
Proof.
  revert G. induction items as [|it items IH]; intros G Hp; cbn [fold_left map].
  - unfold mem. simpl. now rewrite orb_false_r.
  - rewrite IH.
    + rewrite add_item_has_node by assumption. unfold mem. simpl.
      now rewrite orb_assoc.
    + rewrite add_item_has_node by assumption. now rewrite Hp.
Qed.

(** What a run of extraction steps preserves and establishes. *)
Lemma fold_add_item_inv (pub_id : str) (items : list (node_type * Z * str)) :
  forall G : graph,
  has_node G pub_id = true ->
  NoDup (map fst (nodes G)) -> entity_keyed G ->
  let G' := fold_left (add_item pub_id) items G in
  has_node G' pub_id = true
  /\ NoDup (map fst (nodes G')) /\ entity_keyed G'
  /\ (forall m, has_node G m = true -> has_node G' m = true)
  /\ (forall a b, has_edge G a b = true -> has_edge G' a b = true)
  /\ (forall it, In it items -> has_edge G' pub_id (item_label it) = true).
Proof.
  induction items as [|it items IH]; intros G Hp Hd Hk; cbn [fold_left]; cbv zeta.
  - repeat split; auto; intros it [].
  - assert (Hp' : has_node (add_item pub_id G it) pub_id = true)
      by (rewrite add_item_has_node, Hp by assumption; reflexivity).
    assert (Hd' : NoDup (map fst (nodes (add_item pub_id G it))))
      by (rewrite add_item_nodes by assumption; now apply add_node_NoDup).
    assert (Hk' : entity_keyed (add_item pub_id G it)).
    { intros k a Hin Ht. rewrite add_item_nodes in Hin by assumption.
      apply add_node_In in Hin as [Hin|[-> ->]]; [now apply Hk|reflexivity]. }
    destruct (IH _ Hp' Hd' Hk') as (H1 & H2 & H3 & H4 & H5 & H6).
    repeat split; auto.
    + intros m Hm. apply H4. rewrite add_item_has_node, Hm by assumption. reflexivity.
    + intros a b Hab. apply H5. now apply add_item_edge_mono.
    + intros it' [<-|Hin]; [|now apply H6].
      apply H5. now apply add_item_has_edge.
Qed.

Lemma add_pub_inv (G : graph) (doc_id : str) (d : list (str * str)) :
  NoDup (map fst (nodes G)) -> entity_keyed G ->
  let G' := add_node G (pub_key doc_id) (pub_attrs d) in
  has_node G' (pub_key doc_id) = true
  /\ NoDup (map fst (nodes G')) /\ entity_keyed G'
  /\ (forall m, has_node G m = true -> has_node G' m = true)
  /\ (forall a b, has_edge G a b = true -> has_edge G' a b = true).
Proof.
  intros Hd Hk. cbv zeta. repeat split.
  - apply has_node_add_node_same.
  - now apply add_node_NoDup.
  - intros k a Hin Ht. apply add_node_In in Hin as [Hin|[-> ->]]; [now apply Hk|].
    now contradiction Ht.
  - intros m Hm. now rewrite has_node_add_node, Hm.
  - intros a b. unfold has_edge. now rewrite add_node_edges.
Qed.

Lemma add_document_inv (G : graph) (item : str * doc) :
  NoDup (map fst (nodes G)) -> entity_keyed G ->
  let G' := Adi.add_document G item in
  NoDup (map fst (nodes G')) /\ entity_keyed G'
  /\ (forall m, has_node G m = true -> has_node G' m = true)
  /\ (forall a b, has_edge G a b = true -> has_edge G' a b = true)
  /\ (forall doc_id d, item = (doc_id, Dict d) -> accepted d = true ->
      has_node G' (pub_key doc_id) = true
      /\ forall it, In it (doc_items d) ->
           has_node G' (item_label it) = true
           /\ has_edge G' (pub_key doc_id) (item_label it) = true).
Proof.
  intros Hd Hk. destruct item as [doc_id [d|]]; cbv zeta.
  - rewrite add_document_items. destruct (accepted d) eqn:Ea.
    + destruct (@add_pub_inv G doc_id d Hd Hk) as (P1 & P2 & P3 & P4 & P5).
      destruct (@fold_add_item_inv (pub_key doc_id) (doc_items d) _ P1 P2 P3) as (H1 & H2 & H3 & H4 & H5 & H6).
      split; [exact H2|]. split; [exact H3|].
      split; [intros m Hm; apply H4; now apply P4|].
      split; [intros a b Hab; apply H5; now apply P5|].
      intros id' d' E _. inversion E; subst id' d'.
      split; [exact H1|]. intros it Hin. split; [|now apply H6].
      rewrite fold_add_item_has_node by exact P1.
      apply orb_true_iff. right. apply mem_In. now apply in_map.
    + split; [exact Hd|]. split; [exact Hk|].
      split; [auto|]. split; [auto|]. intros id' d' E Ha.
      inversion E; subst. congruence.
  - split; [exact Hd|]. split; [exact Hk|].
    split; [auto|]. split; [auto|]. intros id' d' E. discriminate.
Qed.

(** Where the nodes of the assembled graph come from. *)
Lemma fold_add_item_from (pub_id : str) (items : list (node_type * Z * str)) :
  forall (G : graph) (k : str) (a : attrs),
  has_node G pub_id = true ->
  In (k, a) (nodes (fold_left (add_item pub_id) items G)) ->
  In (k, a) (nodes G)
  \/ exists it, In it items /\ k = item_label it /\ a = item_attrs it.
Proof.
  induction items as [|it items IH]; intros G k a Hp H; cbn [fold_left] in H.
  - now left.
  - apply IH in H.
    + destruct H as [H|(it' & Hin & Hk & Ha)].
      * rewrite add_item_nodes in H by assumption.
        apply add_node_In in H as [H|[-> ->]]; [now left|].
        right. exists it. split; [now left|]. split; reflexivity.
      * right. exists it'. split; [now right|]. split; assumption.
    + rewrite add_item_has_node, Hp by assumption. reflexivity.
Qed.

Lemma add_document_from (G : graph) (item : str * doc) (k : str) (a : attrs) :
  In (k, a) (nodes (Adi.add_document G item)) ->
  In (k, a) (nodes G)
  \/ exists doc_id d,
       item = (doc_id, Dict d) /\ accepted d = true
       /\ ((k = pub_key doc_id /\ a = pub_attrs d)
           \/ exists it, In it (doc_items d) /\ k = item_label it /\ a = item_attrs it).
Proof.
  destruct item as [doc_id [d|]]; [|now left].
  rewrite add_document_items. destruct (accepted d) eqn:Ea; [|now left].
  intros H. apply fold_add_item_from in H; [|apply has_node_add_node_same].
  destruct H as [H|H].
  - apply add_node_In in H as [H|[-> ->]]; [now left|].
    right. exists doc_id, d. split; [reflexivity|]. split; [assumption|].
    left. split; reflexivity.
  - right. exists doc_id, d. split; [reflexivity|]. split; [assumption|].
    now right.
Qed.

Lemma build_from (data : list (str * doc)) :
  forall (G : graph) (k : str) (a : attrs),
  In (k, a) (nodes (fold_left Adi.add_document data G)) ->
  In (k, a) (nodes G)
  \/ exists doc_id d,
       In (doc_id, Dict d) data /\ accepted d = true
       /\ ((k = pub_key doc_id /\ a = pub_attrs d)
           \/ exists it, In it (doc_items d) /\ k = item_label it /\ a = item_attrs it).
Proof.
  induction data as [|item data IH]; intros G k a H; cbn [fold_left] in H.
  - now left.
  - apply IH in H as [H|(doc_id & d & Hin & Ha & Hk)].
    + apply add_document_from in H as [H|(doc_id & d & -> & Ha & Hk)]; [now left|].
      right. exists doc_id, d. split; [now left|]. split; assumption.
    + right. exists doc_id, d. split; [now right|]. split; assumption.
Qed.

Lemma build_inv (data : list (str * doc)) :
  forall G : graph,
  NoDup (map fst (nodes G)) -> entity_keyed G ->
  let G' := fold_left Adi.add_document data G in
  NoDup (map fst (nodes G')) /\ entity_keyed G'
  /\ (forall m, has_node G m = true -> has_node G' m = true)
  /\ (forall a b, has_edge G a b = true -> has_edge G' a b = true)
  /\ (forall doc_id d, In (doc_id, Dict d) data -> accepted d = true ->
      has_node G' (pub_key doc_id) = true
      /\ forall it, In it (doc_items d) ->
           has_node G' (item_label it) = true
           /\ has_edge G' (pub_key doc_id) (item_label it) = true).
Proof.
  induction data as [|item data IH]; intros G Hd Hk; cbn [fold_left]; cbv zeta.
  - repeat split; auto; intros ? ? [].
  - destruct (@add_document_inv G item Hd Hk) as (A1 & A2 & A3 & A4 & A5).
    destruct (IH _ A1 A2) as (B1 & B2 & B3 & B4 & B5).
    split; [exact B1|]. split; [exact B2|].
    split; [intros m Hm; apply B3; now apply A3|].
    split; [intros a b Hab; apply B4; now apply A4|].
    intros doc_id d [E|Hin] Ha.
    + destruct (A5 doc_id d E Ha) as [C1 C2].
      split; [now apply B3|]. intros it Hit. destruct (C2 it Hit) as [D1 D2].
      split; [now apply B3|now apply B4].
    + now apply B5.
Qed.

Lemma mission_item (d : list (str * str)) (m : str) :
  In m (Adi.missions (intro_of d)) ->
  In (strip m) (map item_label (doc_items d)).
Proof.
  intros H. unfold doc_items. rewrite map_app. apply in_or_app. left.
  rewrite map_map. cbn [item_label snd]. rewrite map_id.
  unfold mission_labels. now apply in_map.
Qed.

(** C2.  In every assembled graph the node keys are pairwise distinct and
    every node that is not a Publication node is labelled with its key, so an
    entity has one node however many documents mention it: two accepted
    documents that both yield the label [l] are both joined to the one node
    keyed [l]; for missions, two accepted documents whose Introductions both
    contain the match [m] are both joined to the one node keyed [m] (trimmed).
    In particular two documents that mention "ISS" in their Introduction give
    one Mission node, keyed "ISS", and two edges, one from each Publication
    node. *)
Theorem entity_nodes_shared (data : list (str * doc)) :
  let G := Adi.build_graph data in
  NoDup (map fst (nodes G))
  /\ entity_keyed G
  /\ (forall id1 d1 id2 d2 l,
        In (id1, Dict d1) data -> In (id2, Dict d2) data ->
        accepted d1 = true -> accepted d2 = true ->
        In l (map item_label (doc_items d1)) ->
        In l (map item_label (doc_items d2)) ->
        count_occ (list_eq_dec N.eq_dec) (map fst (nodes G)) l = 1%nat
        /\ has_edge G (pub_key id1) l = true
        /\ has_edge G (pub_key id2) l = true)
  /\ (forall id1 d1 id2 d2 m,
        In (id1, Dict d1) data -> In (id2, Dict d2) data ->
        accepted d1 = true -> accepted d2 = true ->
        In m (Adi.missions (intro_of d1)) ->
        In m (Adi.missions (intro_of d2)) ->
        count_occ (list_eq_dec N.eq_dec) (map fst (nodes G)) (strip m) = 1%nat
        /\ has_edge G (pub_key id1) (strip m) = true
        /\ has_edge G (pub_key id2) (strip m) = true)
  /\ (let G2 := fst (Adi.load_graph_data two_iss_documents) in
      nodes_of_type G2 Mission = [u "ISS"]
      /\ number_of_nodes G2 = 3%nat /\ number_of_edges G2 = 2%nat
      /\ has_edge G2 (pub_key (u "doc1")) (u "ISS") = true
      /\ has_edge G2 (pub_key (u "doc2")) (u "ISS") = true).
Proof.
  cbv zeta. unfold Adi.build_graph.
  assert (H0 : NoDup (map fst (nodes empty))) by constructor.
  assert (K0 : entity_keyed empty) by (intros k a []).
  destruct (@build_inv data empty H0 K0) as (B1 & B2 & _ & _ & B5).
  assert (Hshare : forall id1 d1 id2 d2 l,
            In (id1, Dict d1) data -> In (id2, Dict d2) data ->
            accepted d1 = true -> accepted d2 = true ->
            In l (map item_label (doc_items d1)) ->
            In l (map item_label (doc_items d2)) ->
            count_occ (list_eq_dec N.eq_dec)
              (map fst (nodes (fold_left Adi.add_document data empty))) l = 1%nat
            /\ has_edge (fold_left Adi.add_document data empty) (pub_key id1) l = true
            /\ has_edge (fold_left Adi.add_document data empty) (pub_key id2) l = true).
  { intros id1 d1 id2 d2 l I1 I2 A1 A2 L1 L2.
    apply in_map_iff in L1 as (it1 & <- & L1).
    apply in_map_iff in L2 as (it2 & E2 & L2).
    destruct (B5 id1 d1 I1 A1) as [_ C1]. destruct (C1 it1 L1) as [N1 E1].
    destruct (B5 id2 d2 I2 A2) as [_ C2]. destruct (C2 it2 L2) as [_ E3].
    rewrite E2 in E3.
    split; [|split; assumption].
    apply NoDup_count_occ'; [exact B1|]. now apply has_node_In. }
  split; [exact B1|]. split; [exact B2|]. split; [exact Hshare|]. split.
  - intros id1 d1 id2 d2 m I1 I2 A1 A2 M1 M2.
    apply (Hshare id1 d1 id2 d2); auto using mission_item.
  - vm_compute. repeat split.
Qed.

End Invariants.

Lemma entity_nodes_shared_witness :
  let data := Adi.clean_data (U := basic_latin) two_iss_documents in
  let G := Adi.build_graph (U := basic_latin) data in
  count_occ (list_eq_dec N.eq_dec) (map fst (nodes G)) (u "ISS") = 1%nat
  /\ has_edge G (pub_key (u "doc1")) (u "ISS") = true
  /\ has_edge G (pub_key (u "doc2")) (u "ISS") = true.
Proof.
  cbv zeta.
  destruct (entity_nodes_shared (U := basic_latin)
              (Adi.clean_data (U := basic_latin) two_iss_documents))
    as (_ & _ & H & _).
  apply (H (u "doc1")
           [ (u "Title", u "First paper"); (u "Abstract", []);
             (u "Introduction", u "Flown on the ISS in 2012."); (u "Link", []) ]
           (u "doc2")
           [ (u "Title", u "Second paper"); (u "Abstract", []);
             (u "Introduction", u "Samples returned from the ISS."); (u "Link", []) ]).
  - left. vm_compute. reflexivity.
  - right. left. vm_compute. reflexivity.
  - vm_compute. reflexivity.
  - vm_compute. reflexivity.
  - vm_compute. left. reflexivity.
  - vm_compute. left. reflexivity.
Defined.

(** ** The displayed graph *)

Section Selection.

Lemma NoDup_map_inj {A B} (g : A -> B) (l : list A) (p q : A) :
  NoDup (map g l) -> In p l -> In q l -> g p = g q -> p = q.
Proof.
  induction l as [|x l IH]; cbn [map In]; intros Hd Hp Hq E; [contradiction|].
  inversion Hd as [|? ? Hx Hd']; subst.
  destruct Hp as [->|Hp], Hq as [->|Hq].
  - reflexivity.
  - exfalso. apply Hx. rewrite E. now apply in_map.
  - exfalso. apply Hx. rewrite <- E. now apply in_map.
  - now apply IH.
Qed.

Lemma NoDup_map_filter {A B} (g : A -> B) (f : A -> bool) (l : list A) :
  NoDup (map g l) -> NoDup (map g (filter f l)).
Proof.
  induction l as [|x l IH]; cbn [map filter]; intros Hd; [constructor|].
  inversion Hd as [|? ? Hx Hd']; subst.
  destruct (f x); cbn [map]; [|now apply IH].
  constructor; [|now apply IH].
  intros Hin. apply Hx. apply in_map_iff in Hin as (q & E & Hq).
  apply filter_In in Hq as [Hq _]. rewrite <- E. now apply in_map.
Qed.

(** Keeping the nodes whose key is the key of a node that passes [f] keeps
    the nodes that pass [f], when keys are distinct. *)
Lemma filter_by_kept_keys {A} (f : str * A -> bool) (l : list (str * A)) :
  NoDup (map fst l) ->
  filter (fun p => mem (fst p) (map fst (filter f l))) l = filter f l.
Proof.
  intros Hd. apply filter_ext_in. intros p Hp.
  destruct (f p) eqn:E.
  - apply mem_In. apply in_map. apply filter_In. now split.
  - apply mem_false. intros Hin. apply in_map_iff in Hin as (q & Eq & Hq).
    apply filter_In in Hq as [Hq Hf].
    assert (q = p) by (eapply (NoDup_map_inj fst); eauto). subst q. congruence.
Qed.

Lemma firstn_keys_filter {A} (l : list (str * A)) :
  NoDup (map fst l) ->
  forall k, map fst (filter (fun p => mem (fst p) (firstn k (map fst l))) l)
            = firstn k (map fst l).
Proof.
  induction l as [|x l IH]; intros Hd k.
  - now rewrite firstn_nil.
  - inversion Hd as [|? ? Hx Hd']; subst. destruct k as [|k].
    + simpl firstn. change (filter (fun p => mem (fst p) []) (x :: l))
        with (filter (fun _ : str * A => false) (x :: l)).
      assert (E : forall m : list (str * A), filter (fun _ => false) m = [])
        by (induction m; simpl; auto).
      now rewrite E.
    + cbn [map firstn filter]. unfold mem at 1. cbn [existsb].
      rewrite str_eqb_refl. cbn [orb map]. f_equal.
      etransitivity; [|exact (IH Hd' k)]. f_equal.
      apply filter_ext_in. intros q Hq.
      unfold mem. cbn [existsb].
      assert (E : str_eqb (fst q) (fst x) = false).
      { apply str_eqb_neq. intros E. apply Hx. rewrite <- E. now apply in_map. }
      now rewrite E.
Qed.

Lemma filter_twice {A} (f g : A -> bool) (l : list A) :
  filter f (filter g l) = filter (fun x => g x && f x) l.
Proof.
  induction l as [|x l IH]; simpl; [reflexivity|].
  destruct (g x); simpl; [destruct (f x)|]; now rewrite IH.
Qed.

Lemma firstn_min {A} (k : nat) (l : list A) :
  firstn (Nat.min k (List.length l)) l = firstn k l.
Proof.
  destruct (Nat.le_ge_cases k (List.length l)) as [H|H].
  - now rewrite Nat.min_l.
  - rewrite Nat.min_r by assumption. now rewrite firstn_all, firstn_all2.
Qed.

Lemma slice_to_nonneg {A} (l : list A) (k : Z) :
  (0 <= k)%Z -> slice_to l k = firstn (Z.to_nat k) l.
Proof.
  intros H. unfold slice_to. destruct (k <? 0)%Z eqn:E; [|reflexivity].
  apply Z.ltb_lt in E. lia.
Qed.

Lemma node_type_eqb_eq (a b : node_type) : node_type_eqb a b = true <-> a = b.
Proof. destruct a, b; simpl; split; congruence. Qed.

Lemma has_type_eq (t : node_type) (d : attrs) :
  has_type t d = true <-> a_type d = Some t.
Proof.
  unfold has_type. destruct (a_type d) as [t'|]; [|split; congruence].
  rewrite node_type_eqb_eq. split; congruence.
Qed.

Variable full_G : graph.
Variable selected_types : list node_type.
Variable max_pubs : Z.

Let P := Adi.sub_G full_G.
Let V := Adi.final_G full_G selected_types max_pubs.
Let shown := Adi.pubs_to_show full_G selected_types max_pubs.
Let keep := Adi.keep_node full_G selected_types max_pubs.

Lemma pub_selected (d : attrs) :
  has_type Publication d = true ->
  Adi.type_selected selected_types d
  = existsb (node_type_eqb Publication) selected_types.
Proof.
  intros H. apply has_type_eq in H. unfold Adi.type_selected. now rewrite H.
Qed.

Lemma keep_entity (n : str) (d : attrs) :
  has_type Publication d = false ->
  keep (n, d) = Adi.type_selected selected_types d.
Proof.
  intros H. unfold keep, Adi.keep_node. rewrite H.
  now destruct (Adi.type_selected selected_types d).
Qed.

Lemma keep_pub (n : str) (d : attrs) :
  has_type Publication d = true ->
  keep (n, d)
  = existsb (node_type_eqb Publication) selected_types && mem n shown.
Proof.
  intros H. unfold keep, Adi.keep_node. rewrite H, (pub_selected _ H).
  now destruct (existsb (node_type_eqb Publication) selected_types).
Qed.

Lemma sub_G_NoDup :
  NoDup (map fst (nodes full_G)) -> NoDup (map fst (nodes P)).
Proof. intros H. unfold P, Adi.sub_G, subgraph. simpl. now apply NoDup_map_filter. Qed.

Lemma final_G_nodes :
  NoDup (map fst (nodes full_G)) -> nodes V = filter keep (nodes P).
Proof.
  intros H. unfold V, Adi.final_G, subgraph, Adi.final_nodes_to_keep. cbn [nodes].
  apply filter_by_kept_keys. now apply sub_G_NoDup.
Qed.

(** The projection keeps every Publication node, in order. *)
Lemma sub_G_pubs :
  nodes_of_type P Publication = nodes_of_type full_G Publication.
Proof.
  unfold P, Adi.sub_G, subgraph, nodes_of_type. cbn [nodes]. f_equal.
  rewrite filter_twice. apply filter_ext_in. intros [n d] Hin. cbn [fst snd].
  destruct (has_type Publication d) eqn:E; [|apply andb_false_r].
  rewrite andb_true_r. apply mem_In. unfold Adi.nodes_to_consider. apply in_or_app. left.
  unfold Adi.pub_nodes_all, nodes_of_type.
  change n with (fst (n, d)). apply in_map. apply filter_In. now split.
Qed.

Lemma final_G_pubs :
  NoDup (map fst (nodes full_G)) ->
  nodes_of_type V Publication
  = if existsb (node_type_eqb Publication) selected_types
    then map fst (filter (fun p => mem (fst p) shown)
                         (filter (fun p => has_type Publication (snd p)) (nodes P)))
    else [].
Proof.
  intros Hd. unfold nodes_of_type at 1. rewrite final_G_nodes by assumption.
  rewrite filter_twice.
  destruct (existsb (node_type_eqb Publication) selected_types) eqn:Es.
  - f_equal. rewrite filter_twice. apply filter_ext_in. intros [n d] _. cbn [fst snd].
    destruct (has_type Publication d) eqn:E.
    + rewrite keep_pub, Es by assumption. cbn [andb]. apply andb_true_r.
    + apply andb_false_r.
  - assert (E : forall l : list (str * attrs),
               filter (fun x => keep x && has_type Publication (snd x)) l = []).
    { induction l as [|[n d] l IH]; [reflexivity|]. cbn [filter fst snd].
      destruct (has_type Publication d) eqn:E.
      - rewrite keep_pub, Es by assumption. exact IH.
      - rewrite andb_false_r. exact IH. }
    now rewrite E.
Qed.

Lemma view_general
    (Hkeys : NoDup (map fst (nodes full_G))) (Hcap : (0 <= max_pubs)%Z) :
  view_spec full_G selected_types max_pubs.
Proof.
  unfold view_spec. split; [apply sub_G_pubs|]. fold P V. repeat split.
  - intros Hs. rewrite final_G_pubs, Hs by assumption. rewrite firstn_min.
    unfold shown, Adi.pubs_to_show. rewrite Hs.
    rewrite slice_to_nonneg by assumption.
    unfold Adi.pubs_in_sub, nodes_of_type. fold P.
    apply firstn_keys_filter. apply NoDup_map_filter. now apply sub_G_NoDup.
  - rewrite final_G_nodes by assumption. intros Hin.
    apply filter_In in Hin as [_ Hk]. now rewrite keep_entity in Hk.
  - intros Hs. rewrite final_G_nodes by assumption. apply filter_In.
    split; [assumption|]. now rewrite keep_entity.
  - rewrite final_G_nodes in H by assumption. now apply filter_In in H as [H _].
  - rewrite final_G_nodes in H by assumption. apply filter_In in H as [_ H].
    unfold keep, Adi.keep_node in H.
    destruct (Adi.type_selected selected_types d); [reflexivity|discriminate].
  - intros Hs. now rewrite final_G_pubs, Hs.
Qed.

Lemma neighbors_In (G : graph) (n : str) (e : str * str) :
  In e (edges G) ->
  (fst e = n -> In (snd e) (neighbors G n))
  /\ (snd e = n -> In (fst e) (neighbors G n)).
Proof.
  intros He. unfold neighbors. split; intros E; apply in_flat_map; exists e;
    (split; [assumption|]).
  - rewrite E, str_eqb_refl. now left.
  - destruct (str_eqb (fst e) n) eqn:E1.
    + apply str_eqb_eq in E1. rewrite E1, <- E. now left.
    + rewrite E, str_eqb_refl. now left.
Qed.

Lemma neighbors_nil (G : graph) (n : str) :
  (forall e, In e (edges G) -> fst e <> n /\ snd e <> n) -> neighbors G n = [].
Proof.
  unfold neighbors. induction (edges G) as [|e es IH]; intros H; [reflexivity|].
  cbn [flat_map]. destruct (H e (or_introl eq_refl)) as [H1 H2].
  apply str_eqb_neq in H1, H2. rewrite H1, H2. cbn [app].
  apply IH. intros e' He'. apply H. now right.
Qed.

Lemma orphan_entity_general (n : str) (d : attrs)
    (Hin : In (n, d) (nodes (Adi.sub_G full_G)))
    (Hentity : has_type Publication d = false)
    (Hsel : Adi.type_selected selected_types d = true) :
  In (n, d) (nodes (Adi.final_G full_G selected_types max_pubs))
  /\ ((forall m d', In m (neighbors full_G n) -> In (m, d') (nodes full_G) ->
         has_type Publication d' = true) ->
      (forall m, In m (neighbors full_G n) ->
         ~ In m (Adi.pubs_to_show full_G selected_types max_pubs)) ->
      degree (Adi.final_G full_G selected_types max_pubs) n = 0%nat).
Proof.
  fold P V shown. split.
  - unfold V, Adi.final_G, subgraph. cbn [nodes]. apply filter_In.
    split; [assumption|]. cbn [fst]. apply mem_In.
    unfold Adi.final_nodes_to_keep. change n with (fst (n, d)). apply in_map.
    apply filter_In. split; [assumption|].
    fold keep. now rewrite keep_entity.
  - intros Hpub Hcut.
    assert (Hkept : forall m, In m (neighbors full_G n) ->
              ~ In m (Adi.final_nodes_to_keep full_G selected_types max_pubs)).
    { intros m Hm Hk. unfold Adi.final_nodes_to_keep in Hk.
      apply in_map_iff in Hk as ([m' d'] & E & Hk). cbn [fst] in E. subst m'.
      apply filter_In in Hk as [Hk1 Hk2].
      assert (Hfull : In (m, d') (nodes full_G)).
      { unfold Adi.sub_G, subgraph in Hk1. cbn [nodes] in Hk1.
        now apply filter_In in Hk1 as [Hk1 _]. }
      specialize (Hpub m d' Hm Hfull). fold keep in Hk2.
      rewrite keep_pub in Hk2 by assumption.
      apply andb_true_iff in Hk2 as [_ Hk2]. apply mem_In in Hk2.
      now apply (Hcut m Hm). }
    assert (Hnil : neighbors V n = []).
    { apply neighbors_nil. intros e He.
      unfold V, Adi.final_G, subgraph in He. cbn [edges] in He.
      apply filter_In in He as [He Hboth].
      apply andb_true_iff in Hboth as [Hf Hs]. apply mem_In in Hf, Hs.
      unfold Adi.sub_G, subgraph in He. cbn [edges] in He.
      apply filter_In in He as [He _].
      destruct (neighbors_In full_G n e He) as [N1 N2].
      split; intros E.
      - apply (Hkept (snd e)); auto.
      - apply (Hkept (fst e)); auto. }
    unfold degree. now rewrite Hnil.
Qed.

End Selection.

(** ** The search finds matches of the pattern *)

Section Search.
Context {U : unicode_db}.
Variable ic : bool.

Lemma star_m_sound {R} (i : item) (cap : option str) (rest : str) :
  forall (pre : str) (k : str -> str -> option R) (a : R),
  star_m ic i pre rest k = Some a ->
  exists pre' rest',
    matches ic (Star i) pre rest cap pre' rest' cap /\ k pre' rest' = Some a.
Proof.
  induction rest as [|x rest IH]; intros pre k a H; cbn [star_m] in H.
  - exists pre, []. split; [constructor|assumption].
  - destruct (item_match ic i x) eqn:Ex.
    + destruct (star_m ic i (x :: pre) rest k) as [a'|] eqn:Es.
      * inversion H; subst a'. destruct (IH _ _ _ Es) as (pre' & rest' & M & K).
        exists pre', rest'. split; [|assumption].
        eapply m_star_step; eassumption.
      * exists pre, (x :: rest). split; [constructor|assumption].
    + exists pre, (x :: rest). split; [constructor|assumption].
Qed.

Lemma rmatch_sound {R} (r : regex) :
  forall (pre rest : str) (cap : option str)
         (k : str -> str -> option str -> option R) (a : R),
  rmatch ic r pre rest cap k = Some a ->
  exists pre' rest' cap',
    matches ic r pre rest cap pre' rest' cap' /\ k pre' rest' cap' = Some a.
Proof.
  induction r as [|i|r1 IH1 r2 IH2|r1 IH1 r2 IH2|i|r IH| |];
    intros pre rest cap k a H; cbn [rmatch] in H.
  - exists pre, rest, cap. split; [constructor|assumption].
  - destruct rest as [|x rest]; [discriminate|].
    destruct (item_match ic i x) eqn:Ex; [|discriminate].
    exists (x :: pre), rest, cap. split; [now constructor|assumption].
  - apply IH1 in H as (pre1 & rest1 & cap1 & M1 & H).
    apply IH2 in H as (pre2 & rest2 & cap2 & M2 & H).
    exists pre2, rest2, cap2. split; [eapply m_seq; eauto|assumption].
  - destruct (rmatch ic r1 pre rest cap k) as [a'|] eqn:E1.
    + inversion H; subst a'. apply IH1 in E1 as (pre' & rest' & cap' & M & K).
      exists pre', rest', cap'. split; [eapply m_alt_l; eassumption|assumption].
    + apply IH2 in H as (pre' & rest' & cap' & M & K).
      exists pre', rest', cap'. split; [eapply m_alt_r; eassumption|assumption].
  - apply (star_m_sound i cap) in H as (pre' & rest' & M & K).
    exists pre', rest', cap. split; assumption.
  - apply IH in H as (pre' & rest' & cap' & M & K).
    exists pre', rest', (Some (firstn (List.length rest - List.length rest') rest)).
    split; [eapply m_grp; eassumption|assumption].
  - destruct pre; [|discriminate].
    exists [], rest, cap. split; [constructor|assumption].
  - destruct (xorb (word_at pre) (word_at rest)) eqn:Ex; [|discriminate].
    exists pre, rest, cap. split; [now constructor|assumption].
Qed.

(** A match consumes a word [w] from the front of the text ahead. *)
Lemma matches_consumes (r : regex) (pre rest : str) (cap : option str)
    (pre' rest' : str) (cap' : option str) :
  matches ic r pre rest cap pre' rest' cap' ->
  exists w, rest = w ++ rest' /\ pre' = rev w ++ pre.
Proof.
  induction 1.
  - now exists [].
  - now exists [x].
  - destruct IHmatches1 as (w1 & -> & ->). destruct IHmatches2 as (w2 & -> & ->).
    exists (w1 ++ w2). rewrite rev_app_distr, <- !app_assoc. split; reflexivity.
  - assumption.
  - assumption.
  - now exists [].
  - destruct IHmatches as (w & -> & ->). exists (x :: w). cbn [rev app].
    rewrite <- app_assoc. split; reflexivity.
  - assumption.
  - now exists [].
  - now exists [].
Qed.

Lemma consumed_word (w rest' : str) :
  firstn (List.length (w ++ rest') - List.length rest') (w ++ rest') = w.
Proof.
  rewrite length_app, Nat.add_sub. rewrite firstn_app, Nat.sub_diag, firstn_all.
  cbn [firstn]. apply app_nil_r.
Qed.

(** The patterns of the two extractors have the shape [\b( body )\b]: what
    [findall] reports for a match is the word the body consumed. *)
Lemma token_match (body : regex) (pre rest : str) (m : nat * option str) :
  match_at ic (Seq WordB (Seq (Grp body) WordB)) pre rest = Some m ->
  exists w rest' cap',
    rest = w ++ rest' /\ reported rest m = w
    /\ matches ic body pre rest None (rev w ++ pre) rest' cap'.
Proof.
  unfold match_at. intros H.
  apply rmatch_sound in H as (pre' & rest' & cap' & M & K).
  inversion K; subst m; clear K.
  inversion M as [| |? ? ? ? ? pre1 rest1 cap1 ? ? ? M1 M2| | | | | | |]; subst.
  inversion M1; subst.
  inversion M2 as [| |? ? ? ? ? pre2 rest2 cap2 ? ? ? M3 M4| | | | | | |]; subst.
  inversion M4; subst.
  inversion M3 as [| | | | | | |? ? ? ? ? ? cap3 M5| |]; subst.
  destruct (matches_consumes M5) as (w & -> & ->).
  exists w, rest', cap3. unfold reported. cbn [snd].
  rewrite consumed_word. repeat split; assumption.
Qed.

(** Every string reported by [findall] is reported for a match at some
    position of the text. *)
Lemma findall_from_In (r : regex) (rest : str) :
  forall (pre : str) (skip : nat) (t : str),
  In t (findall_from ic r pre rest skip) ->
  exists w0 rest0 m,
    rest = w0 ++ rest0
    /\ match_at ic r (rev w0 ++ pre) rest0 = Some m
    /\ t = reported rest0 m.
Proof.
  induction rest as [|x rest IH]; intros pre skip t H.
  - destruct skip; cbn [findall_from] in H; [|contradiction].
    destruct (match_at ic r pre []) as [m|] eqn:E; [|contradiction].
    destruct H as [<-|[]]. exists [], [], m. repeat split. exact E.
  - assert (Hrec : forall n, In t (findall_from ic r (x :: pre) rest n) ->
              exists w0 rest0 m,
                x :: rest = w0 ++ rest0
                /\ match_at ic r (rev w0 ++ pre) rest0 = Some m
                /\ t = reported rest0 m).
    { intros n Hn. apply IH in Hn as (w0 & rest0 & m & -> & Hm & ->).
      exists (x :: w0), rest0, m. cbn [rev app]. rewrite <- app_assoc.
      repeat split. exact Hm. }
    destruct skip; cbn [findall_from] in H; [|now apply Hrec in H].
    destruct (match_at ic r pre (x :: rest)) as [m|] eqn:E.
    + destruct H as [<-|H]; [|now apply Hrec in H].
      exists [], (x :: rest), m. repeat split. exact E.
    + now apply Hrec in H.
Qed.

End Search.

(** ** Sets of strings, trimming, substrings *)

Section StringFacts.

Lemma set_of_In (l : list str) (y : str) : In y (set_of l) <-> In y l.
Proof.
  induction l as [|x l IH]; cbn [set_of]; [tauto|]. cbn [In].
  rewrite filter_In, IH. split.
  - intros [H|[H _]]; tauto.
  - intros [H|H]; [tauto|].
    destruct (str_eqb x y) eqn:E.
    + apply str_eqb_eq in E. tauto.
    + right. split; [assumption|reflexivity].
Qed.

Lemma set_of_NoDup (l : list str) : NoDup (set_of l).
Proof.
  induction l as [|x l IH]; cbn [set_of]; constructor.
  - intros H. apply filter_In in H as [_ H]. now rewrite str_eqb_refl in H.
  - now apply NoDup_filter.
Qed.

Lemma substring_trans (a b c : str) : substring a b -> substring b c -> substring a c.
Proof.
  intros (x & y & ->) (x' & y' & ->). exists (x' ++ x), (y ++ y').
  now rewrite <- !app_assoc.
Qed.

Lemma lstrip_suffix (s : str) : exists a, s = a ++ lstrip s.
Proof.
  induction s as [|c s [a IH]]; cbn [lstrip]; [now exists []|].
  destruct (isspace c); [|now exists []].
  exists (c :: a). cbn [app]. now rewrite <- IH.
Qed.

Lemma rstrip_prefix (s : str) : exists b, s = rstrip s ++ b.
Proof.
  unfold rstrip. destruct (lstrip_suffix (rev s)) as [a E].
  exists (rev a). rewrite <- rev_app_distr, <- E. now rewrite rev_involutive.
Qed.

Lemma strip_substring (s : str) : substring (strip s) s.
Proof.
  unfold strip. destruct (lstrip_suffix s) as [a Ea].
  destruct (rstrip_prefix (lstrip s)) as [b Eb].
  exists a, b. now rewrite <- Eb.
Qed.

Lemma startswith_spec (s p : str) : startswith s p = true <-> exists b, s = p ++ b.
Proof.
  revert s. induction p as [|a p IH]; intros s; cbn [startswith].
  - split; [intros _; now exists s|reflexivity].
  - destruct s as [|c s].
    + split; [discriminate|]. intros [b E]. discriminate.
    + rewrite andb_true_iff, N.eqb_eq, IH. split.
      * intros [-> [b ->]]. now exists b.
      * intros [b E]. inversion E; subst. split; [reflexivity|now exists b].
Qed.

(** [p in s] is true exactly when [p] is a contiguous piece of [s]. *)
Lemma contains_spec (p s : str) : contains p s = true <-> substring p s.
Proof.
  induction s as [|c s IH]; cbn [contains].
  - rewrite orb_false_r, startswith_spec. split.
    + intros [b E]. now exists [], b.
    + intros ([|x a] & b & E); [now exists b|discriminate].
  - rewrite orb_true_iff, startswith_spec, IH. split.
    + intros [[b E]|(a & b & E)]; [now exists [], b|].
      exists (c :: a), b. cbn [app]. now rewrite E.
    + intros ([|x a] & b & E); [left; now exists b|].
      right. inversion E; subst. now exists a, b.
Qed.

End StringFacts.

(** ** The Mission extractor *)

Section Missions.
Context {U : unicode_db}.

Lemma token_substring (body : regex) (text t : str) :
  In t (findall true (Seq WordB (Seq (Grp body) WordB)) text) -> substring t text.
Proof.
  unfold findall. intros H.
  apply findall_from_In in H as (w0 & rest0 & m & -> & Hm & ->).
  apply token_match in Hm as (w & rest' & cap' & -> & -> & _).
  now exists w0, rest'.
Qed.

Lemma fold_add_mission_entity (pub_id : str) (ms : list str) (G : graph) :
  fold_left (Adi.add_mission pub_id) ms G
  = fold_left (add_entity (Adi.node_attrs Mission 14) pub_id) (map strip ms) G.
Proof.
  revert G. induction ms as [|m ms IH]; intros G; cbn [fold_left map]; [reflexivity|].
  now rewrite IH.
Qed.

(** C8.  For every Introduction the Mission labels are the distinct strings
    matched by the mission pattern, trimmed and otherwise unchanged: each is
    a piece of the Introduction exactly as written, and it is both key and
    label of the node added.  "Bion-M1" and "Bion-M 1" both match and give
    two Mission nodes with these two labels. *)
Theorem mission_labels_verbatim (intro : str) :
  NoDup (Adi.missions intro)
  /\ (forall m, In m (Adi.missions intro)
                <-> In m (findall true Adi.mission_pattern intro))
  /\ (forall m, In m (Adi.missions intro) ->
        substring m intro /\ substring (strip m) intro)
  /\ (forall pub_id G,
        fold_left (Adi.add_mission pub_id) (Adi.missions intro) G
        = fold_left (add_entity (Adi.node_attrs Mission 14) pub_id)
                    (map strip (Adi.missions intro)) G)
  /\ Adi.missions (u "Mice flew on Bion-M1 and Bion-M 1.")
     = [u "Bion-M1"; u "Bion-M 1"]
  /\ filter (fun p => has_type Mission (snd p))
            (nodes (fst (Adi.load_graph_data bion_document)))
     = [ (u "Bion-M1", Adi.node_attrs Mission 14 (u "Bion-M1"));
         (u "Bion-M 1", Adi.node_attrs Mission 14 (u "Bion-M 1")) ].
Proof.
  split; [apply set_of_NoDup|].
  split; [intros m; apply set_of_In|].
  split.
  - intros m Hm. unfold Adi.missions in Hm.
    apply (proj1 (set_of_In _ _)) in Hm. apply token_substring in Hm.
    split; [assumption|]. eapply substring_trans; [apply strip_substring|assumption].
  - split; [intros; apply fold_add_mission_entity|].
    split; vm_compute; reflexivity.
Qed.

End Missions.

Lemma mission_labels_verbatim_witness :
  substring (u "Bion-M 1") (u "Mice flew on Bion-M1 and Bion-M 1.").
Proof.
  apply (proj1 (proj2 (proj2 (mission_labels_verbatim (U := basic_latin)
                                (u "Mice flew on Bion-M1 and Bion-M 1."))))
               (u "Bion-M 1")).
  vm_compute. right. left. reflexivity.
Defined.

(** ** The Keyword extractor *)

Section Keywords.
Context {U : unicode_db}.

Lemma keyword_labels_distinct : NoDup (map snd Adi.keywords).
Proof.
  cbn [map snd Adi.keywords].
  repeat (constructor;
          [cbn [In]; intros H;
           repeat (destruct H as [H|H]; [discriminate H|]); exact H|]).
  constructor.
Qed.

Lemma keyword_hit (text phrase label : str) :
  In (phrase, label) Adi.keywords ->
  (In label (keyword_hits text) <-> contains phrase text = true).
Proof.
  intros Hin. unfold keyword_hits. split.
  - intros H. apply in_map_iff in H as ([p' l'] & E & H). cbn [snd] in E. subst l'.
    apply filter_In in H as [H Hf]. cbn [fst] in Hf.
    assert (Eq : (p', label) = (phrase, label))
      by (apply (NoDup_map_inj snd Adi.keywords); auto using keyword_labels_distinct).
    inversion Eq; subst. exact Hf.
  - intros H. change label with (snd (phrase, label)). apply in_map.
    apply filter_In. split; assumption.
Qed.

Lemma fold_add_keyword_entity (pub_id text : str) (G : graph) :
  fold_left (Adi.add_keyword pub_id text) Adi.keywords G
  = fold_left (add_entity (Adi.node_attrs Keyword 10) pub_id) (keyword_hits text) G.
Proof.
  unfold keyword_hits. generalize Adi.keywords. intros kws. revert G.
  induction kws as [|[ks kl] kws IH]; intros G; cbn [fold_left filter map fst];
    [reflexivity|].
  rewrite IH. unfold Adi.add_keyword.
  destruct (contains ks text); reflexivity.
Qed.

(** C7 (amended).  For every combined text the keyword loop adds the label of
    a lexicon entry once when the entry's phrase is a contiguous piece of the
    text and not at all otherwise, wherever and however often the phrase
    occurs and whatever surrounds it: "immune" is found inside "autoimmune"
    and gives "Immune System".  It is not found inside "immunity". *)
Theorem keyword_once_iff_substring (combined_text : str) :
  (forall pub_id G,
     fold_left (Adi.add_keyword pub_id combined_text) Adi.keywords G
     = fold_left (add_entity (Adi.node_attrs Keyword 10) pub_id)
                 (keyword_hits combined_text) G)
  /\ (forall phrase label, In (phrase, label) Adi.keywords ->
        (substring phrase combined_text ->
         count_occ (list_eq_dec N.eq_dec) (keyword_hits combined_text) label = 1%nat)
        /\ (~ substring phrase combined_text ->
            count_occ (list_eq_dec N.eq_dec) (keyword_hits combined_text) label = 0%nat))
  /\ keyword_hits (lower (u "Autoimmune disease" ++ u " " ++ u "autoimmune"))
     = [u "Immune System"]
  /\ contains (u "immune") (u "immunity") = false.
Proof.
  split; [intros; apply fold_add_keyword_entity|].
  split; [|split; vm_compute; reflexivity].
  intros phrase label Hin. split; intros H.
  - apply NoDup_count_occ'.
    + unfold keyword_hits. apply NoDup_map_filter. apply keyword_labels_distinct.
    + apply (keyword_hit combined_text Hin). now apply contains_spec.
  - apply count_occ_not_In. intros Hl. apply H. apply contains_spec.
    apply (keyword_hit combined_text Hin). exact Hl.
Qed.

End Keywords.

Lemma keyword_once_iff_substring_witness :
  count_occ (list_eq_dec N.eq_dec)
    (keyword_hits (u "loss of bone and backbone strength")) (u "Bone") = 1%nat.
Proof.
  apply (proj1 (proj1 (proj2 (keyword_once_iff_substring (U := basic_latin)
                                (u "loss of bone and backbone strength")))
                      (u "bone") (u "Bone")
                      (or_intror (or_introl eq_refl)))).
  exists (u "loss of "), (u " and backbone strength"). reflexivity.
Defined.

(** "immune" does not occur in "immunity": a document that only speaks of
    immunity gets no "Immune System" node. *)
Lemma immune_not_in_immunity :
  keyword_hits
    (lower (U := basic_latin)
       (u "Immunity in orbit" ++ u " " ++ u "Changes of immunity after flight."))
  = []
  /\ has_node (fst (Adi.load_graph_data (U := basic_latin) immunity_document))
              (u "Immune System") = false
  /\ number_of_nodes (fst (Adi.load_graph_data (U := basic_latin) immunity_document))
     = 1%nat.
Proof. vm_compute. repeat split. Qed.

(** ** The Organism extractor *)

Section Organisms.
Context {U : unicode_db}.

Lemma matches_alt (ic : bool) (r1 r2 : regex) pre rest cap pre' rest' cap' :
  matches ic (Alt r1 r2) pre rest cap pre' rest' cap' ->
  matches ic r1 pre rest cap pre' rest' cap'
  \/ matches ic r2 pre rest cap pre' rest' cap'.
Proof. inversion 1; subst; tauto. Qed.

Lemma matches_seq (ic : bool) (r1 r2 : regex) pre rest cap pre' rest' cap' :
  matches ic (Seq r1 r2) pre rest cap pre' rest' cap' ->
  exists pre1 rest1 cap1,
    matches ic r1 pre rest cap pre1 rest1 cap1
    /\ matches ic r2 pre1 rest1 cap1 pre' rest' cap'.
Proof. inversion 1; subst; eauto. Qed.

(** A literal word matches the characters that spell it. *)
Lemma matches_Str (s : string) :
  forall pre rest cap pre' rest' cap',
  matches true (Str s) pre rest cap pre' rest' cap' ->
  exists w, rest = w ++ rest' /\ pre' = rev w ++ pre /\ spells s w.
Proof.
  induction s as [|c s IH]; intros pre rest cap pre' rest' cap' H; cbn [Str] in H.
  - inversion H; subst. exists []. repeat split. constructor.
  - apply matches_seq in H as (pre1 & rest1 & cap1 & H1 & H2).
    inversion H1; subst.
    apply IH in H2 as (w & -> & -> & Hw).
    exists (x :: w). cbn [rev app]. rewrite <- app_assoc. repeat split.
    constructor; assumption.
Qed.

Lemma organism_body_words pre rest cap pre' rest' cap' :
  matches true organism_body pre rest cap pre' rest' cap' ->
  exists s w, In s organism_words /\ rest = w ++ rest' /\ spells s w.
Proof.
  unfold organism_body, organism_words. intros H.
  repeat (apply matches_alt in H as [H|H];
          [apply matches_Str in H as (w & -> & _ & Hw);
           eexists; exists w; split; [|split; [reflexivity|exact Hw]];
           cbn [In]; tauto|]).
  apply matches_seq in H as (pre1 & rest1 & cap1 & H1 & H2).
  apply matches_Str in H1 as (w1 & -> & -> & Hw1).
  apply matches_alt in H2 as [H2|H2].
  - inversion H2; subst. exists "C57BL/6J"%string, (w1 ++ [x]).
    split; [cbn [In]; tauto|]. split; [now rewrite <- app_assoc|].
    unfold spells.
    change (list_ascii_of_string "C57BL/6J")
      with (list_ascii_of_string "C57BL/6" ++ ["J"%char]).
    apply Forall2_app; [exact Hw1|]. repeat constructor. assumption.
  - inversion H2; subst. exists "C57BL/6"%string, w1.
    split; [cbn [In]; tauto|]. split; [reflexivity|assumption].
Qed.

Lemma case_variants_are_variants (q x : char) :
  existsb (N.eqb x) (case_variants q) = true -> is_case_variant x = true.
Proof.
  unfold case_variants, is_case_variant.
  destruct (q =? 105)%N; [|destruct (q =? 115)%N; [|destruct (q =? 107)%N]];
    cbn [existsb]; intros H;
    destruct (x =? I_DOT)%N, (x =? DOTLESS_I)%N, (x =? LONG_S)%N, (x =? KELVIN)%N;
    try reflexivity; discriminate H.
Qed.

(** In plain text a character that matches an ASCII letter of a pattern is
    that letter in one of its two cases. *)
Lemma lit_match_plain (p : ascii) (x : char) :
  lit_match true p x = true ->
  is_case_variant x = false ->
  is_ascii (N_of_ascii p) = true ->
  is_ascii x = true /\ ascii_lower x = ascii_lower (N_of_ascii p).
Proof.
  unfold lit_match. intros H Hx Hp.
  apply orb_true_iff in H as [H|H].
  - apply N.eqb_eq in H. subst x. split; [assumption|reflexivity].
  - cbn [andb] in H. apply orb_true_iff in H as [H|H].
    + apply andb_true_iff in H as [H1 H2]. apply N.eqb_eq in H2. split; assumption.
    + apply case_variants_are_variants in H. congruence.
Qed.

Lemma lower_spelled (s : string) (w : str) :
  spells s w -> plain w ->
  Forall (fun p => is_ascii (N_of_ascii p) = true) (list_ascii_of_string s) ->
  forall before,
  lower_from before w
  = map (fun p => ascii_lower (N_of_ascii p)) (list_ascii_of_string s).
Proof.
  unfold spells, plain. intros H. induction H as [|p x ps w Hpx Hrest IH];
    intros Hw Hs before; [reflexivity|].
  inversion Hw; subst. inversion Hs; subst.
  destruct (lit_match_plain p x Hpx) as [Hax Hlow]; [assumption..|].
  cbn [lower_from map]. unfold lower_char. rewrite Hax, Hlow. cbn [app].
  f_equal. now apply IH.
Qed.

Lemma organism_token (text org : str) :
  In org (Adi.organisms text) ->
  exists s w0 rest', In s organism_words /\ text = w0 ++ org ++ rest' /\ spells s org.
Proof.
  unfold Adi.organisms, findall. intros H.
  apply (proj1 (set_of_In _ _)) in H.
  apply findall_from_In in H as (w0 & rest0 & m & -> & Hm & ->).
  change Adi.organism_pattern with (Seq WordB (Seq (Grp organism_body) WordB)) in Hm.
  apply token_match in Hm as (w & rest' & cap' & -> & -> & Hb).
  apply organism_body_words in Hb as (s & w2 & Hs & E & Hsp).
  apply app_inv_tail in E. subst w2.
  exists s, w0, rest'. repeat split; assumption.
Qed.

Lemma organism_words_ascii (s : string) :
  In s organism_words ->
  Forall (fun p => is_ascii (N_of_ascii p) = true) (list_ascii_of_string s).
Proof.
  unfold organism_words. cbn [In]. intros H.
  repeat (destruct H as [<-|H]; [repeat constructor|]). contradiction.
Qed.

Lemma organism_words_mapped (s : string) :
  In s organism_words ->
  exists l,
    dict_get Adi.organism_mapping
      (map (fun p => ascii_lower (N_of_ascii p)) (list_ascii_of_string s)) = Some l
    /\ In l organism_labels.
Proof.
  unfold organism_words. cbn [In]. intros H.
  repeat (destruct H as [<-|H];
          [eexists; split; [vm_compute; reflexivity|vm_compute; tauto]|]).
  contradiction.
Qed.

Lemma organism_token_mapped (text : str) (Hplain : plain text) :
  forall org, In org (Adi.organisms text) ->
  exists l,
    dict_get Adi.organism_mapping (lower org) = Some l
    /\ Adi.org_label org = l
    /\ In l organism_labels.
Proof.
  intros org Horg.
  destruct (organism_token text org Horg) as (s & w0 & rest' & Hs & -> & Hsp).
  assert (Hw : plain org).
  { unfold plain in *. apply Forall_app in Hplain as [_ Hplain].
    now apply Forall_app in Hplain as [Hplain _]. }
  assert (Hl : lower org
               = map (fun p => ascii_lower (N_of_ascii p)) (list_ascii_of_string s)).
  { unfold lower. apply lower_spelled; [assumption..|]. now apply organism_words_ascii. }
  destruct (organism_words_mapped Hs) as (l & Hget & Hin).
  exists l. unfold Adi.org_label, dict_get_default. rewrite Hl, Hget.
  repeat split. assumption.
Qed.

Lemma organism_words_no_k (s : string) :
  In s organism_words ->
  Forall (fun p => (ascii_lower (N_of_ascii p) =? 107)%N = false)
         (list_ascii_of_string s).
Proof.
  unfold organism_words. cbn [In]. intros H.
  repeat (destruct H as [<-|H]; [repeat constructor|]). contradiction.
Qed.

(** The pattern has no letter k, so the Kelvin sign is in no token. *)
Lemma spelled_no_kelvin (s : string) (w : str) :
  spells s w ->
  Forall (fun p => is_ascii (N_of_ascii p) = true) (list_ascii_of_string s) ->
  Forall (fun p => (ascii_lower (N_of_ascii p) =? 107)%N = false)
         (list_ascii_of_string s) ->
  Forall (fun c => (c =? KELVIN)%N = false) w.
Proof.
  unfold spells. intros H. induction H as [|p x ps w Hpx Hrest IH];
    intros Ha Hk; [constructor|].
  inversion Ha; subst. inversion Hk; subst.
  constructor; [|now apply IH].
  assert (Hsmall : forall y : char, is_ascii y = true -> (y =? KELVIN)%N = false).
  { intros y Hy. unfold is_ascii in Hy. apply N.ltb_lt in Hy.
    apply N.eqb_neq. unfold KELVIN. lia. }
  unfold lit_match in Hpx. apply orb_true_iff in Hpx as [Hpx|Hpx].
  - apply N.eqb_eq in Hpx. subst x. now apply Hsmall.
  - cbn [andb] in Hpx. apply orb_true_iff in Hpx as [Hpx|Hpx].
    + apply andb_true_iff in Hpx as [Hx _]. now apply Hsmall.
    + unfold case_variants in Hpx.
      match goal with Hq : (ascii_lower (N_of_ascii p) =? 107)%N = false |- _ =>
        rewrite Hq in Hpx end.
      destruct (ascii_lower (N_of_ascii p) =? 105)%N;
        [|destruct (ascii_lower (N_of_ascii p) =? 115)%N];
        cbn [existsb] in Hpx;
        repeat (apply orb_true_iff in Hpx as [Hpx|Hpx];
                [apply N.eqb_eq in Hpx; subst x; reflexivity|]);
        discriminate Hpx.
Qed.

Lemma usual_plain (w : str) :
  usual_token w = true -> Forall (fun c => (c =? KELVIN)%N = false) w -> plain w.
Proof.
  unfold plain. induction w as [|c w IH]; intros Hu Hk; [constructor|].
  cbn [usual_token forallb] in Hu. apply andb_true_iff in Hu as [Hc Hu].
  inversion Hk; subst. constructor; [|now apply IH].
  apply negb_true_iff in Hc. unfold i_or_s_variant in Hc.
  unfold is_case_variant. now rewrite Hc.
Qed.

(** Lower-casing leaves a code point outside Basic Latin where one of the
    three variants stood. *)
Lemma variant_lower (before : str) (c : char) (after : str) :
  i_or_s_variant c = true ->
  exists x, In x (lower_char before c after) /\ is_ascii x = false.
Proof.
  unfold i_or_s_variant. intros H.
  apply orb_true_iff in H as [H|H]; [apply orb_true_iff in H as [H|H]|];
    apply N.eqb_eq in H; subst c.
  - exists 775%N. split; [vm_compute; right; left; reflexivity|reflexivity].
  - exists DOTLESS_I. split; [vm_compute; left; reflexivity|reflexivity].
  - exists LONG_S. split; [vm_compute; left; reflexivity|reflexivity].
Qed.

Lemma lower_not_ascii (w : str) :
  forall before, usual_token w = false ->
  exists x, In x (lower_from before w) /\ is_ascii x = false.
Proof.
  induction w as [|c w IH]; intros before Hu; [discriminate Hu|].
  cbn [usual_token forallb] in Hu. cbn [lower_from].
  destruct (i_or_s_variant c) eqn:Ec.
  - destruct (variant_lower before c w Ec) as (x & Hin & Hx).
    exists x. split; [apply in_or_app; now left|exact Hx].
  - cbn [negb andb] in Hu. destruct (IH (c :: before) Hu) as (x & Hin & Hx).
    exists x. split; [apply in_or_app; now right|exact Hx].
Qed.

Lemma table_keys_ascii (key l : str) :
  dict_get Adi.organism_mapping key = Some l ->
  Forall (fun c => is_ascii c = true) key.
Proof.
  unfold Adi.organism_mapping. cbn [dict_get].
  repeat (match goal with |- context [str_eqb ?k key] =>
            destruct (str_eqb k key) eqn:E;
            [apply str_eqb_eq in E; subst key; intros _;
             repeat (apply Forall_cons; [reflexivity|]); apply Forall_nil
            |clear E]
          end).
  discriminate.
Qed.

(** A token with one of the three variants misses the table. *)
Lemma organism_token_unmapped (org : str) :
  usual_token org = false ->
  dict_get Adi.organism_mapping (lower org) = None
  /\ Adi.org_label org = title org.
Proof.
  intros Hu.
  assert (Hnone : dict_get Adi.organism_mapping (lower org) = None).
  { destruct (dict_get Adi.organism_mapping (lower org)) as [l|] eqn:E;
      [|reflexivity].
    apply table_keys_ascii in E.
    destruct (lower_not_ascii org [] Hu) as (x & Hin & Hx).
    fold (lower org) in Hin.
    rewrite Forall_forall in E. rewrite (E x Hin) in Hx. discriminate Hx. }
  split; [exact Hnone|].
  unfold Adi.org_label, dict_get_default. now rewrite Hnone.
Qed.

(** A token without them has its lower-cased form in the table. *)
Lemma organism_usual_token_mapped (text org : str) :
  In org (Adi.organisms text) ->
  Forall (fun c => (c =? KELVIN)%N = false) org
  /\ (usual_token org = true ->
      exists l,
        dict_get Adi.organism_mapping (lower org) = Some l
        /\ Adi.org_label org = l
        /\ In l organism_labels).
Proof.
  intros Horg.
  destruct (organism_token text org Horg) as (s & w0 & rest' & Hs & _ & Hsp).
  assert (Hk : Forall (fun c => (c =? KELVIN)%N = false) org).
  { apply (spelled_no_kelvin Hsp);
      [now apply organism_words_ascii|now apply organism_words_no_k]. }
  split; [exact Hk|]. intros Hu.
  assert (Hl : lower org
               = map (fun p => ascii_lower (N_of_ascii p)) (list_ascii_of_string s)).
  { unfold lower. apply lower_spelled;
      [assumption|now apply usual_plain|now apply organism_words_ascii]. }
  destruct (organism_words_mapped Hs) as (l & Hget & Hin).
  exists l. unfold Adi.org_label, dict_get_default. rewrite Hl, Hget.
  repeat split. assumption.
Qed.

(** C9 (amended).  For every text, token by token: a token matched by the
    organism pattern never has U+212A, and its lower-cased form is a key of
    the canonicalization table exactly when the token has none of U+0130,
    U+0131 and U+017F.  For such a token, in particular for every ASCII
    token, the table answers, the title-cased fallback is not used, and the
    label is one of "Mice", "Rats", "Humans"; for a token with one of the
    three the table has no entry and the label is the title-cased token.  So
    every Organism node of the assembled graph is keyed and labelled "Mice",
    "Rats" or "Humans", or with the title-cased form of a token of an
    accepted document that has one of the three code points. *)
Theorem organism_tokens_in_table :
  (forall text org, In org (Adi.organisms text) ->
     Forall (fun c => c <> KELVIN) org
     /\ (usual_token org = true ->
         exists l,
           dict_get Adi.organism_mapping (lower org) = Some l
           /\ Adi.org_label org = l
           /\ In l organism_labels)
     /\ (usual_token org = false ->
         dict_get Adi.organism_mapping (lower org) = None
         /\ Adi.org_label org = title org))
  /\ (forall data k a, In (k, a) (nodes (Adi.build_graph data)) ->
        a_type a = Some Organism ->
        a_label a = Some k
        /\ (In k organism_labels
            \/ exists doc_id d org,
                 In (doc_id, Dict d) data /\ accepted d = true
                 /\ In org (Adi.organisms (organism_text d))
                 /\ usual_token org = false /\ k = title org)).
Proof.
  split.
  - intros text org Horg.
    destruct (organism_usual_token_mapped text org Horg) as [Hk Hmap].
    split; [|split; [exact Hmap|apply organism_token_unmapped]].
    eapply Forall_impl; [|exact Hk].
    intros c Hc. now apply N.eqb_neq.
  - intros data k a Hin Ht. unfold Adi.build_graph in Hin.
    apply build_from in Hin
      as [[]|(doc_id & d & Hd & Ha & [[-> ->]|(it & Hit & -> & ->)])].
    + discriminate Ht.
    + split; [reflexivity|].
      destruct it as [[t z] l]. cbn in Ht. inversion Ht; subst t.
      unfold doc_items in Hit.
      apply in_app_or in Hit as [Hit|Hit];
        [apply in_map_iff in Hit as (x & E & _); discriminate E|].
      apply in_app_or in Hit as [Hit|Hit];
        [apply in_map_iff in Hit as (x & E & _); discriminate E|].
      apply in_map_iff in Hit as (x & E & Hit). inversion E; subst x z.
      apply in_map_iff in Hit as (org & <- & Horg).
      unfold item_label. cbn [snd].
      destruct (usual_token org) eqn:Hu.
      * left.
        destruct (proj2 (organism_usual_token_mapped _ org Horg) Hu)
          as (l' & _ & <- & Hl).
        exact Hl.
      * right. exists doc_id, d, org.
        split; [exact Hd|]. split; [exact Ha|]. split; [exact Horg|].
        split; [exact Hu|]. exact (proj2 (organism_token_unmapped org Hu)).
Qed.

End Organisms.

Lemma organism_tokens_in_table_witness :
  exists l,
    dict_get Adi.organism_mapping (lower (U := basic_latin) (u "Mus musculus")) = Some l
    /\ Adi.org_label (U := basic_latin) (u "Mus musculus") = l
    /\ In l organism_labels.
Proof.
  apply (proj1 (proj2 (proj1 (organism_tokens_in_table (U := basic_latin))
                         (u "Adult male Mus musculus were flown.")
                         (u "Mus musculus")
                         ltac:(vm_compute; left; reflexivity)))).
  reflexivity.
Defined.

(** The fallback is reached: "mice" written with a dotless i matches the
    pattern, is not a key of the table once lower-cased, and gives an
    Organism node labelled with its title-cased form. *)
Lemma organism_fallback_reached :
  In dotless_mice
     (Adi.organisms (U := basic_latin)
        ((u "We flew " ++ dotless_mice ++ u " on the station.") ++ u " " ++ []))
  /\ dict_get Adi.organism_mapping (lower (U := basic_latin) dotless_mice) = None
  /\ Adi.org_label (U := basic_latin) dotless_mice = [77; 305; 99; 101]%N
  /\ ~ In (Adi.org_label (U := basic_latin) dotless_mice) organism_labels
  /\ filter (fun p => has_type Organism (snd p))
            (nodes (fst (Adi.load_graph_data (U := basic_latin) dotless_document)))
     = [ ([77; 305; 99; 101]%N, Adi.node_attrs Organism 12 [77; 305; 99; 101]%N) ].
Proof.
  split; [vm_compute; left; reflexivity|].
  split; [vm_compute; reflexivity|].
  split; [vm_compute; reflexivity|].
  split; [|vm_compute; reflexivity].
  vm_compute. intros [H|[H|[H|[]]]]; discriminate H.
Qed.

(** ** The text normalizer *)

Section Normalizer.
Context {U : unicode_db}.

Lemma star_space_greedy {R} (f : str -> R) (rest : str) :
  forall pre,
  star_m false Space pre rest (fun _ rest' => Some (f rest'))
  = Some (f (skipn (run rest) rest)).
Proof.
  induction rest as [|x rest IH]; intros pre; cbn [star_m run item_match].
  - reflexivity.
  - destruct (isspace x); [|reflexivity]. now rewrite IH.
Qed.

Lemma run_le (s : str) : (run s <= List.length s)%nat.
Proof.
  induction s as [|c s IH]; cbn [run List.length]; [lia|].
  destruct (isspace c); lia.
Qed.

(** [\s+] at a position: the whole run of whitespace there, if any. *)
Lemma match_whitespace (pre rest : str) :
  match_at false Adi.whitespace_pattern pre rest
  = match rest with
    | x :: rest' => if isspace x then Some (S (run rest'), None) else None
    | [] => None
    end.
Proof.
  unfold match_at, Adi.whitespace_pattern, Plus. cbn [rmatch item_match].
  destruct rest as [|x rest]; [reflexivity|].
  destruct (isspace x); [|reflexivity].
  rewrite (star_space_greedy
             (fun rest' => ((List.length (x :: rest) - List.length rest')%nat,
                            @None str))).
  f_equal. f_equal. rewrite length_skipn. cbn [List.length].
  pose proof (run_le rest). lia.
Qed.

(** The output of [re.sub(r'\s+', ' ', text)], from a position outside a run
    of whitespace (skip 0) and from a position inside the run just replaced
    (skip = what is left of the run). *)
Lemma sub_whitespace (rest : str) :
  forall pre,
  single_spaced (sub_from false Adi.whitespace_pattern (u " ") pre rest 0)
  /\ single_spaced (sub_from false Adi.whitespace_pattern (u " ") pre rest (run rest))
  /\ no_leading_space (sub_from false Adi.whitespace_pattern (u " ") pre rest (run rest)).
Proof.
  induction rest as [|x rest IH]; intros pre.
  - cbn [run sub_from]. rewrite match_whitespace. cbn. tauto.
  - destruct (IH (x :: pre)) as (I0 & I1 & I2).
    assert (H0 : sub_from false Adi.whitespace_pattern (u " ") pre (x :: rest) 0
                 = if isspace x
                   then 32%N :: sub_from false Adi.whitespace_pattern (u " ")
                                         (x :: pre) rest (run rest)
                   else x :: sub_from false Adi.whitespace_pattern (u " ")
                                      (x :: pre) rest 0).
    { cbn [sub_from]. rewrite match_whitespace.
      destruct (isspace x); [|reflexivity].
      cbn [fst Nat.eqb app].
      replace (S (run rest) - 1)%nat with (run rest) by lia. reflexivity. }
    cbn [run]. destruct (isspace x) eqn:Ex.
    + rewrite H0.
      change (sub_from false Adi.whitespace_pattern (u " ") pre (x :: rest) (S (run rest)))
        with (sub_from false Adi.whitespace_pattern (u " ") (x :: pre) rest (run rest)).
      split; [|split; assumption].
      cbn [single_spaced]. split; [|assumption].
      destruct (sub_from false Adi.whitespace_pattern (u " ") (x :: pre) rest (run rest))
        as [|c o]; [exact I|].
      cbn [no_leading_space] in I2. intros [_ Hc]. congruence.
    + rewrite H0.
      assert (S1 : single_spaced
                     (x :: sub_from false Adi.whitespace_pattern (u " ") (x :: pre) rest 0)).
      { cbn [single_spaced]. split; [|assumption].
        destruct (sub_from false Adi.whitespace_pattern (u " ") (x :: pre) rest 0);
          [exact I|]. intros [Hx _]. congruence. }
      split; [assumption|]. split; [assumption|]. exact Ex.
Qed.

Lemma single_spaced_pairs (s : str) :
  single_spaced s ->
  forall a c1 c2 b, s = a ++ c1 :: c2 :: b -> ~ (isspace c1 = true /\ isspace c2 = true).
Proof.
  induction s as [|c s IH]; intros H a c1 c2 b E.
  - destruct a; discriminate E.
  - cbn [single_spaced] in H. destruct H as [H1 H2].
    destruct a as [|x a]; cbn [app] in E; inversion E; subst.
    + exact H1.
    + eapply IH; eauto.
Qed.

Lemma lstrip_head (s : str) : no_leading_space (lstrip s).
Proof.
  induction s as [|c s IH]; cbn [lstrip]; [exact I|].
  destruct (isspace c) eqn:E; [assumption|exact E].
Qed.

Lemma strip_head (s : str) : no_leading_space (strip s).
Proof.
  unfold strip. destruct (rstrip_prefix (lstrip s)) as [b E].
  pose proof (lstrip_head s) as H. rewrite E in H.
  destruct (rstrip (lstrip s)); [exact I|exact H].
Qed.

Lemma strip_last (s : str) : no_leading_space (rev (strip s)).
Proof.
  unfold strip, rstrip. rewrite rev_involutive. apply lstrip_head.
Qed.

(** C6.  The normalizer is a total function: [None] gives the empty string,
    and for every value the result neither starts nor ends with whitespace
    and has no two whitespace characters in a row. *)
Theorem clean_text_normalized (s : pyval) :
  Adi._clean_text PyNone = []
  /\ no_leading_space (Adi._clean_text s)
  /\ no_leading_space (rev (Adi._clean_text s))
  /\ (forall a c1 c2 b, Adi._clean_text s = a ++ c1 :: c2 :: b ->
        ~ (isspace c1 = true /\ isspace c2 = true)).
Proof.
  split; [reflexivity|].
  assert (H : forall text,
            no_leading_space (strip (sub false Adi.whitespace_pattern (u " ") text))
            /\ no_leading_space (rev (strip (sub false Adi.whitespace_pattern (u " ") text)))
            /\ (forall a c1 c2 b,
                  strip (sub false Adi.whitespace_pattern (u " ") text)
                  = a ++ c1 :: c2 :: b ->
                  ~ (isspace c1 = true /\ isspace c2 = true))).
  { intros text. split; [apply strip_head|]. split; [apply strip_last|].
    intros a c1 c2 b E.
    destruct (strip_substring (sub false Adi.whitespace_pattern (u " ") text))
      as (a' & b' & E').
    rewrite E in E'.
    apply (single_spaced_pairs (proj1 (sub_whitespace text [])) (a' ++ a) c1 c2 (b ++ b')).
    unfold sub in E'. rewrite E'. now rewrite <- !app_assoc. }
  destruct s as [|t|t]; [cbn; repeat split; intros [|? ?] ? ? ? E; discriminate E| |];
    apply H.
Qed.

End Normalizer.

Lemma clean_text_normalized_witness :
  Adi._clean_text (U := basic_latin) (PyStr (u "Abstract:  a   b  ")) = u "a b"
  /\ ~ (isspace 97%N = true /\ isspace 32%N = true).
Proof.
  split; [vm_compute; reflexivity|].
  apply (proj2 (proj2 (proj2 (clean_text_normalized (U := basic_latin)
                                (PyStr (u "Abstract:  a   b  ")))))
               [] 97%N 32%N (u "b")).
  vm_compute. reflexivity.
Defined.

(** ** Publication keys and entity labels are apart *)

Section KeySpaces.
Context {U : unicode_db}.

Ltac in_list := cbn [In]; repeat (first [left; reflexivity | right]).

Lemma pub_key_p (doc_id : str) : starts_with_p (pub_key doc_id) = true.
Proof. reflexivity. Qed.

Lemma ascii_upper_not_p (x : char) : (ascii_upper x =? 112)%N = false.
Proof.
  apply N.eqb_neq. unfold ascii_upper, ascii_islower.
  destruct (97 <=? x)%N eqn:E1; destruct (x <=? 122)%N eqn:E2; cbn [andb];
    try apply N.leb_le in E1; try apply N.leb_le in E2;
    try apply N.leb_gt in E1; try apply N.leb_gt in E2; lia.
Qed.

(** A character that matches an ASCII literal under [IGNORECASE] is ASCII or
    one of the four case variants. *)
Lemma lit_match_kind (c : ascii) (x : char) :
  lit_match true c x = true ->
  is_ascii (N_of_ascii c) = true ->
  (is_ascii x = true /\ ascii_lower x = ascii_lower (N_of_ascii c))
  \/ is_case_variant x = true.
Proof.
  unfold lit_match. intros H Hc.
  apply orb_true_iff in H as [H|H].
  - apply N.eqb_eq in H. subst x. left. split; [assumption|reflexivity].
  - cbn [andb] in H. apply orb_true_iff in H as [H|H].
    + apply andb_true_iff in H as [H1 H2]. apply N.eqb_eq in H2. left. now split.
    + right. eapply case_variants_are_variants; eassumption.
Qed.

Lemma title_not_p (c : ascii) (x : char) (w : str) :
  lit_match true c x = true ->
  is_ascii (N_of_ascii c) = true ->
  starts_with_p (title (x :: w)) = false.
Proof.
  intros H Hc. unfold title. cbn [title_from]. unfold title_char.
  destruct (lit_match_kind c x H Hc) as [[Hx _]|Hx].
  - rewrite Hx. cbn [app starts_with_p]. apply ascii_upper_not_p.
  - unfold is_case_variant in Hx.
    destruct (is_ascii x); [cbn [app starts_with_p]; apply ascii_upper_not_p|].
    destruct (x =? I_DOT)%N; [reflexivity|].
    destruct (x =? DOTLESS_I)%N; [reflexivity|].
    destruct (x =? LONG_S)%N; [reflexivity|].
    destruct (x =? KELVIN)%N; [reflexivity|discriminate Hx].
Qed.

Lemma ascii_lower_cases (x k : char) :
  ascii_lower x = k -> x = k \/ (x + 32 = k /\ 65 <= x <= 90)%N.
Proof.
  unfold ascii_lower, ascii_isupper.
  destruct (65 <=? x)%N eqn:E1; destruct (x <=? 90)%N eqn:E2; cbn [andb];
    intros <-; try tauto.
  right. apply N.leb_le in E1, E2. lia.
Qed.

Lemma initial_of (c : ascii) (x : char) :
  lit_match true c x = true ->
  In c ["B"; "S"; "I"; "N"]%char ->
  mission_initial x.
Proof.
  intros H Hc. unfold mission_initial.
  assert (Ha : is_ascii (N_of_ascii c) = true)
    by (cbn [In] in Hc; repeat (destruct Hc as [<-|Hc]; [reflexivity|]); contradiction).
  destruct (lit_match_kind c x H Ha) as [[_ Hl]|Hv].
  - apply ascii_lower_cases in Hl.
    cbn [In] in Hc.
    repeat (destruct Hc as [<-|Hc];
            [cbn in Hl; destruct Hl as [->|[Hl _]];
             [in_list|
              match type of Hl with
              | (x + 32 = ?k)%N => assert (x = k - 32)%N as -> by lia
              end; in_list]|]).
    contradiction.
  - unfold is_case_variant in Hv.
    destruct (x =? I_DOT)%N eqn:E1; [apply N.eqb_eq in E1; subst x; in_list|].
    destruct (x =? DOTLESS_I)%N eqn:E2; [apply N.eqb_eq in E2; subst x; in_list|].
    destruct (x =? LONG_S)%N eqn:E3; [apply N.eqb_eq in E3; subst x; in_list|].
    destruct (x =? KELVIN)%N eqn:E4; [apply N.eqb_eq in E4; subst x; in_list|].
    discriminate Hv.
Qed.

Lemma mission_initial_plain (x : char) :
  mission_initial x -> isspace x = false /\ (x =? 112)%N = false.
Proof.
  unfold mission_initial. cbn [In]. intros H.
  repeat (destruct H as [<-|H]; [split; reflexivity|]). contradiction.
Qed.

Lemma matches_Str_head (c : ascii) (s : string) pre rest cap pre' rest' cap' :
  matches true (Str (String c s)) pre rest cap pre' rest' cap' ->
  exists x rest0, rest = x :: rest0 /\ lit_match true c x = true.
Proof.
  cbn [Str]. intros H. apply matches_seq in H as (pre1 & rest1 & cap1 & H1 & _).
  inversion H1; subst. eauto.
Qed.

Lemma mission_body_initial pre rest cap pre' rest' cap' :
  matches true mission_body pre rest cap pre' rest' cap' ->
  exists x rest0, rest = x :: rest0 /\ mission_initial x.
Proof.
  unfold mission_body. intros H.
  assert (Hstr : forall (c : ascii) (s : string) pre rest cap pre' rest' cap',
            In c ["B"; "S"; "I"; "N"]%char ->
            matches true (Str (String c s)) pre rest cap pre' rest' cap' ->
            exists x rest0, rest = x :: rest0 /\ mission_initial x).
  { intros c s p r ca p' r' ca' Hc Hm.
    apply matches_Str_head in Hm as (x & rest0 & -> & Hx).
    exists x, rest0. split; [reflexivity|]. eapply initial_of; eassumption. }
  assert (Hseq : forall (c : ascii) (s : string) (r2 : regex) pre rest cap pre' rest' cap',
            In c ["B"; "S"; "I"; "N"]%char ->
            matches true (Seq (Str (String c s)) r2) pre rest cap pre' rest' cap' ->
            exists x rest0, rest = x :: rest0 /\ mission_initial x).
  { intros c s r2 p r ca p' r' ca' Hc Hm.
    apply matches_seq in Hm as (p1 & r1 & c1 & Hm & _). eapply Hstr; eassumption. }
  apply matches_alt in H as [H|H]; [eapply Hseq; [|exact H]; in_list|].
  apply matches_alt in H as [H|H]; [eapply Hseq; [|exact H]; in_list|].
  apply matches_alt in H as [H|H]; [eapply Hstr; [|exact H]; in_list|].
  apply matches_alt in H as [H|H]; [eapply Hstr; [|exact H]; in_list|].
  apply matches_alt in H as [H|H]; [eapply Hstr; [|exact H]; in_list|].
  apply matches_alt in H as [H|H]; [eapply Hseq; [|exact H]; in_list|].
  eapply Hstr; [|exact H]. in_list.
Qed.

Lemma lstrip_snoc (s : str) (x : char) :
  isspace x = false -> exists t, lstrip (s ++ [x]) = t ++ [x].
Proof.
  intros Hx. induction s as [|c s [t IH]]; cbn [app lstrip].
  - rewrite Hx. now exists [].
  - destruct (isspace c); [now exists t|]. now exists (c :: s).
Qed.

(** Trimming keeps a first character that is not whitespace. *)
Lemma strip_head_kept (x : char) (w : str) :
  isspace x = false -> exists t, strip (x :: w) = x :: t.
Proof.
  intros Hx. unfold strip. cbn [lstrip]. rewrite Hx. unfold rstrip.
  cbn [rev]. destruct (lstrip_snoc (rev w) x Hx) as [t ->].
  exists (rev t). now rewrite rev_app_distr.
Qed.

Lemma mission_label_not_p (intro l : str) :
  In l (mission_labels intro) -> starts_with_p l = false.
Proof.
  unfold mission_labels, Adi.missions, findall. intros H.
  apply in_map_iff in H as (m & <- & H).
  apply (proj1 (set_of_In _ _)) in H.
  apply findall_from_In in H as (w0 & rest0 & mm & -> & Hm & ->).
  change Adi.mission_pattern with (Seq WordB (Seq (Grp mission_body) WordB)) in Hm.
  apply token_match in Hm as (w & rest' & cap' & -> & -> & Hb).
  destruct (matches_consumes Hb) as (w2 & E & _).
  apply app_inv_tail in E. subst w2.
  apply mission_body_initial in Hb as (x & rest0 & E & Hx).
  destruct w as [|y w]; cbn [app] in E.
  - reflexivity.
  - inversion E; subst y. apply mission_initial_plain in Hx as [Hs Hp].
    destruct (@strip_head_kept x w Hs) as [t ->]. exact Hp.
Qed.

Lemma keyword_label_not_p (text l : str) :
  In l (keyword_hits text) -> starts_with_p l = false.
Proof.
  unfold keyword_hits. intros H. apply in_map_iff in H as (kw & <- & H).
  apply filter_In in H as [H _]. unfold Adi.keywords in H. cbn [In] in H.
  repeat (destruct H as [<-|H]; [reflexivity|]). contradiction.
Qed.

Lemma dict_get_In {V} (d : list (str * V)) (k : str) (v : V) :
  dict_get d k = Some v -> In v (map snd d).
Proof.
  induction d as [|[k' v'] d IH]; cbn [dict_get map snd In]; [discriminate|].
  destruct (str_eqb k' k); [|auto]. intros E. inversion E. now left.
Qed.

Lemma organism_label_not_p (text org : str) :
  In org (Adi.organisms text) -> starts_with_p (Adi.org_label org) = false.
Proof.
  intros H. unfold Adi.org_label, dict_get_default.
  destruct (dict_get Adi.organism_mapping (lower org)) as [v|] eqn:E.
  - apply dict_get_In in E. unfold Adi.organism_mapping in E. cbn [map snd In] in E.
    repeat (destruct E as [<-|E]; [reflexivity|]). contradiction.
  - destruct (organism_token text org H) as (s & w0 & rest' & Hs & _ & Hsp).
    unfold organism_words in Hs. cbn [In] in Hs. unfold spells in Hsp.
    repeat (destruct Hs as [<-|Hs];
            [cbn [list_ascii_of_string] in Hsp;
             inversion Hsp as [|c x cs w Hcx Hrest]; subst;
             eapply title_not_p; [exact Hcx|reflexivity]|]).
    contradiction.
Qed.

(** No entity is a Publication node and no entity label is a Publication
    key. *)
Lemma doc_item_entity (d : list (str * str)) (it : node_type * Z * str) :
  In it (doc_items d) ->
  fst (fst it) <> Publication /\ starts_with_p (item_label it) = false.
Proof.
  unfold doc_items. intros H.
  apply in_app_or in H as [H|H]; [|apply in_app_or in H as [H|H]];
    apply in_map_iff in H as (l & <- & H); cbn [fst snd item_label];
    (split; [discriminate|]).
  - eapply mission_label_not_p; eassumption.
  - eapply keyword_label_not_p; eassumption.
  - apply in_map_iff in H as (org & <- & H).
    eapply organism_label_not_p; eassumption.
Qed.

(** Where the edges of the assembled graph come from. *)
Lemma fold_add_item_edges_from (pub_id : str) (items : list (node_type * Z * str)) :
  forall (G : graph) (e : str * str),
  has_node G pub_id = true ->
  In e (edges (fold_left (add_item pub_id) items G)) ->
  In e (edges G) \/ exists it, In it items /\ e = (pub_id, item_label it).
Proof.
  induction items as [|it items IH]; intros G e Hp H; cbn [fold_left] in H.
  - now left.
  - apply IH in H.
    + destruct H as [H|(it' & Hin & ->)].
      * rewrite add_item_edges in H by assumption.
        destruct (has_edge G pub_id (item_label it)); [now left|].
        apply in_app_or in H as [H|[<-|[]]]; [now left|].
        right. exists it. split; [now left|reflexivity].
      * right. exists it'. split; [now right|reflexivity].
    + rewrite add_item_has_node, Hp by assumption. reflexivity.
Qed.

Lemma build_edges_from (data : list (str * doc)) :
  forall (G : graph) (e : str * str),
  In e (edges (fold_left Adi.add_document data G)) ->
  In e (edges G)
  \/ exists doc_id d it,
       In (doc_id, Dict d) data /\ accepted d = true
       /\ In it (doc_items d) /\ e = (pub_key doc_id, item_label it).
Proof.
  induction data as [|item data IH]; intros G e H; cbn [fold_left] in H.
  - now left.
  - apply IH in H as [H|(doc_id & d & it & Hin & Ha & Hit & ->)].
    + destruct item as [doc_id [d|]]; [|now left].
      rewrite add_document_items in H. destruct (accepted d) eqn:Ea; [|now left].
      apply fold_add_item_edges_from in H; [|apply has_node_add_node_same].
      destruct H as [H|(it & Hit & ->)].
      * rewrite add_node_edges in H. now left.
      * right. exists doc_id, d, it. split; [now left|]. repeat split; assumption.
    + right. exists doc_id, d, it. split; [now right|]. repeat split; assumption.
Qed.

Lemma neighbors_inv (G : graph) (n m : str) :
  In m (neighbors G n) ->
  exists e, In e (edges G)
            /\ ((fst e = n /\ snd e = m) \/ (snd e = n /\ fst e = m)).
Proof.
  unfold neighbors. intros H. apply in_flat_map in H as (e & He & H).
  exists e. split; [assumption|].
  destruct (str_eqb (fst e) n) eqn:E1.
  - apply str_eqb_eq in E1. destruct H as [<-|[]]. now left.
  - destruct (str_eqb (snd e) n) eqn:E2; [|contradiction].
    apply str_eqb_eq in E2. destruct H as [<-|[]]. now right.
Qed.

(** In an assembled graph the neighbours of an entity node are Publication
    nodes: every edge joins a Publication node and an entity node. *)
Lemma assembled_neighbors (data : list (str * doc)) (n : str) (d : attrs) :
  In (n, d) (nodes (Adi.build_graph data)) ->
  has_type Publication d = false ->
  forall m d', In m (neighbors (Adi.build_graph data) n) ->
               In (m, d') (nodes (Adi.build_graph data)) ->
               has_type Publication d' = true.
Proof.
  unfold Adi.build_graph. intros Hn Hd m d' Hm Hm'.
  assert (Hnp : starts_with_p n = false).
  { apply build_from in Hn as [[]|(i & r & _ & _ & [[-> ->]|(it & Hit & -> & _)])].
    - discriminate Hd.
    - now apply (doc_item_entity r). }
  apply neighbors_inv in Hm as (e & He & Hnm).
  apply build_edges_from in He as [[]|(i & r & it & _ & _ & Hit & ->)].
  cbn [fst snd] in Hnm. destruct Hnm as [[E _]|[_ E]].
  - rewrite <- E, pub_key_p in Hnp. discriminate Hnp.
  - subst m.
    apply build_from in Hm' as [[]|(i' & r' & _ & _ & [[_ ->]|(it' & Hit' & E' & _)])].
    + reflexivity.
    + destruct (doc_item_entity r' it' Hit') as [_ Hp].
      rewrite <- E', pub_key_p in Hp. discriminate Hp.
Qed.

End KeySpaces.

(** ** The cap and the type filter *)

Section Cap.
Context {U : unicode_db}.


End Cap.


(** ** Entity nodes left without a displayed publication *)

Section Orphans.
Context {U : unicode_db}.

(** C5.  An entity node of the projected graph whose type is selected is
    displayed whatever the cap does to the publications; it is never checked
    against the publications shown.  When its neighbours are Publication
    nodes and none of them is among the publications shown, it is displayed
    with degree 0.  In a graph built by the assembler the neighbours of an
    entity node are always Publication nodes. *)
Theorem orphan_entity_displayed :
  (forall (full_G : graph) (selected_types : list node_type) (max_pubs : Z)
          (n : str) (d : attrs),
     In (n, d) (nodes (Adi.sub_G full_G)) ->
     has_type Publication d = false ->
     Adi.type_selected selected_types d = true ->
     In (n, d) (nodes (Adi.final_G full_G selected_types max_pubs))
     /\ ((forall m d', In m (neighbors full_G n) -> In (m, d') (nodes full_G) ->
            has_type Publication d' = true) ->
         (forall m, In m (neighbors full_G n) ->
            ~ In m (Adi.pubs_to_show full_G selected_types max_pubs)) ->
         degree (Adi.final_G full_G selected_types max_pubs) n = 0%nat))
  /\ (forall (data : list (str * doc)) (selected_types : list node_type)
             (max_pubs : Z) (n : str) (d : attrs),
        let full_G := Adi.build_graph data in
        In (n, d) (nodes (Adi.sub_G full_G)) ->
        has_type Publication d = false ->
        Adi.type_selected selected_types d = true ->
        (forall m, In m (neighbors full_G n) ->
           ~ In m (Adi.pubs_to_show full_G selected_types max_pubs)) ->
        In (n, d) (nodes (Adi.final_G full_G selected_types max_pubs))
        /\ degree (Adi.final_G full_G selected_types max_pubs) n = 0%nat).
Proof.
  split.
  - intros full_G sel mx n d Hin He Hs. now apply orphan_entity_general.
  - intros data sel mx n d full_G Hin He Hs Hcut.
    destruct (@orphan_entity_general full_G sel mx n d Hin He Hs) as [H1 H2].
    split; [exact H1|]. apply H2; [|exact Hcut].
    apply assembled_neighbors with (d := d); [|exact He].
    unfold Adi.sub_G, subgraph in Hin. cbn [nodes] in Hin.
    now apply filter_In in Hin as [Hin _].
Qed.

End Orphans.

Lemma orphan_entity_displayed_witness :
  In (u "Muscle", Adi.node_attrs Keyword 10 (u "Muscle"))
     (nodes (Adi.final_G three_documents_graph [Publication; Keyword] 1))
  /\ degree (Adi.final_G three_documents_graph [Publication; Keyword] 1) (u "Muscle")
     = 0%nat.
Proof.
  apply (proj2 (orphan_entity_displayed (U := basic_latin)) three_documents
               [Publication; Keyword] 1%Z
               (u "Muscle") (Adi.node_attrs Keyword 10 (u "Muscle"))).
  - vm_compute. do 3 right. left. reflexivity.
  - reflexivity.
  - reflexivity.
  - intros m Hm Hs. vm_compute in Hm. destruct Hm as [<-|[]].
    vm_compute in Hs. destruct Hs as [Hs|[]]. discriminate Hs.
Defined.

(** * Further properties of the code *)

Ltac pick := cbn [In]; repeat (first [left; reflexivity | right]).

(** ** What is in the assembled graph *)

Section Contents.
Context {U : unicode_db}.

Lemma build_start :
  NoDup (map fst (nodes empty)) /\ entity_keyed empty.
Proof. split; [constructor|intros k a []]. Qed.

Lemma has_edge_sym (G : graph) (a b : str) : has_edge G a b = has_edge G b a.
Proof.
  unfold has_edge. induction (edges G) as [|e es IH]; [reflexivity|].
  cbn [existsb]. rewrite IH. f_equal. unfold joins. apply orb_comm.
Qed.

Lemma has_edge_In (G : graph) (a b : str) :
  has_edge G a b = true <->
  In (a, b) (edges G) \/ In (b, a) (edges G).
Proof.
  unfold has_edge. rewrite existsb_exists. split.
  - intros ([x y] & Hin & Hj). unfold joins in Hj. cbn [fst snd] in Hj.
    apply orb_true_iff in Hj as [Hj|Hj]; apply andb_true_iff in Hj as [H1 H2];
      apply str_eqb_eq in H1, H2; subst; tauto.
  - intros [H|H]; eexists; (split; [exact H|]); unfold joins; cbn [fst snd];
      rewrite !str_eqb_refl; cbn; auto using orb_true_r.
Qed.

Lemma node_iff (data : list (str * doc)) (k : str) :
  has_node (Adi.build_graph data) k = true <->
  exists doc_id d,
    In (doc_id, Dict d) data /\ accepted d = true
    /\ (k = pub_key doc_id \/ In k (doc_labels d)).
Proof.
  destruct build_start as [H0 K0].
  destruct (@build_inv U data empty H0 K0) as (_ & _ & _ & _ & B5).
  fold (Adi.build_graph data) in B5. split.
  - intros H. apply has_node_In in H. apply in_map_iff in H as ([k' a] & E & H).
    cbn [fst] in E. subst k'. unfold Adi.build_graph in H.
    apply build_from in H as [[]|(i & d & Hin & Ha & Hk)].
    exists i, d. split; [assumption|]. split; [assumption|].
    destruct Hk as [[-> _]|(it & Hit & -> & _)]; [now left|].
    right. unfold doc_labels. now apply in_map.
  - intros (i & d & Hin & Ha & [->|Hk]).
    + exact (proj1 (B5 i d Hin Ha)).
    + unfold doc_labels in Hk. apply in_map_iff in Hk as (it & <- & Hit).
      exact (proj1 (proj2 (B5 i d Hin Ha) it Hit)).
Qed.

Lemma edge_iff (data : list (str * doc)) (a b : str) :
  has_edge (Adi.build_graph data) a b = true <->
  exists doc_id d l,
    In (doc_id, Dict d) data /\ accepted d = true /\ In l (doc_labels d)
    /\ ((a = pub_key doc_id /\ b = l) \/ (a = l /\ b = pub_key doc_id)).
Proof.
  destruct build_start as [H0 K0].
  destruct (@build_inv U data empty H0 K0) as (_ & _ & _ & _ & B5).
  fold (Adi.build_graph data) in B5. split.
  - intros H. apply has_edge_In in H. unfold Adi.build_graph in H.
    destruct H as [H|H];
      apply build_edges_from in H as [[]|(i & d & it & Hin & Ha & Hit & E)];
      inversion E; subst; exists i, d, (item_label it);
      (split; [assumption|]); (split; [assumption|]);
      (split; [unfold doc_labels; now apply in_map|]); tauto.
  - intros (i & d & l & Hin & Ha & Hl & Hab).
    unfold doc_labels in Hl. apply in_map_iff in Hl as (it & <- & Hit).
    pose proof (proj2 (proj2 (B5 i d Hin Ha) it Hit)) as He.
    destruct Hab as [[-> ->]|[-> ->]]; [exact He|].
    now rewrite has_edge_sym.
Qed.

(** X1.  The node keys of the assembled graph are the Publication keys of the
    accepted documents and the labels they yield, and its edges are the
    pairs of an accepted document's Publication key and one of its labels:
    nothing else is a node or an edge. *)
Theorem graph_contents (data : list (str * doc)) :
  (forall k,
     has_node (Adi.build_graph data) k = true <->
     exists doc_id d,
       In (doc_id, Dict d) data /\ accepted d = true
       /\ (k = pub_key doc_id \/ In k (doc_labels d)))
  /\ (forall a b,
        has_edge (Adi.build_graph data) a b = true <->
        exists doc_id d l,
          In (doc_id, Dict d) data /\ accepted d = true /\ In l (doc_labels d)
          /\ ((a = pub_key doc_id /\ b = l) \/ (a = l /\ b = pub_key doc_id))).
Proof.
  split.
  - intros k. apply node_iff.
  - intros a b. apply edge_iff.
Qed.

End Contents.

(** ** The graph does not depend on the order of the records *)

Section Order.
Context {U : unicode_db}.

(** X2.  Node keys and edges depend only on which records there are: more
    records give at least the same nodes and edges, and two mappings with the
    same records, in whatever order, give the same node keys and the same
    edges. *)
Theorem graph_order_independent (data data' : list (str * doc)) :
  ((forall x, In x data -> In x data') ->
   (forall k, has_node (Adi.build_graph data) k = true ->
              has_node (Adi.build_graph data') k = true)
   /\ (forall a b, has_edge (Adi.build_graph data) a b = true ->
                   has_edge (Adi.build_graph data') a b = true))
  /\ ((forall x, In x data <-> In x data') ->
      (forall k, has_node (Adi.build_graph data) k
                 = has_node (Adi.build_graph data') k)
      /\ (forall a b, has_edge (Adi.build_graph data) a b
                      = has_edge (Adi.build_graph data') a b)).
Proof.
  assert (Hmono : forall d1 d2 : list (str * doc),
            (forall x, In x d1 -> In x d2) ->
            (forall k, has_node (Adi.build_graph d1) k = true ->
                       has_node (Adi.build_graph d2) k = true)
            /\ (forall a b, has_edge (Adi.build_graph d1) a b = true ->
                            has_edge (Adi.build_graph d2) a b = true)).
  { intros d1 d2 Hincl.
    split.
    - intros k Hk. apply node_iff. apply node_iff in Hk as (i & d & Hin & Hrest).
      exists i, d. split; [now apply Hincl|exact Hrest].
    - intros a b Hab. apply edge_iff. apply edge_iff in Hab as (i & d & l & Hin & Hrest).
      exists i, d, l. split; [now apply Hincl|exact Hrest]. }
  split; [apply Hmono|].
  intros Hsame.
  destruct (Hmono data data' (fun x => proj1 (Hsame x))) as [N1 E1].
  destruct (Hmono data' data (fun x => proj2 (Hsame x))) as [N2 E2].
  split.
  - intros k. apply eq_true_iff_eq. split; auto.
  - intros a b. apply eq_true_iff_eq. split; auto.
Qed.

End Order.

(** ** The shape of nodes and edges *)

Section Shapes.
Context {U : unicode_db}.

Lemma doc_item_shape (d : list (str * str)) (it : node_type * Z * str) :
  In it (doc_items d) ->
  (exists l, it = (Mission, 14%Z, l))
  \/ (exists l, it = (Keyword, 10%Z, l) /\ In l (map snd Adi.keywords))
  \/ (exists l, it = (Organism, 12%Z, l)).
Proof.
  unfold doc_items. intros H.
  apply in_app_or in H as [H|H]; [|apply in_app_or in H as [H|H]];
    apply in_map_iff in H as (l & <- & H).
  - left. now exists l.
  - right. left. exists l. split; [reflexivity|].
    unfold keyword_hits in H. apply in_map_iff in H as (kw & <- & H).
    apply filter_In in H as [H _]. now apply in_map.
  - right. right. now exists l.
Qed.

(** X3.  Every node of the assembled graph carries all four attributes, with
    the size and color of its type: a Publication node (size 18) is keyed
    [pub_] plus the id of an accepted document and labelled with at most the
    first 100 characters of its Title; every other node is a Mission (14),
    Keyword (10) or Organism (12) node, keyed by its label, whose key does
    not start like a Publication key; a Keyword node is one of the twelve
    lexicon labels.  No node has type Location. *)
Theorem node_shapes (data : list (str * doc)) (k : str) (a : attrs) :
  In (k, a) (nodes (Adi.build_graph data)) ->
  exists t z l,
    a = {| a_type := Some t; a_color := Some (Adi.type_colors t);
           a_size := Some z; a_label := Some l |}
    /\ In (t, z) [(Publication, 18%Z); (Mission, 14%Z); (Keyword, 10%Z);
                  (Organism, 12%Z)]
    /\ (t = Publication ->
        (List.length l <= 100)%nat
        /\ exists doc_id d,
             In (doc_id, Dict d) data /\ accepted d = true
             /\ k = pub_key doc_id
             /\ l = firstn 100 (dict_get_default d (u "Title") []))
    /\ (t <> Publication -> l = k /\ starts_with_p k = false)
    /\ (t = Keyword -> In k (map snd Adi.keywords)).
Proof.
  unfold Adi.build_graph. intros H.
  apply build_from in H as [[]|(i & d & Hin & Ha & [[-> ->]|(it & Hit & -> & ->)])].
  - exists Publication, 18%Z, (firstn 100 (dict_get_default d (u "Title") [])).
    split; [reflexivity|]. split; [pick|]. split; [|split; [congruence|discriminate]].
    intros _. split; [apply firstn_le_length|]. exists i, d. auto.
  - destruct (doc_item_entity d it Hit) as [Ht Hp].
    destruct (doc_item_shape d it Hit) as [[l ->]|[[l [-> Hl]]|[l ->]]];
      eexists; eexists; exists l; (split; [reflexivity|]); (split; [pick|]);
      cbn [item_label snd] in *;
      (split; [discriminate|]); (split; [auto|]); try discriminate; auto.
Qed.

Lemma joins_same_pair (a b p l : str) (e : str * str) :
  joins a b (p, l) = true -> joins a b e = joins p l e.
Proof.
  unfold joins. cbn [fst snd]. intros H.
  apply orb_true_iff in H as [H|H]; apply andb_true_iff in H as [H1 H2];
    apply str_eqb_eq in H1, H2; subst; [reflexivity|apply orb_comm].
Qed.

Lemma no_edge_filter (G : graph) (a b : str) :
  has_edge G a b = false -> filter (joins a b) (edges G) = [].
Proof.
  unfold has_edge. induction (edges G) as [|e es IH]; [reflexivity|].
  cbn [existsb filter]. intros H. apply orb_false_iff in H as [H1 H2].
  rewrite H1. now apply IH.
Qed.

Lemma add_item_simple (pub_id : str) (G : graph) (it : node_type * Z * str) :
  has_node G pub_id = true -> simple G -> simple (add_item pub_id G it).
Proof.
  intros Hp Hs a b. rewrite add_item_edges by assumption.
  destruct (has_edge G pub_id (item_label it)) eqn:E; [apply Hs|].
  rewrite filter_app, length_app. cbn [filter].
  destruct (joins a b (pub_id, item_label it)) eqn:J.
  - assert (Hf : filter (joins a b) (edges G) = []).
    { rewrite (filter_ext _ _
                 (fun e => @joins_same_pair a b pub_id (item_label it) e J)).
      now apply no_edge_filter. }
    rewrite Hf. cbn. lia.
  - specialize (Hs a b). cbn [List.length]. lia.
Qed.

Lemma fold_add_item_simple (pub_id : str) (items : list (node_type * Z * str)) :
  forall G, has_node G pub_id = true -> simple G ->
            simple (fold_left (add_item pub_id) items G).
Proof.
  induction items as [|it items IH]; intros G Hp Hs; cbn [fold_left]; [assumption|].
  apply IH.
  - rewrite add_item_has_node, Hp by assumption. reflexivity.
  - now apply add_item_simple.
Qed.

Lemma build_simple (data : list (str * doc)) :
  forall G, simple G -> simple (fold_left Adi.add_document data G).
Proof.
  induction data as [|[i [d|]] data IH]; intros G Hs; cbn [fold_left];
    [assumption| |now apply IH].
  apply IH. rewrite add_document_items. destruct (accepted d); [|assumption].
  apply fold_add_item_simple; [apply has_node_add_node_same|].
  intros a b. rewrite add_node_edges. apply Hs.
Qed.

Lemma has_node_entry (G : graph) (k : str) :
  has_node G k = true -> exists a, In (k, a) (nodes G).
Proof.
  intros H. apply has_node_In in H. apply in_map_iff in H as ([k' a] & E & H).
  cbn [fst] in E. subst k'. now exists a.
Qed.

(** X4.  Every edge of the assembled graph goes from a Publication node to a
    Mission, Keyword or Organism node, both present in the graph; so no edge
    is a self-loop and none joins two publications or two entities; and no
    two edges join the same pair of nodes. *)
Theorem edges_join_publication_and_entity (data : list (str * doc)) :
  (forall a b, In (a, b) (edges (Adi.build_graph data)) ->
     a <> b
     /\ (exists da, In (a, da) (nodes (Adi.build_graph data)))
     /\ (forall da, In (a, da) (nodes (Adi.build_graph data)) ->
                    a_type da = Some Publication)
     /\ (exists db, In (b, db) (nodes (Adi.build_graph data)))
     /\ (forall db, In (b, db) (nodes (Adi.build_graph data)) ->
                    In (a_type db) [Some Mission; Some Keyword; Some Organism]))
  /\ (forall a b,
        (List.length (filter (joins a b) (edges (Adi.build_graph data))) <= 1)%nat).
Proof.
  split.
  - intros a b H.
    assert (He : has_edge (Adi.build_graph data) a b = true)
      by (apply has_edge_In; now left).
    unfold Adi.build_graph in H.
    apply build_edges_from in H as [[]|(i & d & it & Hin & Ha & Hit & E)].
    inversion E; subst a b; clear E.
    destruct (doc_item_entity d it Hit) as [_ Hp].
    destruct build_start as [H0 K0].
    destruct (@build_inv U data empty H0 K0) as (_ & _ & _ & _ & B5).
    fold (Adi.build_graph data) in B5.
    destruct (B5 i d Hin Ha) as [Np Hits]. destruct (Hits it Hit) as [Nl _].
    split; [|split; [|split; [|split]]].
    + intros E. rewrite <- E, pub_key_p in Hp. discriminate Hp.
    + now apply has_node_entry.
    + intros da Hda. unfold Adi.build_graph in Hda.
      apply build_from in Hda
        as [[]|(i' & d' & _ & _ & [[_ ->]|(it' & Hit' & E' & _)])]; [reflexivity|].
      destruct (doc_item_entity d' it' Hit') as [_ Hp'].
      rewrite <- E', pub_key_p in Hp'. discriminate Hp'.
    + now apply has_node_entry.
    + intros db Hdb. unfold Adi.build_graph in Hdb.
      apply build_from in Hdb
        as [[]|(i' & d' & _ & _ & [[E' _]|(it' & Hit' & _ & ->)])].
      * rewrite E', pub_key_p in Hp. discriminate Hp.
      * destruct (doc_item_shape d' it' Hit') as [[l ->]|[[l [-> _]]|[l ->]]];
          cbn; tauto.
  - apply build_simple. intros a b. cbn. lia.
Qed.

End Shapes.

(** ** The Publication nodes, in order *)

Section Publications.
Context {U : unicode_db}.

Lemma filter_update_node (f : str * attrs -> bool) (l : list (str * attrs))
    (n : str) (a : attrs) :
  (forall old, In (n, old) l -> f (n, old) = false /\ f (n, update old a) = false) ->
  filter f (update_node l n a) = filter f l.
Proof.
  induction l as [|[k old] l IH]; intros H; [reflexivity|]. cbn [update_node].
  destruct (str_eqb k n) eqn:E.
  - apply str_eqb_eq in E. subst k. destruct (H old (or_introl eq_refl)) as [H1 H2].
    cbn [filter]. now rewrite H1, H2.
  - cbn [filter]. rewrite IH; [reflexivity|]. intros o Ho. apply H. now right.
Qed.

Lemma add_entity_node_pubs (G : graph) (t : node_type) (z : Z) (l : str) :
  typed_by_key G -> starts_with_p l = false -> t <> Publication ->
  nodes_of_type (add_node G l (Adi.node_attrs t z l)) Publication
  = nodes_of_type G Publication
  /\ typed_by_key (add_node G l (Adi.node_attrs t z l)).
Proof.
  intros Hk Hl Ht.
  assert (Hnew : has_type Publication (Adi.node_attrs t z l) = false)
    by (destruct t; try reflexivity; contradiction).
  split.
  - unfold nodes_of_type, add_node. destruct (has_node G l); cbn [nodes].
    + f_equal. apply filter_update_node. intros old Ho. cbn [snd].
      split; [rewrite (Hk l old Ho); exact Hl|exact Hnew].
    + rewrite filter_app. cbn [filter snd]. rewrite Hnew. now rewrite app_nil_r.
  - intros k a Hin. apply add_node_In in Hin as [Hin|[-> ->]]; [now apply Hk|].
    now rewrite Hnew, Hl.
Qed.

Lemma fold_add_item_pubs (pub_id : str) (items : list (node_type * Z * str)) :
  forall G,
  has_node G pub_id = true -> typed_by_key G ->
  (forall it, In it items ->
     fst (fst it) <> Publication /\ starts_with_p (item_label it) = false) ->
  nodes_of_type (fold_left (add_item pub_id) items G) Publication
  = nodes_of_type G Publication
  /\ typed_by_key (fold_left (add_item pub_id) items G).
Proof.
  induction items as [|it items IH]; intros G Hp Hk Hit; cbn [fold_left];
    [split; [reflexivity|assumption]|].
  destruct (Hit it (or_introl eq_refl)) as [Ht Hl].
  destruct (@add_entity_node_pubs G (fst (fst it)) (snd (fst it)) (item_label it)
              Hk Hl Ht) as [E1 K1].
  assert (Hn : nodes (add_item pub_id G it)
               = nodes (add_node G (item_label it) (item_attrs it)))
    by now apply add_item_nodes.
  destruct (IH (add_item pub_id G it)) as [E2 K2].
  - rewrite add_item_has_node, Hp by assumption. reflexivity.
  - intros k a Hin. rewrite Hn in Hin. now apply K1.
  - intros it' Hin. apply Hit. now right.
  - split; [|exact K2]. rewrite E2. unfold nodes_of_type. rewrite Hn. exact E1.
Qed.

Lemma add_document_pubs (G : graph) (doc_id : str) (d : list (str * str)) :
  typed_by_key G -> has_node G (pub_key doc_id) = false -> accepted d = true ->
  nodes_of_type (Adi.add_document G (doc_id, Dict d)) Publication
  = nodes_of_type G Publication ++ [pub_key doc_id]
  /\ typed_by_key (Adi.add_document G (doc_id, Dict d)).
Proof.
  intros Hk Hfresh Ha. rewrite add_document_items, Ha.
  assert (K0 : typed_by_key (add_node G (pub_key doc_id) (pub_attrs d))).
  { intros k a Hin. apply add_node_In in Hin as [Hin|[-> ->]]; [now apply Hk|].
    reflexivity. }
  destruct (@fold_add_item_pubs (pub_key doc_id) (doc_items d)
              (add_node G (pub_key doc_id) (pub_attrs d)))
    as [E K]; [apply has_node_add_node_same|exact K0|apply doc_item_entity|].
  split; [|exact K]. rewrite E. unfold nodes_of_type, add_node.
  rewrite Hfresh. cbn [nodes]. rewrite filter_app, map_app. reflexivity.
Qed.

Lemma pub_key_inj (a b : str) : pub_key a = pub_key b -> a = b.
Proof. unfold pub_key. apply app_inv_head. Qed.

Lemma add_document_new_keys (G : graph) (item : str * doc) (k : str) :
  has_node (Adi.add_document G item) k = true ->
  has_node G k = true \/ k = pub_key (fst item) \/ starts_with_p k = false.
Proof.
  intros H. apply has_node_entry in H as [a H].
  apply add_document_from in H as [H|(i & d & -> & _ & [[-> _]|(it & Hit & -> & _)])].
  - left. apply has_node_In. change k with (fst (k, a)). now apply in_map.
  - right. now left.
  - right. right. now apply (doc_item_entity d).
Qed.

Lemma build_pubs (data : list (str * doc)) :
  forall G,
  typed_by_key G -> NoDup (map fst data) ->
  (forall i, In i (map fst data) -> has_node G (pub_key i) = false) ->
  nodes_of_type (fold_left Adi.add_document data G) Publication
  = nodes_of_type G Publication ++ map pub_key (accepted_ids data).
Proof.
  induction data as [|[i doc] data IH]; intros G Hk Hd Hfresh; cbn [fold_left].
  - cbn. now rewrite app_nil_r.
  - cbn [map fst] in Hd. inversion Hd as [|? ? Hi Hd']; subst.
    assert (Hnext : forall j, In j (map fst data) ->
              has_node (Adi.add_document G (i, doc)) (pub_key j) = false).
    { intros j Hj. destruct (has_node (Adi.add_document G (i, doc)) (pub_key j)) eqn:E;
        [|reflexivity].
      apply add_document_new_keys in E as [E|[E|E]].
      - rewrite Hfresh in E by (right; exact Hj). discriminate E.
      - apply pub_key_inj in E. cbn [fst] in E. subst j. contradiction.
      - rewrite pub_key_p in E. discriminate E. }
    unfold accepted_ids. cbn [flat_map fst snd]. fold (accepted_ids data).
    destruct doc as [d|].
    + destruct (accepted d) eqn:Ea.
      * destruct (@add_document_pubs G i d Hk) as [E K];
          [apply Hfresh; now left|exact Ea|].
        rewrite IH; [|exact K|exact Hd'|exact Hnext].
        rewrite E, map_app, <- app_assoc. reflexivity.
      * assert (Eg : Adi.add_document G (i, Dict d) = G)
          by now apply add_document_rejected.
        rewrite Eg in *. cbn [app]. now apply IH.
    + cbn [app]. apply IH; assumption.
Qed.

(** X5.  When the document ids are distinct (the keys of a dict), the
    Publication nodes of the assembled graph are [pub_] plus the id of each
    accepted document, once each and in the order of the mapping; so there
    are as many Publication nodes as accepted documents. *)
Theorem publications_in_order (data : list (str * doc))
    (Hids : NoDup (map fst data)) :
  nodes_of_type (Adi.build_graph data) Publication = map pub_key (accepted_ids data)
  /\ AdiPage.total_publications (Adi.build_graph data)
     = Z.of_nat (List.length (accepted_ids data)).
Proof.
  assert (E : nodes_of_type (Adi.build_graph data) Publication
              = map pub_key (accepted_ids data)).
  { unfold Adi.build_graph. rewrite build_pubs.
    - reflexivity.
    - intros k a [].
    - exact Hids.
    - reflexivity. }
  split; [exact E|].
  unfold AdiPage.total_publications. now rewrite E, length_map.
Qed.

End Publications.

(** ** The projection and the displayed graph *)

Section Projection.
Context {U : unicode_db}.

Lemma filter_all {A} (f : A -> bool) (l : list A) :
  (forall x, In x l -> f x = true) -> filter f l = l.
Proof.
  induction l as [|x l IH]; intros H; [reflexivity|]. cbn [filter].
  rewrite (H x (or_introl eq_refl)). f_equal. apply IH. intros y Hy. apply H. now right.
Qed.

Lemma has_edge_neighbors (G : graph) (a b : str) :
  has_edge G a b = true -> In b (neighbors G a).
Proof.
  intros H. apply has_edge_In in H as [H|H].
  - now apply (proj1 (neighbors_In G a (a, b) H)).
  - now apply (proj2 (neighbors_In G a (b, a) H)).
Qed.

Lemma pub_in_all (data : list (str * doc)) (i : str) (d : list (str * str)) :
  In (i, Dict d) data -> accepted d = true ->
  In (pub_key i) (Adi.pub_nodes_all (Adi.build_graph data)).
Proof.
  intros Hin Ha. destruct build_start as [H0 K0].
  destruct (@build_inv U data empty H0 K0) as (_ & _ & _ & _ & B5).
  fold (Adi.build_graph data) in B5.
  destruct (B5 i d Hin Ha) as [Np _]. apply has_node_entry in Np as [a Hn].
  unfold Adi.pub_nodes_all, nodes_of_type.
  change (pub_key i) with (fst (pub_key i, a)). apply in_map. apply filter_In.
  split; [exact Hn|]. cbn [snd]. unfold Adi.build_graph in Hn.
  apply build_from in Hn
    as [[]|(i' & d' & _ & _ & [[_ ->]|(it' & Hit' & E' & _)])]; [reflexivity|].
  destruct (doc_item_entity d' it' Hit') as [_ Hp'].
  rewrite <- E', pub_key_p in Hp'. discriminate Hp'.
Qed.

Lemma label_considered (data : list (str * doc)) (i : str) (d : list (str * str))
    (it : node_type * Z * str) :
  In (i, Dict d) data -> accepted d = true -> In it (doc_items d) ->
  In (item_label it) (Adi.nodes_to_consider (Adi.build_graph data)).
Proof.
  intros Hin Ha Hit. destruct build_start as [H0 K0].
  destruct (@build_inv U data empty H0 K0) as (_ & _ & _ & _ & B5).
  fold (Adi.build_graph data) in B5.
  destruct (B5 i d Hin Ha) as [_ Hits]. destruct (Hits it Hit) as [_ He].
  unfold Adi.nodes_to_consider. apply in_or_app. right.
  apply in_flat_map. exists (pub_key i). split; [now apply (pub_in_all data i d)|].
  now apply has_edge_neighbors.
Qed.

Lemma key_considered (data : list (str * doc)) (k : str) :
  has_node (Adi.build_graph data) k = true ->
  In k (Adi.nodes_to_consider (Adi.build_graph data)).
Proof.
  intros H. apply node_iff in H as (i & d & Hin & Ha & [->|Hk]).
  - unfold Adi.nodes_to_consider. apply in_or_app. left. now apply (pub_in_all data i d).
  - unfold doc_labels in Hk. apply in_map_iff in Hk as (it & <- & Hit).
    now apply (label_considered data i d).
Qed.

Lemma edge_ends_are_nodes (data : list (str * doc)) (e : str * str) :
  In e (edges (Adi.build_graph data)) ->
  has_node (Adi.build_graph data) (fst e) = true
  /\ has_node (Adi.build_graph data) (snd e) = true.
Proof.
  intros H. unfold Adi.build_graph in H.
  apply build_edges_from in H as [[]|(i & d & it & Hin & Ha & Hit & ->)].
  destruct build_start as [H0 K0].
  destruct (@build_inv U data empty H0 K0) as (_ & _ & _ & _ & B5).
  fold (Adi.build_graph data) in B5.
  destruct (B5 i d Hin Ha) as [Np Hits]. destruct (Hits it Hit) as [Nl _].
  split; assumption.
Qed.

Lemma projection_id (data : list (str * doc)) :
  Adi.sub_G (Adi.build_graph data) = Adi.build_graph data.
Proof.
  unfold Adi.sub_G, subgraph.
  rewrite !filter_all.
  - now destruct (Adi.build_graph data).
  - intros e He. destruct (edge_ends_are_nodes data e He) as [H1 H2].
    apply andb_true_iff. split; apply mem_In; now apply key_considered.
  - intros [k a] Hin. cbn [fst]. apply mem_In. apply key_considered.
    apply has_node_In. change k with (fst (k, a)). now apply in_map.
Qed.

(** X6.  For a graph built by the assembler the first stage of the selection
    drops nothing: every entity node has a Publication neighbour, so the
    projected graph is the whole graph. *)
Theorem projection_keeps_assembled_graph (data : list (str * doc)) :
  Adi.sub_G (Adi.build_graph data) = Adi.build_graph data
  /\ (forall k a, In (k, a) (nodes (Adi.build_graph data)) ->
        has_type Publication a = false ->
        exists p, In p (Adi.pub_nodes_all (Adi.build_graph data))
                  /\ has_edge (Adi.build_graph data) p k = true).
Proof.
  split; [apply projection_id|].
  intros k a Hin Ht. unfold Adi.build_graph in Hin.
  apply build_from in Hin
    as [[]|(i & d & Hd & Ha & [[_ ->]|(it & Hit & -> & _)])]; [discriminate Ht|].
  exists (pub_key i). split; [now apply (pub_in_all data i d)|].
  destruct build_start as [H0 K0].
  destruct (@build_inv U data empty H0 K0) as (_ & _ & _ & _ & B5).
  exact (proj2 (proj2 (B5 i d Hd Ha) it Hit)).
Qed.

End Projection.

Section Induced.
Variable full_G : graph.
Variable selected_types : list node_type.
Variable max_pubs : Z.

Lemma final_keys (k : str) :
  In k (map fst (nodes (Adi.final_G full_G selected_types max_pubs)))
  <-> In k (Adi.final_nodes_to_keep full_G selected_types max_pubs).
Proof.
  unfold Adi.final_G, subgraph. cbn [nodes]. split.
  - intros H. apply in_map_iff in H as (p & <- & H).
    apply filter_In in H as [_ H]. now apply mem_In.
  - intros H. pose proof H as H'. unfold Adi.final_nodes_to_keep in H'.
    apply in_map_iff in H' as (p & <- & Hp). apply filter_In in Hp as [Hp _].
    apply in_map. apply filter_In. split; [exact Hp|]. now apply mem_In.
Qed.

Lemma kept_considered (k : str) :
  In k (Adi.final_nodes_to_keep full_G selected_types max_pubs) ->
  In k (Adi.nodes_to_consider full_G).
Proof.
  unfold Adi.final_nodes_to_keep. intros H.
  apply in_map_iff in H as (p & <- & Hp). apply filter_In in Hp as [Hp _].
  unfold Adi.sub_G, subgraph in Hp. cbn [nodes] in Hp.
  apply filter_In in Hp as [_ Hp]. now apply mem_In.
Qed.

(** X7.  The displayed graph is the subgraph of the full graph induced on
    the displayed nodes: its nodes are nodes of the full graph with their
    attributes unchanged, and its edges are exactly the edges of the full
    graph with both ends displayed.  So both ends of every displayed edge
    are displayed nodes. *)
Theorem displayed_graph_is_induced :
  (forall n d, In (n, d) (nodes (Adi.final_G full_G selected_types max_pubs)) ->
               In (n, d) (nodes full_G))
  /\ (forall e, In e (edges (Adi.final_G full_G selected_types max_pubs)) <->
        In e (edges full_G)
        /\ In (fst e) (map fst (nodes (Adi.final_G full_G selected_types max_pubs)))
        /\ In (snd e) (map fst (nodes (Adi.final_G full_G selected_types max_pubs)))).
Proof.
  split.
  - intros n d H. unfold Adi.final_G, Adi.sub_G, subgraph in H. cbn [nodes] in H.
    apply filter_In in H as [H _]. now apply filter_In in H as [H _].
  - intros e. rewrite !final_keys.
    unfold Adi.final_G at 1, subgraph at 1. cbn [edges].
    rewrite filter_In, andb_true_iff, !mem_In.
    unfold Adi.sub_G, subgraph. cbn [edges].
    rewrite filter_In, andb_true_iff, !mem_In. split.
    + intros [[H _] [H1 H2]]. auto.
    + intros [H [H1 H2]]. split; [|auto]. split; [exact H|].
      split; now apply kept_considered.
Qed.

End Induced.

(** ** The sidebar controls *)

Section Controls.
Context {U : unicode_db}.

Lemma total_nonneg (G : graph) : (0 <= AdiPage.total_publications G)%Z.
Proof. unfold AdiPage.total_publications. lia. Qed.

Lemma slider_some (a b v : Z) :
  AdiPage.slider a b v = Some v <-> (a < b /\ a <= v <= b)%Z.
Proof.
  unfold AdiPage.slider.
  destruct (Z.ltb_spec a b), (Z.leb_spec a v), (Z.leb_spec v b); cbn [andb];
    split; intros Hs; try discriminate Hs; try reflexivity; lia.
Qed.

Lemma slider_none (a b v : Z) :
  AdiPage.slider a b v = None <-> ~ (a < b /\ a <= v <= b)%Z.
Proof.
  unfold AdiPage.slider.
  destruct (Z.ltb_spec a b), (Z.leb_spec a v), (Z.leb_spec v b); cbn [andb];
    split; intros Hs; try discriminate Hs; try reflexivity; lia.
Qed.

(** The first draw stops at the slider exactly when there is exactly one
    publication. *)
Lemma default_page_cases (G : graph) :
  (AdiPage.total_publications G = 1%Z -> AdiPage.default_page G = None)
  /\ (AdiPage.total_publications G <> 1%Z ->
      AdiPage.default_page G
      = Some (Adi.final_G G (AdiPage.actual_defaults G) (AdiPage.default_val G))).
Proof.
  assert (Ht : (0 <= AdiPage.total_publications G)%Z)
    by (unfold AdiPage.total_publications; lia).
  unfold AdiPage.default_page. split; intros H.
  - assert (E : AdiPage.slider (AdiPage.slider_min G) (AdiPage.slider_max G)
                               (AdiPage.default_val G) = None).
    { apply slider_none.
      unfold AdiPage.default_val, AdiPage.slider_min, AdiPage.slider_max.
      rewrite H. cbn. lia. }
    now rewrite E.
  - assert (E : AdiPage.slider (AdiPage.slider_min G) (AdiPage.slider_max G)
                               (AdiPage.default_val G)
                = Some (AdiPage.default_val G)).
    { apply slider_some.
      unfold AdiPage.default_val, AdiPage.slider_min, AdiPage.slider_max.
      destruct (Z.leb_spec 1 (AdiPage.total_publications G));
        destruct (Z.leb_spec 50 (AdiPage.total_publications G)); lia. }
    now rewrite E.
Qed.

Lemma shown_count (G : graph) (sel : list node_type) (v : Z) :
  NoDup (map fst (nodes G)) -> (0 <= v)%Z ->
  existsb (node_type_eqb Publication) sel = true ->
  nodes_of_type (Adi.final_G G sel v) Publication
  = firstn (Z.to_nat v) (nodes_of_type G Publication).
Proof.
  intros Hk Hv Hs.
  destruct (@view_general G sel v Hk Hv) as (E1 & E2 & _).
  rewrite (E2 Hs), firstn_min, E1. reflexivity.
Qed.

(** X8.  The arguments of the slider always satisfy
    [0 <= slider_min <= default_val <= slider_max], the default is at most
    50 and the maximum at most the number of publications (1 without any).
    But for a graph with exactly one Publication node the call is
    [slider(1, 1, 1)], which Streamlit rejects because the minimum is not
    below the maximum: the slider call of the first draw fails exactly when
    there is exactly one publication.  Whenever the slider accepts a value
    and the graph has a publication, a graph with distinct keys shows
    exactly that many Publication nodes when "Publication" is selected. *)
Theorem slider_range_and_count (G : graph) :
  ((0 <= AdiPage.slider_min G <= AdiPage.default_val G)%Z
   /\ (AdiPage.default_val G <= AdiPage.slider_max G)%Z
   /\ (AdiPage.default_val G <= 50)%Z
   /\ (AdiPage.slider_max G <= Z.max 1 (AdiPage.total_publications G))%Z)
  /\ (AdiPage.slider (AdiPage.slider_min G) (AdiPage.slider_max G)
                     (AdiPage.default_val G) = None
      <-> AdiPage.total_publications G = 1%Z)
  /\ (AdiPage.total_publications G = 1%Z ->
      AdiPage.slider_min G = 1%Z /\ AdiPage.slider_max G = 1%Z
      /\ AdiPage.default_val G = 1%Z)
  /\ (forall sel v,
        NoDup (map fst (nodes G)) ->
        (1 <= AdiPage.total_publications G)%Z ->
        AdiPage.slider (AdiPage.slider_min G) (AdiPage.slider_max G) v = Some v ->
        existsb (node_type_eqb Publication) sel = true ->
        List.length (nodes_of_type (Adi.final_G G sel v) Publication) = Z.to_nat v).
Proof.
  pose proof (total_nonneg G) as Ht.
  split; [|split; [|split]].
  - unfold AdiPage.default_val, AdiPage.slider_min, AdiPage.slider_max.
    destruct (Z.leb_spec 1 (AdiPage.total_publications G));
      destruct (Z.leb_spec 50 (AdiPage.total_publications G)); lia.
  - rewrite slider_none.
    unfold AdiPage.default_val, AdiPage.slider_min, AdiPage.slider_max.
    destruct (Z.leb_spec 1 (AdiPage.total_publications G));
      destruct (Z.leb_spec 50 (AdiPage.total_publications G)); lia.
  - intros E.
    unfold AdiPage.default_val, AdiPage.slider_min, AdiPage.slider_max.
    rewrite E. repeat split; reflexivity.
  - intros sel v Hk H1 Hv Hs. apply slider_some in Hv.
    unfold AdiPage.slider_min, AdiPage.slider_max in Hv.
    destruct (Z.leb_spec 1 (AdiPage.total_publications G)); [|lia].
    rewrite shown_count by (assumption || lia).
    rewrite length_firstn. unfold AdiPage.total_publications in *. lia.
Qed.

Lemma present_base (G : graph) (t : node_type) :
  In t (AdiPage.all_node_types G) <-> AdiPage.type_present G t = true.
Proof.
  unfold AdiPage.all_node_types. rewrite filter_In. split; [tauto|].
  intros H. split; [destruct t; pick|exact H].
Qed.

Lemma existsb_type (t : node_type) (l : list node_type) :
  existsb (node_type_eqb t) l = true <-> In t l.
Proof.
  rewrite existsb_exists. split.
  - intros (x & Hx & E). apply node_type_eqb_eq in E. now subst.
  - intros H. exists t. split; [exact H|]. now apply node_type_eqb_eq.
Qed.

Lemma assembled_type (data : list (str * doc)) (k : str) (a : attrs) :
  In (k, a) (nodes (Adi.build_graph data)) ->
  exists t, a_type a = Some t /\ In t AdiPage.desired_defaults.
Proof.
  unfold Adi.build_graph. intros H.
  apply build_from in H as [[]|(i & d & _ & _ & [[_ ->]|(it & Hit & _ & ->)])].
  - exists Publication. split; [reflexivity|]. unfold AdiPage.desired_defaults. pick.
  - destruct (doc_item_shape d it Hit) as [[l ->]|[[l [-> _]]|[l ->]]];
      eexists; (split; [reflexivity|]); unfold AdiPage.desired_defaults; pick.
Qed.

(** X9.  The options of the type selector are the types that occur in the
    graph, each once, by name in ascending order, and every default is one of
    the options.  For a graph built by the assembler "Location" is never an
    option and the defaults are all the options, so by default no node is
    hidden for its type. *)
Theorem type_options_and_defaults (G : graph) :
  (forall t, In t (AdiPage.all_node_types G) <-> AdiPage.type_present G t = true)
  /\ NoDup (AdiPage.all_node_types G)
  /\ sorted_names (AdiPage.all_node_types G) = true
  /\ (forall t, In t (AdiPage.actual_defaults G) -> In t (AdiPage.all_node_types G))
  /\ (forall data, G = Adi.build_graph data ->
        ~ In Location (AdiPage.all_node_types G)
        /\ (forall t, In t (AdiPage.all_node_types G) ->
                      In t (AdiPage.actual_defaults G))
        /\ (forall k a, In (k, a) (nodes G) ->
                        Adi.type_selected (AdiPage.actual_defaults G) a = true)).
Proof.
  split; [apply present_base|].
  split.
  { unfold AdiPage.all_node_types. apply NoDup_filter.
    repeat (constructor; [cbn [In]; intuition discriminate|]). constructor. }
  split.
  { unfold AdiPage.all_node_types. cbn [filter].
    destruct (AdiPage.type_present G Keyword), (AdiPage.type_present G Location),
      (AdiPage.type_present G Mission), (AdiPage.type_present G Organism),
      (AdiPage.type_present G Publication); reflexivity. }
  split.
  { intros t H. unfold AdiPage.actual_defaults in H. apply filter_In in H as [_ H].
    now apply existsb_type. }
  intros data ->.
  assert (Hocc : forall t, In t (AdiPage.all_node_types (Adi.build_graph data)) ->
                           In t AdiPage.desired_defaults).
  { intros t H. apply present_base in H. unfold AdiPage.type_present in H.
    apply existsb_exists in H as ([k a] & Hin & Ht). cbn [snd] in Ht.
    apply has_type_eq in Ht.
    destruct (assembled_type data k a Hin) as (t' & E & Hd). congruence. }
  split; [|split].
  - intros H. apply Hocc in H. unfold AdiPage.desired_defaults in H. cbn [In] in H.
    intuition discriminate.
  - intros t H. unfold AdiPage.actual_defaults. apply filter_In.
    split; [now apply Hocc|now apply existsb_type].
  - intros k a Hin. destruct (assembled_type data k a Hin) as (t & E & Hd).
    unfold Adi.type_selected. rewrite E. apply existsb_type.
    unfold AdiPage.actual_defaults. apply filter_In. split; [exact Hd|].
    apply existsb_type. apply present_base. unfold AdiPage.type_present.
    apply existsb_exists. exists (k, a). split; [exact Hin|]. cbn [snd].
    now apply has_type_eq.
Qed.

End Controls.

(** ** The page as it first appears *)

Section DefaultView.
Context {U : unicode_db}.

Lemma assembled_selected (data : list (str * doc)) (k : str) (a : attrs) :
  In (k, a) (nodes (Adi.build_graph data)) ->
  Adi.type_selected (AdiPage.actual_defaults (Adi.build_graph data)) a = true.
Proof.
  intros Hin. destruct (assembled_type data k a Hin) as (t & E & Hd).
  unfold Adi.type_selected. rewrite E. apply existsb_type.
  unfold AdiPage.actual_defaults. apply filter_In. split; [exact Hd|].
  apply existsb_type. apply present_base. unfold AdiPage.type_present.
  apply existsb_exists. exists (k, a). split; [exact Hin|]. cbn [snd].
  now apply has_type_eq.
Qed.

Lemma default_keeps_all (data : list (str * doc)) (p : str * attrs) :
  (AdiPage.total_publications (Adi.build_graph data) < 50)%Z ->
  In p (nodes (Adi.build_graph data)) ->
  Adi.keep_node (Adi.build_graph data)
    (AdiPage.actual_defaults (Adi.build_graph data))
    (AdiPage.default_val (Adi.build_graph data)) p = true.
Proof.
  intros Hlt Hin. destruct p as [n d].
  pose proof (assembled_selected data n d Hin) as Hs.
  unfold Adi.keep_node. rewrite Hs. cbn [negb].
  destruct (has_type Publication d) eqn:Ht; [|reflexivity].
  assert (Hn : In n (nodes_of_type (Adi.build_graph data) Publication)).
  { unfold nodes_of_type. change n with (fst (n, d)). apply in_map.
    apply filter_In. now split. }
  apply mem_In. unfold Adi.pubs_to_show.
  rewrite <- (pub_selected _ d Ht), Hs.
  unfold Adi.pubs_in_sub. rewrite projection_id.
  assert (Hpos : (1 <= AdiPage.total_publications (Adi.build_graph data))%Z).
  { unfold AdiPage.total_publications.
    destruct (nodes_of_type (Adi.build_graph data) Publication);
      [contradiction|cbn [List.length]; lia]. }
  unfold AdiPage.default_val, AdiPage.slider_max.
  destruct (50 <=? AdiPage.total_publications (Adi.build_graph data))%Z eqn:E50;
    [apply Z.leb_le in E50; lia|].
  destruct (1 <=? AdiPage.total_publications (Adi.build_graph data))%Z eqn:E1;
    [|apply Z.leb_gt in E1; lia].
  rewrite slice_to_nonneg by lia. unfold AdiPage.total_publications.
  rewrite Nat2Z.id, firstn_all. exact Hn.
Qed.

Lemma default_small (data : list (str * doc)) :
  (AdiPage.total_publications (Adi.build_graph data) < 50)%Z ->
  Adi.final_G (Adi.build_graph data)
    (AdiPage.actual_defaults (Adi.build_graph data))
    (AdiPage.default_val (Adi.build_graph data))
  = Adi.build_graph data.
Proof.
  intros Hlt.
  assert (Hkeep : Adi.final_nodes_to_keep (Adi.build_graph data)
                    (AdiPage.actual_defaults (Adi.build_graph data))
                    (AdiPage.default_val (Adi.build_graph data))
                  = map fst (nodes (Adi.build_graph data))).
  { unfold Adi.final_nodes_to_keep. rewrite projection_id. f_equal.
    apply filter_all. intros p Hp. now apply default_keeps_all. }
  unfold Adi.final_G. rewrite Hkeep, projection_id. unfold subgraph.
  rewrite !filter_all.
  - now destruct (Adi.build_graph data).
  - intros e He. destruct (edge_ends_are_nodes data e He) as [H1 H2].
    apply andb_true_iff. split; apply mem_In; now apply has_node_In.
  - intros p Hp. apply mem_In. now apply in_map.
Qed.

Lemma default_page_small (data : list (str * doc)) (shown : graph) :
  (AdiPage.total_publications (Adi.build_graph data) < 50)%Z ->
  AdiPage.default_page (Adi.build_graph data) = Some shown ->
  shown = Adi.build_graph data.
Proof.
  intros Hlt E.
  destruct (default_page_cases (Adi.build_graph data)) as [H1 H2].
  destruct (Z.eq_dec (AdiPage.total_publications (Adi.build_graph data)) 1) as [T|T].
  - rewrite (H1 T) in E. discriminate E.
  - rewrite (H2 T), default_small in E by exact Hlt. now inversion E.
Qed.

(** X10.  The page as it is first drawn, the controls at their defaults:
    with exactly one publication it stops at the slider call and shows no
    graph; with fewer than 50 publications, and not exactly one, it shows
    the whole assembled graph; with 50 or more it shows exactly the first 50
    Publication nodes. *)
Theorem default_view (data : list (str * doc)) :
  let G := Adi.build_graph data in
  (AdiPage.total_publications G = 1%Z -> AdiPage.default_page G = None)
  /\ ((AdiPage.total_publications G < 50)%Z ->
      AdiPage.total_publications G <> 1%Z ->
      AdiPage.default_page G = Some G)
  /\ ((50 <= AdiPage.total_publications G)%Z ->
      exists shown,
        AdiPage.default_page G = Some shown
        /\ nodes_of_type shown Publication
           = firstn 50 (nodes_of_type G Publication)).
Proof.
  cbv zeta.
  destruct (default_page_cases (Adi.build_graph data)) as [H1 H2].
  split; [exact H1|]. split.
  - intros Hlt Hne. now rewrite (H2 Hne), default_small.
  - intros Hge.
    eexists. split; [apply H2; lia|].
    assert (Hd : AdiPage.default_val (Adi.build_graph data) = 50%Z).
    { unfold AdiPage.default_val.
      destruct (50 <=? AdiPage.total_publications (Adi.build_graph data))%Z eqn:E;
        [reflexivity|apply Z.leb_gt in E; lia]. }
    rewrite Hd.
    assert (Hpub : exists n, In n (nodes_of_type (Adi.build_graph data) Publication)).
    { unfold AdiPage.total_publications in Hge.
      destruct (nodes_of_type (Adi.build_graph data) Publication) as [|n l];
        [cbn in Hge; lia|exists n; now left]. }
    destruct Hpub as [n Hn]. unfold nodes_of_type in Hn.
    apply in_map_iff in Hn as ([n' d] & _ & Hn). apply filter_In in Hn as [Hn Ht].
    cbn [snd] in Ht.
    rewrite shown_count; [reflexivity| |lia|].
    + destruct build_start as [H0 K0].
      exact (proj1 (@build_inv U data empty H0 K0)).
    + rewrite <- (pub_selected _ d Ht). now apply (assembled_selected data n').
Qed.

End DefaultView.

(** ** Where the records come from *)

Section Sources.
Context {U : unicode_db}.

Lemma str_eqb_comm (a b : str) : str_eqb a b = str_eqb b a.
Proof.
  destruct (str_eqb a b) eqn:E.
  - apply str_eqb_eq in E. subst. now rewrite str_eqb_refl.
  - symmetry. apply str_eqb_neq. apply str_eqb_neq in E. congruence.
Qed.

Lemma dict_set_keys {V} (d : list (str * V)) (k : str) (v : V) :
  map fst (AdiPage.dict_set d k v)
  = if mem k (map fst d) then map fst d else map fst d ++ [k].
Proof.
  induction d as [|[k' v'] d IH]; [reflexivity|]. cbn [AdiPage.dict_set map fst].
  unfold mem. cbn [existsb]. rewrite (str_eqb_comm k k').
  destruct (str_eqb k' k) eqn:E; cbn [map fst orb]; [reflexivity|].
  rewrite IH. fold (mem k (map fst d)). now destruct (mem k (map fst d)).
Qed.

Lemma dict_set_get {V} (d : list (str * V)) (k : str) (v : V) :
  dict_get (AdiPage.dict_set d k v) k = Some v.
Proof.
  induction d as [|[k' v'] d IH]; cbn [AdiPage.dict_set dict_get].
  - now rewrite str_eqb_refl.
  - destruct (str_eqb k' k) eqn:E; cbn [dict_get]; rewrite E; [reflexivity|exact IH].
Qed.

Lemma dict_set_get_other {V} (d : list (str * V)) (k k' : str) (v : V) :
  k' <> k -> dict_get (AdiPage.dict_set d k v) k' = dict_get d k'.
Proof.
  intros Hne. induction d as [|[k0 v0] d IH]; cbn [AdiPage.dict_set dict_get].
  - assert (E : str_eqb k k' = false) by (apply str_eqb_neq; congruence).
    now rewrite E.
  - destruct (str_eqb k0 k) eqn:E; cbn [dict_get].
    + apply str_eqb_eq in E. subst k0.
      assert (E' : str_eqb k k' = false) by (apply str_eqb_neq; congruence).
      now rewrite E'.
    + now rewrite IH.
Qed.

Lemma dict_set_fresh {V} (d : list (str * V)) (k : str) (v : V) :
  ~ In k (map fst d) -> AdiPage.dict_set d k v = d ++ [(k, v)].
Proof.
  induction d as [|[k' v'] d IH]; intros H; [reflexivity|].
  cbn [AdiPage.dict_set app]. cbn [map fst In] in H.
  assert (E : str_eqb k' k = false) by (apply str_eqb_neq; tauto).
  rewrite E. f_equal. apply IH. tauto.
Qed.

Lemma mongo_fold_distinct (cursor : list (list (str * pyval))) :
  forall acc : list (str * doc),
  NoDup (map fst acc ++ map AdiPage.mongo_key cursor) ->
  fold_left
    (fun data doc =>
       AdiPage.dict_set data (AdiPage.mongo_key doc) (Dict (Adi.clean_fields doc)))
    cursor acc
  = acc ++ map mongo_entry cursor.
Proof.
  induction cursor as [|doc cursor IH]; intros acc Hd; cbn [fold_left map].
  - now rewrite app_nil_r.
  - cbn [map] in Hd.
    assert (Hfresh : ~ In (AdiPage.mongo_key doc) (map fst acc)).
    { apply NoDup_remove_2 in Hd. intros H. apply Hd. apply in_or_app. now left. }
    rewrite dict_set_fresh by assumption. rewrite IH.
    + rewrite <- app_assoc. reflexivity.
    + rewrite map_app. cbn [map fst]. rewrite <- app_assoc. cbn [app].
      exact Hd.
Qed.

Lemma clean_data_objects (cursor : list (list (str * pyval))) :
  Adi.clean_data (map (fun doc => (AdiPage.mongo_key doc, JObject doc)) cursor)
  = map mongo_entry cursor.
Proof.
  induction cursor as [|doc cursor IH]; [reflexivity|].
  cbn [map]. unfold Adi.clean_data in *. cbn [flat_map snd fst app].
  now rewrite IH.
Qed.

(** X11.  When the documents of the cursor have distinct [_id] texts, the
    MongoDB branch builds the graph that the JSON branch builds from the
    object with these ids as keys and the same documents as values: the two
    sources differ in the source name only. *)
Theorem mongo_same_as_json (doc : list (str * pyval))
    (cursor : list (list (str * pyval)))
    (file : AdiPage.fallback)
    (Hids : NoDup (map AdiPage.mongo_key (doc :: cursor))) :
  AdiPage.mongo_data (doc :: cursor)
  = Adi.clean_data
      (map (fun doc => (AdiPage.mongo_key doc, JObject doc)) (doc :: cursor))
  /\ AdiPage.load_graph_data (Some (doc :: cursor)) file
     = AdiPage.Loaded
         (fst (Adi.load_graph_data
                 (map (fun doc => (AdiPage.mongo_key doc, JObject doc))
                      (doc :: cursor))))
         (u "mongo").
Proof.
  assert (E : AdiPage.mongo_data (doc :: cursor)
              = map mongo_entry (doc :: cursor)).
  { unfold AdiPage.mongo_data. rewrite mongo_fold_distinct; [reflexivity|exact Hids]. }
  split.
  - rewrite E. symmetry. apply clean_data_objects.
  - unfold AdiPage.load_graph_data. rewrite E.
    unfold Adi.load_graph_data. cbn [fst]. rewrite clean_data_objects.
    cbn [map]. reflexivity.
Qed.

Lemma dict_set_NoDup {V} (d : list (str * V)) (k : str) (v : V) :
  NoDup (map fst d) -> NoDup (map fst (AdiPage.dict_set d k v)).
Proof.
  intros H. rewrite dict_set_keys. destruct (mem k (map fst d)) eqn:E; [exact H|].
  apply mem_false in E. apply NoDup_app; [exact H|repeat constructor; cbn; tauto|].
  intros x Hx [<-|[]]. contradiction.
Qed.

Lemma dict_set_In_keys {V} (d : list (str * V)) (k k' : str) (v : V) :
  In k' (map fst (AdiPage.dict_set d k v)) <-> In k' (map fst d) \/ k' = k.
Proof.
  rewrite dict_set_keys. destruct (mem k (map fst d)) eqn:E.
  - apply mem_In in E. split; [tauto|]. intros [H| ->]; assumption.
  - rewrite in_app_iff. cbn [In]. intuition congruence.
Qed.

Lemma mongo_fold_facts (cursor : list (list (str * pyval))) :
  forall acc : list (str * doc),
  let data :=
    fold_left
      (fun data record =>
         AdiPage.dict_set data (AdiPage.mongo_key record)
                          (Dict (Adi.clean_fields record)))
      cursor acc in
  (NoDup (map fst acc) -> NoDup (map fst data))
  /\ (forall k, In k (map fst data)
                <-> In k (map fst acc) \/ In k (map AdiPage.mongo_key cursor))
  /\ (forall k, ~ In k (map AdiPage.mongo_key cursor) ->
                dict_get data k = dict_get acc k).
Proof.
  induction cursor as [|record cursor IH]; intros acc; cbn [fold_left map].
  - cbv zeta. split; [auto|]. split; [cbn [In]; tauto|auto].
  - destruct (IH (AdiPage.dict_set acc (AdiPage.mongo_key record)
                                   (Dict (Adi.clean_fields record))))
      as (I1 & I2 & I3).
    cbv zeta. split; [|split].
    + intros H. apply I1. now apply dict_set_NoDup.
    + intros k. rewrite I2, dict_set_In_keys. cbn [In]. intuition congruence.
    + intros k Hk. cbn [In] in Hk. rewrite I3 by tauto.
      apply dict_set_get_other. intros E. apply Hk. left. congruence.
Qed.

(** X12.  The MongoDB branch keeps one record per [_id] text: the keys of
    the mapping it builds are distinct, they are the [_id] texts of the
    cursor's documents, and under each key stands the cleaned form of the
    last document with that [_id] text; a document without [_id] is stored
    under "None". *)
Theorem mongo_last_document_wins (cursor : list (list (str * pyval))) :
  NoDup (map fst (AdiPage.mongo_data cursor))
  /\ (forall k, In k (map fst (AdiPage.mongo_data cursor))
                <-> In k (map AdiPage.mongo_key cursor))
  /\ (forall before record after,
        cursor = before ++ record :: after ->
        ~ In (AdiPage.mongo_key record) (map AdiPage.mongo_key after) ->
        dict_get (AdiPage.mongo_data cursor) (AdiPage.mongo_key record)
        = Some (Dict (Adi.clean_fields record)))
  /\ (forall record, dict_get record (u "_id") = None ->
                     AdiPage.mongo_key record = u "None").
Proof.
  unfold AdiPage.mongo_data.
  destruct (mongo_fold_facts cursor []) as (F1 & F2 & _).
  split; [apply F1; constructor|].
  split; [intros k; rewrite F2; cbn [map In]; tauto|].
  split.
  - intros before record after -> Hlast. rewrite fold_left_app. cbn [fold_left].
    destruct (mongo_fold_facts after
                (AdiPage.dict_set
                   (fold_left
                      (fun data r =>
                         AdiPage.dict_set data (AdiPage.mongo_key r)
                                          (Dict (Adi.clean_fields r)))
                      before [])
                   (AdiPage.mongo_key record) (Dict (Adi.clean_fields record))))
      as (_ & _ & G3).
    rewrite (G3 _ Hlast). apply dict_set_get.
  - intros record H. unfold AdiPage.mongo_key, dict_get_default. now rewrite H.
Qed.

Lemma mongo_data_empty (cursor : list (list (str * pyval))) :
  AdiPage.mongo_data cursor = [] <-> cursor = [].
Proof.
  split; [|now intros ->].
  destruct cursor as [|record cursor]; [reflexivity|]. intros H. exfalso.
  destruct (mongo_fold_facts (record :: cursor) []) as (_ & F2 & _).
  fold (AdiPage.mongo_data (record :: cursor)) in F2. rewrite H in F2.
  apply (proj2 (F2 (AdiPage.mongo_key record))). right. now left.
Qed.

(** X13.  MongoDB is preferred: as soon as the cursor yields a document the
    graph is built from the cursor alone and named "mongo", whatever the
    fallback file is.  When MongoDB is missing, fails or is empty, the
    fallback file decides: an object gives the graph of the JSON branch,
    named "json"; a file that is not found gives a bare empty graph instead
    of a pair, and taking it apart as [full_G, DATA_SOURCE] fails with
    [ValueError]; a value that is not an object fails with
    [AttributeError]; any other exception of opening or parsing the file is
    not caught.  So the page gets its graph exactly when the cursor yields a
    document or the file holds an object. *)
Theorem load_outcomes (mongo : option (list (list (str * pyval))))
    (file : AdiPage.fallback) :
  (forall record cursor,
     mongo = Some (record :: cursor) ->
     AdiPage.unpack (AdiPage.load_graph_data mongo file)
     = AdiPage.Unpacked (Adi.build_graph (AdiPage.mongo_data (record :: cursor)))
                        (u "mongo"))
  /\ (mongo = None \/ mongo = Some [] ->
      (forall json,
         file = AdiPage.Parsed (AdiPage.TopObject json) ->
         AdiPage.unpack (AdiPage.load_graph_data mongo file)
         = AdiPage.Unpacked (fst (Adi.load_graph_data json)) (u "json"))
      /\ (file = AdiPage.FileNotFound ->
          AdiPage.load_graph_data mongo file = AdiPage.Bare empty
          /\ AdiPage.unpack (AdiPage.load_graph_data mongo file)
             = AdiPage.ValueError)
      /\ (file = AdiPage.Parsed AdiPage.TopOther ->
          AdiPage.unpack (AdiPage.load_graph_data mongo file)
          = AdiPage.Raises (u "AttributeError"))
      /\ (forall exception,
            file = AdiPage.Fails exception ->
            AdiPage.unpack (AdiPage.load_graph_data mongo file)
            = AdiPage.Raises exception))
  /\ ((exists full_G DATA_SOURCE,
         AdiPage.unpack (AdiPage.load_graph_data mongo file)
         = AdiPage.Unpacked full_G DATA_SOURCE)
      <-> (exists record cursor, mongo = Some (record :: cursor))
          \/ (exists json, file = AdiPage.Parsed (AdiPage.TopObject json))).
Proof.
  assert (Hmongo : forall record cursor,
            AdiPage.load_graph_data (Some (record :: cursor)) file
            = AdiPage.Loaded
                (Adi.build_graph (AdiPage.mongo_data (record :: cursor)))
                (u "mongo")).
  { intros record cursor. unfold AdiPage.load_graph_data.
    destruct (AdiPage.mongo_data (record :: cursor)) eqn:E; [|reflexivity].
    apply mongo_data_empty in E. discriminate E. }
  split; [|split].
  - intros record cursor ->. now rewrite Hmongo.
  - intros Hm.
    split; [|split; [|split]].
    + intros json ->. destruct Hm as [->| ->]; reflexivity.
    + intros ->. destruct Hm as [->| ->]; split; reflexivity.
    + intros ->. destruct Hm as [->| ->]; reflexivity.
    + intros exception ->. destruct Hm as [->| ->]; reflexivity.
  - destruct mongo as [[|record cursor]|].
    + destruct file as [|exception|[json|]]; cbn; split.
      all: try (intros (G & src & E); discriminate E).
      all: try (intros [(r & c & E)|(j & E)]; discriminate E).
      * intros _. right. now exists json.
      * intros _. eexists. eexists. reflexivity.
    + rewrite Hmongo. cbn [AdiPage.unpack]. split.
      * intros _. left. now exists record, cursor.
      * intros _. eexists. eexists. reflexivity.
    + destruct file as [|exception|[json|]]; cbn; split.
      all: try (intros (G & src & E); discriminate E).
      all: try (intros [(r & c & E)|(j & E)]; discriminate E).
      * intros _. right. now exists json.
      * intros _. eexists. eexists. reflexivity.
Qed.

End Sources.

(** ** What the normalizer keeps *)

Section Content.
Context {U : unicode_db}.

(** A pattern anchored with [^] cannot match after the first position. *)
Lemma sub_from_anchored (i : bool) (r : regex) (repl : str) (rest : str) :
  forall x pre skip,
  sub_from i (Seq Bol r) repl (x :: pre) rest skip = skipn skip rest.
Proof.
  induction rest as [|y rest IH]; intros x pre skip.
  - destruct skip; reflexivity.
  - destruct skip as [|n].
    + cbn [sub_from]. unfold match_at. cbn [rmatch]. rewrite IH. reflexivity.
    + cbn [sub_from skipn]. apply IH.
Qed.

(** So [re.sub] of an anchored pattern by the empty string drops a prefix. *)
Lemma sub_anchored_prefix (i : bool) (r : regex) (text : str) :
  exists n, sub i (Seq Bol r) [] text = skipn n text.
Proof.
  unfold sub. destruct text as [|x rest].
  - exists 0%nat. cbn [sub_from]. now destruct (match_at i (Seq Bol r) [] []).
  - cbn [sub_from]. destruct (match_at i (Seq Bol r) [] (x :: rest)) as [m|].
    + rewrite sub_from_anchored. cbn [app]. destruct (fst m) as [|n].
      * exists 0%nat. reflexivity.
      * exists (S n). cbn [Nat.eqb app skipn].
        now replace (S n - 1)%nat with n by lia.
    + exists 0%nat. now rewrite sub_from_anchored.
Qed.

Lemma filter_skipn_suffix {A} (f : A -> bool) (n : nat) (l : list A) :
  exists pre, filter f l = pre ++ filter f (skipn n l).
Proof.
  exists (filter f (firstn n l)).
  now rewrite <- filter_app, firstn_skipn.
Qed.

Lemma quoted_slice (q : char) (text : str) :
  isspace q = false ->
  startswith text [q] = true -> endswith text [q] = true ->
  exists post,
    filter nonspace text = q :: filter nonspace (slice_1_m1 text) ++ post
    /\ (post = [] \/ post = [q]).
Proof.
  intros Hq Hs He. destruct text as [|x t]; [discriminate Hs|].
  cbn [startswith] in Hs. apply andb_true_iff in Hs as [Hs _].
  apply N.eqb_eq in Hs. subst x.
  unfold slice_1_m1. cbn [tl filter]. unfold nonspace at 1. rewrite Hq. cbn [negb].
  destruct t as [|y t'].
  - exists []. cbn. auto.
  - assert (Hne : y :: t' <> []) by discriminate.
    pose proof (app_removelast_last q Hne) as E.
    unfold endswith in He. rewrite E in He.
    change (q :: removelast (y :: t') ++ [last (y :: t') q])
      with ((q :: removelast (y :: t')) ++ [last (y :: t') q]) in He.
    rewrite rev_app_distr in He. cbn [rev app startswith] in He.
    apply andb_true_iff in He as [He _]. apply N.eqb_eq in He.
    exists [q]. split; [|now right].
    rewrite E at 1. rewrite filter_app. cbn [filter].
    rewrite <- He. unfold nonspace at 2. rewrite Hq. reflexivity.
Qed.

(** [re.sub(r'\s+', ' ', text)] keeps every other character where it is,
    writes nothing but U+0020 for whitespace, and does not lengthen. *)
Lemma sub_whitespace_content (rest : str) :
  forall pre,
  (filter nonspace (sub_from false Adi.whitespace_pattern (u " ") pre rest 0)
   = filter nonspace rest
   /\ (List.length (sub_from false Adi.whitespace_pattern (u " ") pre rest 0)
       <= List.length rest)%nat
   /\ (forall c, In c (sub_from false Adi.whitespace_pattern (u " ") pre rest 0) ->
                 isspace c = true -> c = 32%N))
  /\ (filter nonspace (sub_from false Adi.whitespace_pattern (u " ") pre rest (run rest))
      = filter nonspace rest
      /\ (List.length (sub_from false Adi.whitespace_pattern (u " ") pre rest (run rest))
          <= List.length rest)%nat
      /\ (forall c, In c (sub_from false Adi.whitespace_pattern (u " ") pre rest (run rest)) ->
                    isspace c = true -> c = 32%N)).
Proof.
  induction rest as [|x rest IH]; intros pre.
  - cbn [run sub_from]. rewrite match_whitespace. cbn. intuition.
  - destruct (IH (x :: pre)) as ((A1 & A2 & A3) & (B1 & B2 & B3)).
    assert (H0 : sub_from false Adi.whitespace_pattern (u " ") pre (x :: rest) 0
                 = if isspace x
                   then 32%N :: sub_from false Adi.whitespace_pattern (u " ")
                                         (x :: pre) rest (run rest)
                   else x :: sub_from false Adi.whitespace_pattern (u " ")
                                      (x :: pre) rest 0).
    { cbn [sub_from]. rewrite match_whitespace.
      destruct (isspace x); [|reflexivity].
      cbn [fst Nat.eqb app].
      replace (S (run rest) - 1)%nat with (run rest) by lia. reflexivity. }
    assert (S32 : nonspace 32%N = false) by reflexivity.
    cbn [run]. rewrite H0. destruct (isspace x) eqn:Ex.
    + assert (Nx : nonspace x = false) by (unfold nonspace; now rewrite Ex).
      change (sub_from false Adi.whitespace_pattern (u " ") pre (x :: rest) (S (run rest)))
        with (sub_from false Adi.whitespace_pattern (u " ") (x :: pre) rest (run rest)).
      cbn [filter List.length]. rewrite S32, Nx.
      split; (split; [exact B1|]); (split; [lia|]).
      * intros c [<-|Hc] Hs; [reflexivity|now apply B3].
      * exact B3.
    + assert (Nx : nonspace x = true) by (unfold nonspace; now rewrite Ex).
      rewrite H0. cbn [filter List.length]. rewrite Nx, A1.
      split; (split; [reflexivity|]); (split; [lia|]);
        intros c [<-|Hc] Hs; try congruence; now apply A3.
Qed.

Lemma lstrip_content (s : str) : filter nonspace (lstrip s) = filter nonspace s.
Proof.
  induction s as [|c s IH]; [reflexivity|]. cbn [lstrip].
  destruct (isspace c) eqn:E; [|reflexivity].
  cbn [filter]. unfold nonspace at 2. now rewrite E.
Qed.

Lemma filter_rev_comm {A} (f : A -> bool) (l : list A) :
  filter f (rev l) = rev (filter f l).
Proof.
  induction l as [|x l IH]; [reflexivity|]. cbn [rev filter].
  rewrite filter_app, IH. cbn [filter]. destruct (f x); [reflexivity|].
  now rewrite app_nil_r.
Qed.

Lemma strip_content (s : str) : filter nonspace (strip s) = filter nonspace s.
Proof.
  unfold strip, rstrip.
  now rewrite filter_rev_comm, lstrip_content, filter_rev_comm, rev_involutive,
    lstrip_content.
Qed.

Lemma strip_part (s : str) :
  (List.length (strip s) <= List.length s)%nat
  /\ (forall c, In c (strip s) -> In c s).
Proof.
  destruct (strip_substring s) as (a & b & E). split.
  - rewrite E at 2. rewrite !length_app. lia.
  - intros c H. rewrite E. apply in_or_app. right. apply in_or_app. now left.
Qed.

Lemma slice_shorter (s : str) :
  (List.length (slice_1_m1 s) <= List.length s)%nat.
Proof.
  unfold slice_1_m1. destruct s as [|x t]; [cbn; lia|]. cbn [tl List.length].
  destruct t as [|y t']; [cbn; lia|].
  pose proof (@app_removelast_last _ (y :: t') x ltac:(discriminate)) as E.
  rewrite E at 2. rewrite length_app. cbn [List.length]. lia.
Qed.

(** X14.  The normalizer never lengthens a text and never alters or reorders
    what is not whitespace: every whitespace character of its result is
    U+0020, and the other characters of the result are a contiguous part of
    the other characters of [str(s)], which ends at the end of the text or
    one quote character before it.  (What is dropped in front is the leading
    label and an opening quote.) *)
Theorem clean_text_keeps_words (s : pyval) :
  (forall c, In c (Adi._clean_text s) -> isspace c = true -> c = 32%N)
  /\ (List.length (Adi._clean_text s) <= List.length (py_str s))%nat
  /\ exists pre post,
       filter nonspace (py_str s)
       = pre ++ filter nonspace (Adi._clean_text s) ++ post
       /\ (post = [] \/ post = Adi.DQUOTE \/ post = Adi.SQUOTE).
Proof.
  assert (H : forall text,
            let out := strip (sub false Adi.whitespace_pattern (u " ")
                         (let text := sub true Adi.label_pattern [] text in
                          if (startswith text Adi.DQUOTE && endswith text Adi.DQUOTE)
                             || (startswith text Adi.SQUOTE && endswith text Adi.SQUOTE)
                          then slice_1_m1 text else text)) in
            (forall c, In c out -> isspace c = true -> c = 32%N)
            /\ (List.length out <= List.length text)%nat
            /\ exists pre post,
                 filter nonspace text = pre ++ filter nonspace out ++ post
                 /\ (post = [] \/ post = Adi.DQUOTE \/ post = Adi.SQUOTE)).
  { intros text. cbv zeta.
    destruct (sub_anchored_prefix true
                (Seq (Star Space)
                (Seq (Grp (Alt (Str "Abstract") (Str "Introduction")))
                (Seq (Star Space)
                (Seq (Star (OneOf [":"; "010"; "013"; "-"]%char))
                     (Star Space))))) text) as [n En].
    fold Adi.label_pattern in En. rewrite En.
    set (t1 := skipn n text).
    assert (L1 : (List.length t1 <= List.length text)%nat)
      by (unfold t1; rewrite length_skipn; lia).
    destruct (filter_skipn_suffix nonspace n text) as [pre1 P1]. fold t1 in P1.
    set (t2 := if (startswith t1 Adi.DQUOTE && endswith t1 Adi.DQUOTE)
                  || (startswith t1 Adi.SQUOTE && endswith t1 Adi.SQUOTE)
               then slice_1_m1 t1 else t1).
    assert (Q : (List.length t2 <= List.length t1)%nat
                /\ exists pre2 post,
                     filter nonspace t1 = pre2 ++ filter nonspace t2 ++ post
                     /\ (post = [] \/ post = Adi.DQUOTE \/ post = Adi.SQUOTE)).
    { unfold t2.
      destruct (startswith t1 Adi.DQUOTE && endswith t1 Adi.DQUOTE) eqn:Ed;
        [|destruct (startswith t1 Adi.SQUOTE && endswith t1 Adi.SQUOTE) eqn:Es];
        cbn [orb].
      - apply andb_true_iff in Ed as [D1 D2].
        destruct (@quoted_slice 34%N t1 eq_refl D1 D2) as (post & E & Hp).
        split; [apply slice_shorter|]. exists [34%N], post. split; [exact E|].
        unfold Adi.DQUOTE. tauto.
      - apply andb_true_iff in Es as [D1 D2].
        destruct (@quoted_slice 39%N t1 eq_refl D1 D2) as (post & E & Hp).
        split; [apply slice_shorter|]. exists [39%N], post. split; [exact E|].
        unfold Adi.SQUOTE. tauto.
      - split; [lia|]. exists [], []. rewrite app_nil_r. auto. }
    destruct Q as (L2 & pre2 & post & P2 & Hpost).
    destruct (sub_whitespace_content t2 []) as ((W1 & W2 & W3) & _).
    fold (sub false Adi.whitespace_pattern (u " ") t2) in W1, W2, W3.
    destruct (strip_part (sub false Adi.whitespace_pattern (u " ") t2)) as [S1 S2].
    split; [|split].
    - intros c Hc. apply W3. now apply S2.
    - lia.
    - exists (pre1 ++ pre2), post. split; [|exact Hpost].
      rewrite strip_content, W1, P1, P2, <- app_assoc. reflexivity. }
  destruct s as [|t|t].
  - split; [intros c []|]. split; [cbn; lia|].
    exists (u "None"), []. split; [reflexivity|now left].
  - apply (H t).
  - apply (H t).
Qed.

End Content.

(** ** Node connections *)

Section Degrees.
Context {U : unicode_db}.

Lemma filter_length_pos {A} (f : A -> bool) (l : list A) (x : A) :
  In x l -> f x = true -> (1 <= List.length (filter f l))%nat.
Proof.
  induction l as [|y l IH]; intros Hin Hf; [destruct Hin|].
  cbn [filter]. destruct Hin as [<-|H].
  - rewrite Hf. cbn [List.length]. lia.
  - destruct (f y); cbn [List.length]; [lia|auto].
Qed.

Lemma neighbor_joins (n m : str) (e : str * str) :
  In m (if str_eqb (fst e) n then [snd e]
        else if str_eqb (snd e) n then [fst e] else []) ->
  joins n m e = true.
Proof.
  unfold joins. destruct (str_eqb (fst e) n) eqn:E1.
  - intros [<-|[]]. now rewrite str_eqb_refl.
  - destruct (str_eqb (snd e) n) eqn:E2; [|intros []].
    intros [<-|[]]. rewrite str_eqb_refl. reflexivity.
Qed.

(** In a graph without parallel edges no neighbour is listed twice. *)
Lemma neighbors_NoDup (G : graph) (n : str) : simple G -> NoDup (neighbors G n).
Proof.
  unfold simple, neighbors. induction (edges G) as [|e es IH]; intros Hs;
    [constructor|].
  cbn [flat_map]. apply NoDup_app.
  - destruct (str_eqb (fst e) n); [repeat constructor; intros []|].
    destruct (str_eqb (snd e) n); repeat constructor. intros [].
  - apply IH. intros a b. specialize (Hs a b). cbn [filter] in Hs.
    destruct (joins a b e); cbn [List.length] in Hs; lia.
  - intros m Hm Hin. apply neighbor_joins in Hm.
    apply in_flat_map in Hin as (e' & He' & Hm'). apply neighbor_joins in Hm'.
    specialize (Hs n m). cbn [filter] in Hs. rewrite Hm in Hs.
    pose proof (filter_length_pos (joins n m) es e' He' Hm').
    cbn [List.length] in Hs. lia.
Qed.

Lemma same_elements_length {A} (l1 l2 : list A) :
  NoDup l1 -> NoDup l2 -> (forall x, In x l1 <-> In x l2) ->
  List.length l1 = List.length l2.
Proof.
  intros H1 H2 H.
  pose proof (@NoDup_incl_length _ l1 l2 H1 (fun x => proj1 (H x))).
  pose proof (@NoDup_incl_length _ l2 l1 H2 (fun x => proj2 (H x))).
  lia.
Qed.

Lemma assembled_edge (data : list (str * doc)) (e : str * str) :
  In e (edges (Adi.build_graph data)) ->
  exists doc_id d it,
    In (doc_id, Dict d) data /\ accepted d = true
    /\ In it (doc_items d) /\ e = (pub_key doc_id, item_label it).
Proof.
  unfold Adi.build_graph. intros H. now apply build_edges_from in H as [[]|H].
Qed.

Lemma assembled_simple (data : list (str * doc)) : simple (Adi.build_graph data).
Proof. apply build_simple. intros a b. cbn. lia. Qed.

Lemma same_id_same_doc (data : list (str * doc)) (i : str) (d d' : doc) :
  NoDup (map fst data) -> In (i, d) data -> In (i, d') data -> d = d'.
Proof.
  intros Hn H1 H2.
  pose proof (@NoDup_map_inj _ _ fst data (i, d) (i, d') Hn H1 H2 eq_refl) as E.
  congruence.
Qed.

Lemma pub_neighbors (data : list (str * doc)) (i : str) (d : list (str * str)) :
  NoDup (map fst data) -> In (i, Dict d) data -> accepted d = true ->
  forall l, In l (neighbors (Adi.build_graph data) (pub_key i)) <-> In l (doc_labels d).
Proof.
  intros Hn Hin Ha l. split.
  - intros H. apply neighbors_inv in H as (e & He & Hends).
    apply assembled_edge in He as (i' & d' & it & Hin' & Ha' & Hit & ->).
    cbn [fst snd] in Hends. destruct Hends as [[E1 E2]|[E1 E2]].
    + apply pub_key_inj in E1. subst i'.
      pose proof (@same_id_same_doc data i _ _ Hn Hin Hin') as E. inversion E.
      subst d'.
      subst l. unfold doc_labels. now apply in_map.
    + destruct (doc_item_entity d' it Hit) as [_ Hp].
      rewrite E1, pub_key_p in Hp. discriminate Hp.
  - intros H. unfold doc_labels in H. apply in_map_iff in H as (it & <- & Hit).
    destruct build_start as [H0 K0].
    destruct (@build_inv U data empty H0 K0) as (_ & _ & _ & _ & B5).
    fold (Adi.build_graph data) in B5.
    apply has_edge_neighbors. exact (proj2 (proj2 (B5 i d Hin Ha) it Hit)).
Qed.

Lemma mentioning_In (l : str) (data : list (str * doc)) (i : str) :
  In i (mentioning l data) <->
  exists d, In (i, Dict d) data /\ accepted d = true /\ In l (doc_labels d).
Proof.
  unfold mentioning. rewrite in_flat_map. split.
  - intros ([i' [d|]] & Hin & H); cbn [snd fst] in H; [|destruct H].
    destruct (accepted d) eqn:Ea; [|destruct H].
    destruct (mem l (doc_labels d)) eqn:Em; [|destruct H].
    cbn in H. destruct H as [<-|[]]. exists d. apply mem_In in Em. auto.
  - intros (d & Hin & Ha & Hl). exists (i, Dict d). split; [exact Hin|].
    cbn [snd fst]. rewrite Ha. apply mem_In in Hl. rewrite Hl. now left.
Qed.

Lemma mentioning_NoDup (l : str) (data : list (str * doc)) :
  NoDup (map fst data) -> NoDup (map pub_key (mentioning l data)).
Proof.
  induction data as [|[i x] data IH]; intros Hn; [constructor|].
  cbn [map fst] in Hn. apply NoDup_cons_iff in Hn as [Hi Hn].
  unfold mentioning. cbn [flat_map]. fold (mentioning l data).
  rewrite map_app. cbn [snd fst].
  assert (Hfresh : ~ In (pub_key i) (map pub_key (mentioning l data))).
  { intros H. apply in_map_iff in H as (j & E & Hj). apply pub_key_inj in E. subst j.
    apply mentioning_In in Hj as (d & Hd & _). apply Hi.
    change i with (fst (i, Dict d)). now apply in_map. }
  destruct x as [d|]; [|now apply IH].
  destruct (accepted d && mem l (doc_labels d)); [|now apply IH].
  cbn [map app]. constructor; [exact Hfresh|now apply IH].
Qed.

Lemma entity_neighbors (data : list (str * doc)) (l : str) :
  starts_with_p l = false ->
  forall p, In p (neighbors (Adi.build_graph data) l)
            <-> In p (map pub_key (mentioning l data)).
Proof.
  intros Hl p. rewrite in_map_iff. split.
  - intros H. apply neighbors_inv in H as (e & He & Hends).
    apply assembled_edge in He as (i & d & it & Hin & Ha & Hit & ->).
    cbn [fst snd] in Hends. destruct Hends as [[E1 E2]|[E1 E2]].
    + rewrite <- E1, pub_key_p in Hl. discriminate Hl.
    + exists i. split; [exact E2|]. apply mentioning_In. exists d.
      split; [exact Hin|]. split; [exact Ha|]. rewrite <- E1.
      unfold doc_labels. now apply in_map.
  - intros (i & <- & Hi). apply mentioning_In in Hi as (d & Hin & Ha & Hd).
    unfold doc_labels in Hd. apply in_map_iff in Hd as (it & <- & Hit).
    destruct build_start as [H0 K0].
    destruct (@build_inv U data empty H0 K0) as (_ & _ & _ & _ & B5).
    fold (Adi.build_graph data) in B5.
    apply has_edge_neighbors. rewrite has_edge_sym.
    exact (proj2 (proj2 (B5 i d Hin Ha) it Hit)).
Qed.

(** X15.  With distinct document ids, the neighbours of a Publication node
    of the assembled graph are exactly the labels its document yields, and
    its degree is the number of distinct labels of the document.  When the
    page is drawn with the controls at their defaults and fewer than 50
    publications, this is the degree in the displayed graph, the value the
    node's colour shows as "Node Connections". *)
Theorem publication_degree (data : list (str * doc)) (doc_id : str)
    (d : list (str * str)) :
  NoDup (map fst data) -> In (doc_id, Dict d) data -> accepted d = true ->
  (forall l, In l (neighbors (Adi.build_graph data) (pub_key doc_id))
             <-> In l (doc_labels d))
  /\ degree (Adi.build_graph data) (pub_key doc_id)
     = List.length (set_of (doc_labels d))
  /\ (forall shown,
        AdiPage.default_page (Adi.build_graph data) = Some shown ->
        (AdiPage.total_publications (Adi.build_graph data) < 50)%Z ->
        degree shown (pub_key doc_id) = List.length (set_of (doc_labels d))).
Proof.
  intros Hn Hin Ha.
  pose proof (pub_neighbors data doc_id d Hn Hin Ha) as Hnb.
  split; [exact Hnb|].
  assert (Hdeg : degree (Adi.build_graph data) (pub_key doc_id)
                 = List.length (set_of (doc_labels d)));
    [|split; [exact Hdeg|];
      intros shown Hs Hlt; now rewrite (default_page_small data Hlt Hs)].
  unfold degree.
  assert (Hself : mem (pub_key doc_id)
                      (neighbors (Adi.build_graph data) (pub_key doc_id)) = false).
  { apply mem_false. intros H. apply Hnb in H. unfold doc_labels in H.
    apply in_map_iff in H as (it & E & Hit).
    destruct (doc_item_entity d it Hit) as [_ Hp].
    rewrite E, pub_key_p in Hp. discriminate Hp. }
  rewrite Hself, Nat.add_0_r. apply same_elements_length.
  - apply neighbors_NoDup, assembled_simple.
  - apply set_of_NoDup.
  - intros l. rewrite set_of_In. apply Hnb.
Qed.

(** X16.  With distinct document ids, the neighbours of an entity node of
    the assembled graph are exactly the Publication nodes of the accepted
    documents that yield its label, and its degree is the number of those
    documents.  When the page is drawn with the controls at their defaults
    and fewer than 50 publications, this is the degree in the displayed
    graph: the "Node Connections" of a Mission, Keyword or Organism node
    then count the publications that mention it. *)
Theorem entity_degree (data : list (str * doc)) (l : str) :
  NoDup (map fst data) -> starts_with_p l = false ->
  (forall p, In p (neighbors (Adi.build_graph data) l)
             <-> exists doc_id d,
                   p = pub_key doc_id /\ In (doc_id, Dict d) data
                   /\ accepted d = true /\ In l (doc_labels d))
  /\ degree (Adi.build_graph data) l = List.length (mentioning l data)
  /\ (forall shown,
        AdiPage.default_page (Adi.build_graph data) = Some shown ->
        (AdiPage.total_publications (Adi.build_graph data) < 50)%Z ->
        degree shown l = List.length (mentioning l data)).
Proof.
  intros Hn Hl. pose proof (entity_neighbors data l Hl) as Hnb. split.
  - intros p. rewrite Hnb, in_map_iff. split.
    + intros (i & <- & Hi). apply mentioning_In in Hi as (d & H). now exists i, d.
    + intros (i & d & -> & H). exists i. split; [reflexivity|].
      apply mentioning_In. now exists d.
  - assert (Hdeg : degree (Adi.build_graph data) l
                   = List.length (mentioning l data));
      [|split; [exact Hdeg|];
        intros shown Hs Hlt; now rewrite (default_page_small data Hlt Hs)].
    unfold degree.
    assert (Hself : mem l (neighbors (Adi.build_graph data) l) = false).
    { apply mem_false. intros H. apply Hnb in H.
      apply in_map_iff in H as (i & E & _).
      rewrite <- E, pub_key_p in Hl. discriminate Hl. }
    rewrite Hself, Nat.add_0_r.
    rewrite <- (length_map pub_key (mentioning l data)).
    apply same_elements_length.
    + apply neighbors_NoDup, assembled_simple.
    + now apply mentioning_NoDup.
    + exact Hnb.
Qed.

End Degrees.

(** ** When there is nothing to display *)

Section Warning.
Context {U : unicode_db}.




End Warning.

(** ** The further properties on concrete records *)

Ltac distinct :=
  repeat (apply NoDup_cons; [cbn [In]; intuition discriminate|]); apply NoDup_nil.

Lemma graph_contents_witness :
  has_node three_documents_graph (u "Radiation") = true.
Proof.
  apply (proj1 (@graph_contents basic_latin three_documents) (u "Radiation")).
  exists (u "c"), [ (u "Title", u "Radiation and bone") ].
  split; [pick|]. split; [reflexivity|]. right. vm_compute. pick.
Defined.

Lemma graph_order_independent_witness :
  has_edge three_documents_graph (pub_key (u "c")) (u "Bone")
  = has_edge (Adi.build_graph (U := basic_latin) (rev three_documents))
             (pub_key (u "c")) (u "Bone").
Proof.
  apply (proj2 (@graph_order_independent basic_latin three_documents
                  (rev three_documents))
               (fun x => in_rev three_documents x)).
Defined.

Lemma node_shapes_witness :
  In (u "Bone", Adi.node_attrs Keyword 10 (u "Bone")) (nodes three_documents_graph)
  /\ In (u "Bone") (map snd Adi.keywords).
Proof.
  assert (Hin : In (u "Bone", Adi.node_attrs Keyword 10 (u "Bone"))
                   (nodes three_documents_graph)) by (vm_compute; pick).
  split; [exact Hin|].
  destruct (@node_shapes basic_latin three_documents (u "Bone")
              (Adi.node_attrs Keyword 10 (u "Bone")) Hin)
    as (t & z & l & Ea & _ & _ & _ & Hk).
  apply Hk. inversion Ea. reflexivity.
Defined.

Lemma edges_join_publication_and_entity_witness :
  In (pub_key (u "a"), u "Bone") (edges three_documents_graph)
  /\ pub_key (u "a") <> u "Bone".
Proof.
  assert (Hin : In (pub_key (u "a"), u "Bone") (edges three_documents_graph))
    by (vm_compute; pick).
  split; [exact Hin|].
  exact (proj1 (proj1 (@edges_join_publication_and_entity basic_latin three_documents)
                      (pub_key (u "a")) (u "Bone") Hin)).
Defined.

Lemma publications_in_order_witness :
  NoDup (map fst three_documents)
  /\ nodes_of_type three_documents_graph Publication
     = [pub_key (u "a"); pub_key (u "b"); pub_key (u "c")]
  /\ AdiPage.total_publications three_documents_graph = 3%Z.
Proof.
  assert (Hn : NoDup (map fst three_documents)) by (vm_compute; distinct).
  split; [exact Hn|].
  destruct (@publications_in_order basic_latin three_documents Hn) as [H1 H2].
  split.
  - etransitivity; [exact H1|]. vm_compute. reflexivity.
  - etransitivity; [exact H2|]. vm_compute. reflexivity.
Defined.

Lemma projection_keeps_assembled_graph_witness :
  Adi.sub_G three_documents_graph = three_documents_graph.
Proof.
  exact (proj1 (@projection_keeps_assembled_graph basic_latin three_documents)).
Defined.

Lemma displayed_graph_is_induced_witness :
  In (pub_key (u "a"), u "Bone")
     (edges (Adi.final_G three_documents_graph [Publication; Keyword] 1))
  /\ ~ In (pub_key (u "b"), u "Muscle")
          (edges (Adi.final_G three_documents_graph [Publication; Keyword] 1)).
Proof.
  pose proof (proj2 (@displayed_graph_is_induced three_documents_graph
                       [Publication; Keyword] 1%Z)) as H.
  split.
  - apply (proj2 (H (pub_key (u "a"), u "Bone"))).
    split; [vm_compute; pick|]. split; vm_compute; pick.
  - intros Hin. apply (proj1 (H (pub_key (u "b"), u "Muscle"))) in Hin
      as (_ & Hb & _).
    vm_compute in Hb. intuition discriminate.
Defined.

Lemma slider_range_and_count_witness :
  List.length (nodes_of_type (Adi.final_G three_documents_graph [Publication] 2)
                             Publication) = 2%nat.
Proof.
  apply (proj2 (proj2 (proj2 (slider_range_and_count three_documents_graph)))
               [Publication] 2%Z).
  - vm_compute. distinct.
  - vm_compute. discriminate.
  - vm_compute. reflexivity.
  - reflexivity.
Defined.

Lemma type_options_and_defaults_witness :
  AdiPage.all_node_types three_documents_graph = [Keyword; Publication]
  /\ ~ In Location (AdiPage.all_node_types three_documents_graph)
  /\ Adi.type_selected (AdiPage.actual_defaults three_documents_graph)
                       (Adi.node_attrs Keyword 10 (u "Bone")) = true.
Proof.
  split; [vm_compute; reflexivity|].
  destruct (proj2 (proj2 (proj2 (proj2
              (@type_options_and_defaults basic_latin three_documents_graph))))
              three_documents eq_refl) as (H1 & _ & H3).
  split; [exact H1|].
  apply (H3 (u "Bone")). vm_compute. pick.
Defined.

Lemma default_view_witness :
  AdiPage.default_page three_documents_graph = Some three_documents_graph
  /\ AdiPage.default_page
       (Adi.build_graph (U := basic_latin)
          [ (u "a", Dict [ (u "Title", u "Bone loss in orbit") ]) ])
     = None.
Proof.
  split.
  - apply (proj1 (proj2 (@default_view basic_latin three_documents))).
    + vm_compute. reflexivity.
    + vm_compute. discriminate.
  - apply (proj1 (@default_view basic_latin
                    [ (u "a", Dict [ (u "Title", u "Bone loss in orbit") ]) ])).
    vm_compute. reflexivity.
Defined.

Lemma mongo_same_as_json_witness :
  AdiPage.load_graph_data (U := basic_latin) (Some two_records)
                          (AdiPage.Fails (u "JSONDecodeError"))
  = AdiPage.Loaded
      (fst (Adi.load_graph_data (U := basic_latin)
              (map (fun doc => (AdiPage.mongo_key doc, JObject doc)) two_records)))
      (u "mongo").
Proof.
  assert (Hids : NoDup (map AdiPage.mongo_key two_records)) by (vm_compute; distinct).
  exact (proj2 (@mongo_same_as_json basic_latin _ _
                  (AdiPage.Fails (u "JSONDecodeError")) Hids)).
Defined.

Lemma mongo_last_document_wins_witness :
  dict_get (AdiPage.mongo_data (U := basic_latin) two_versions) (u "7")
  = Some (Dict [ (u "Title", u "Muscle atrophy study"); (u "Abstract", []);
                 (u "Introduction", []); (u "Link", []) ]).
Proof.
  destruct (@mongo_last_document_wins basic_latin two_versions) as (_ & _ & H & _).
  etransitivity.
  - apply (H [ [ (u "_id", PyStr (u "7"));
                 (u "Title", PyStr (u "Bone loss in orbit")) ] ]
             [ (u "_id", PyStr (u "7")); (u "Title", PyStr (u "Muscle atrophy study")) ]
             []).
    + reflexivity.
    + intros [].
  - vm_compute. reflexivity.
Defined.

Lemma load_outcomes_witness :
  AdiPage.unpack (AdiPage.load_graph_data (U := basic_latin) (Some [])
                    AdiPage.FileNotFound)
  = AdiPage.ValueError
  /\ AdiPage.unpack (AdiPage.load_graph_data (U := basic_latin) None
                       (AdiPage.Fails (u "JSONDecodeError")))
     = AdiPage.Raises (u "JSONDecodeError").
Proof.
  split.
  - destruct (proj1 (proj2 (@load_outcomes basic_latin (Some [])
                             AdiPage.FileNotFound)) (or_intror eq_refl))
      as (_ & H & _).
    exact (proj2 (H eq_refl)).
  - destruct (proj1 (proj2 (@load_outcomes basic_latin None
                             (AdiPage.Fails (u "JSONDecodeError"))))
                    (or_introl eq_refl))
      as (_ & _ & _ & H).
    exact (H (u "JSONDecodeError") eq_refl).
Defined.

Lemma clean_text_keeps_words_witness :
  Adi._clean_text (U := basic_latin) (PyStr quoted_label_text) = u "a b"
  /\ (List.length (Adi._clean_text (U := basic_latin) (PyStr quoted_label_text))
      <= List.length quoted_label_text)%nat.
Proof.
  split; [vm_compute; reflexivity|].
  exact (proj1 (proj2 (@clean_text_keeps_words basic_latin (PyStr quoted_label_text)))).
Defined.

Lemma publication_degree_witness :
  degree three_documents_graph (pub_key (u "c")) = 2%nat
  /\ AdiPage.default_page three_documents_graph = Some three_documents_graph.
Proof.
  assert (Hn : NoDup (map fst three_documents)) by (vm_compute; distinct).
  assert (Hin : In (u "c", Dict [ (u "Title", u "Radiation and bone") ])
                   three_documents) by pick.
  assert (Hp : AdiPage.default_page three_documents_graph
               = Some three_documents_graph) by (vm_compute; reflexivity).
  split; [|exact Hp].
  etransitivity.
  - apply (proj2 (proj2 (@publication_degree basic_latin three_documents (u "c")
                           [ (u "Title", u "Radiation and bone") ] Hn Hin eq_refl))
                 three_documents_graph Hp).
    vm_compute. reflexivity.
  - vm_compute. reflexivity.
Defined.

Lemma entity_degree_witness :
  degree three_documents_graph (u "Bone") = 2%nat
  /\ mentioning (U := basic_latin) (u "Bone") three_documents = [u "a"; u "c"].
Proof.
  assert (Hn : NoDup (map fst three_documents)) by (vm_compute; distinct).
  assert (Hp : AdiPage.default_page three_documents_graph
               = Some three_documents_graph) by (vm_compute; reflexivity).
  split; [|vm_compute; reflexivity].
  etransitivity.
  - apply (proj2 (proj2 (@entity_degree basic_latin three_documents (u "Bone")
                           Hn eq_refl))
                 three_documents_graph Hp).
    vm_compute. reflexivity.
  - vm_compute. reflexivity.
Defined.

